(** * Video processing pipeline: sensitivity analysis, orchestrator, consumer

    A shallow embedding of
      - [backend/utils/videoProcessor.js]  (frame sampler, classifier,
        sensitivity aggregator),
      - the upload route's [processVideoAsync] orchestrator and the socket
        emitters [emitVideoProgress] / [emitVideoComplete],
      - the frame accumulation of [frontend/src/pages/VideoUpload.jsx].

    JavaScript numbers are modelled as exact rationals ([Q]); counters and
    frame numbers as [nat].  Everything the code obtains from outside (the
    environment variables, the classification services, ffmpeg, the file
    system, the database) is an explicit environment argument, and
    exceptions are explicit: effectful code lives in a state-and-exception
    monad whose state is the log of what the code did. *)

From Stdlib Require Import List String ZArith QArith Qround Lia Lqa Bool Arith.
From Stdlib Require Import DecimalString.
From Stdlib Require Import Sorting.Sorted Permutation.
Import ListNotations.

Local Open Scope string_scope.
Local Open Scope Q_scope.

(** ** Numbers *)

(** [a < b] on JavaScript numbers. *)
Definition Qltb (a b : Q) : bool := negb (Qle_bool b a).

(** [Math.max(a, b)] and [Math.min(a, b)]. *)
Definition Math_max (a b : Q) : Q := if Qle_bool a b then b else a.
Definition Math_min (a b : Q) : Q := if Qle_bool a b then a else b.

(** A [nat] counter read as a JavaScript number. *)
Definition num (n : nat) : Q := inject_Z (Z.of_nat n).

(** ** A state-and-exception monad

    [Returned a] is normal completion, [Raised msg] a thrown [Error] with
    its [message].  The state survives an exception, as a mutated object
    does in JavaScript. *)

Inductive Outcome (A : Type) : Type :=
| Returned (a : A)
| Raised (msg : string).
Arguments Returned {A} a.
Arguments Raised {A} msg.

Definition M (S A : Type) : Type := S -> S * Outcome A.

Definition ret {S A} (a : A) : M S A := fun s => (s, Returned a).

Definition raise {S A} (msg : string) : M S A := fun s => (s, Raised msg).

Definition bind {S A B} (m : M S A) (f : A -> M S B) : M S B :=
  fun s => match m s with
           | (s', Returned a) => f a s'
           | (s', Raised msg) => (s', Raised msg)
           end.

(** [try { m } catch (error) { h error.message }] *)
Definition try_catch {S A} (m : M S A) (h : string -> M S A) : M S A :=
  fun s => match m s with
           | (s', Returned a) => (s', Returned a)
           | (s', Raised msg) => h msg s'
           end.

(** [if (c) { m }] *)
Definition when {S} (c : bool) (m : M S unit) : M S unit :=
  if c then m else ret tt.

Definition modify {S} (f : S -> S) : M S unit := fun s => (f s, Returned tt).

Declare Scope monad_scope.
Delimit Scope monad_scope with monad.
Notation "x <- m ;; k" := (bind m (fun x => k))
  (at level 61, m at next level, right associativity) : monad_scope.
Notation "m ;; k" := (bind m (fun _ => k))
  (at level 61, right associativity) : monad_scope.
Local Open Scope monad_scope.

(** ** Content classifier ([analyzeFrame] and its backends) *)

Module Classifier.

(** The [details] object of a frame analysis. *)
Inductive Details : Type :=
| NoDetails
| Scores (nudity offensive weapon : Q)
| Levels (adult violence racy : string).

Record FrameAnalysis : Type := {
  isExplicit : bool;
  isViolent : bool;
  confidence : Q;
  reasons : list string;
  details : Details
}.

(** [response.data] of the probabilistic service, after the [|| 0]
    defaults. *)
Record SightengineData : Type := {
  nudity_raw : Q;
  nudity_partial : Q;
  offensive_prob : Q;
  weapon : Q
}.

(** [result.safeSearchAnnotation] of the categorical service. *)
Record SafeSearch : Type := {
  adult : string;
  violence : string;
  racy : string
}.

(** What the outside world answers for one frame. *)
Record FrameEnv : Type := {
  (** the HTTP call of [analyzeFrameSightengine]: data, or the error *)
  sightengine : string + SightengineData;
  (** [client.safeSearchDetection]: the annotation (possibly absent), or
      the error *)
  vision : string + option SafeSearch;
  (** [fs.statSync(framePath)] succeeds *)
  stat_ok : bool;
  (** the 5 second timer of the caller fires before [analyzeFrame]
      settles *)
  timed_out : bool;
  (** [fs.unlinkSync(framePath)] succeeds *)
  cleanup_ok : bool
}.

Definition analyzeFrameSightengine (fe : FrameEnv) : string + FrameAnalysis :=
  match sightengine fe with
  | inl err => inl err
  | inr data =>
      let nudityScore := Math_max (nudity_raw data) (nudity_partial data) in
      let isExplicit := Qltb (1#2) nudityScore in
      let offensiveProb := offensive_prob data in
      let isOffensive := Qltb (1#2) offensiveProb in
      let weaponProb := weapon data in
      let isViolent := Qltb (1#2) weaponProb in
      inr {| isExplicit := isExplicit || isOffensive;
             isViolent := isViolent;
             confidence := Math_max (Math_max nudityScore offensiveProb) weaponProb;
             reasons := [];
             details := Scores nudityScore offensiveProb weaponProb |}
  end.

(** The body of [if (safeSearch) { ... }] in [analyzeFrame]. *)
Definition safeSearchVerdict (safeSearch : SafeSearch) : FrameAnalysis :=
  let adultLevel := adult safeSearch in
  let isExplicit := (adultLevel =? "VERY_LIKELY") || (adultLevel =? "LIKELY")
                    || (adultLevel =? "POSSIBLE") in
  let violenceLevel := violence safeSearch in
  let isViolent := (violenceLevel =? "VERY_LIKELY") || (violenceLevel =? "LIKELY")
                   || (violenceLevel =? "POSSIBLE") in
  let racyLevel := racy safeSearch in
  let isRacy := (racyLevel =? "VERY_LIKELY") || (racyLevel =? "LIKELY") in
  {| isExplicit := isExplicit || isRacy;
     isViolent := isViolent;
     confidence := if isExplicit || isViolent then 9#10 else 1#2;
     reasons := [];
     details := Levels adultLevel violenceLevel racyLevel |}.

Definition analyzeFrameBasic (fe : FrameEnv) : FrameAnalysis :=
  if stat_ok fe then
    {| isExplicit := false; isViolent := false; confidence := 2#10;
       reasons := []; details := NoDetails |}
  else
    {| isExplicit := false; isViolent := false; confidence := 0;
       reasons := ["Frame analysis failed"]; details := NoDetails |}.

(** [analyzeFrame]: every call that can throw sits in a [try] whose
    [catch] falls through to the next backend, so the function itself
    always resolves.  [hasSightengine] is the presence of both
    credentials, [hasGoogleVision] whether the dynamic import of the
    vision client succeeds. *)
Definition analyzeFrame (hasSightengine hasGoogleVision : bool) (fe : FrameEnv)
  : FrameAnalysis :=
  let fallback := analyzeFrameBasic fe in
  let tryVision :=
    if hasGoogleVision then
      match vision fe with
      | inr (Some safeSearch) => safeSearchVerdict safeSearch
      | inr None => fallback
      | inl _ => fallback
      end
    else fallback in
  if hasSightengine then
    match analyzeFrameSightengine fe with
    | inr r => r
    | inl _ => tryVision
    end
  else tryVision.

End Classifier.

(** ** Frame sampler and sensitivity aggregator
       ([extractFrames], [analyzeVideoSensitivity]) *)

Module Sensitivity.
Import Classifier.

Record Metadata : Type := {
  duration : Q;
  size : Q;
  hasAudio : bool
}.

(** A frame file on disk: the timestamp in its name, and how the outside
    world will answer when this file is classified and deleted. *)
Record Frame : Type := {
  timestamp : Q;
  frame_env : FrameEnv
}.

(** What the outside world answers during one analysis. *)
Record Env : Type := {
  (** both [SIGHTENGINE_API_USER] and [SIGHTENGINE_API_SECRET] are set *)
  hasSightengine : bool;
  (** [import('@google-cloud/vision')] succeeds *)
  hasGoogleVision : bool;
  (** the 30 second timer fires before [extractFrames] settles *)
  extraction_timeout : bool;
  (** the ['error'] event of the ffmpeg screenshot command *)
  ffmpeg_error : option string;
  (** for the k-th requested timestamp: the file ffmpeg wrote, if
      [fs.existsSync] finds one *)
  frame_file : nat -> option FrameEnv
}.

(** [frameResults] entries; [error] is present on error frames only. *)
Record FrameResult : Type := {
  frameNumber : nat;
  fr_isExplicit : bool;
  fr_isViolent : bool;
  fr_confidence : Q;
  fr_details : Details;
  fr_error : option string
}.

(** The [details] argument of the progress callback. *)
Record CallDetails : Type := {
  currentFrame : option nat;
  totalFrames : option nat;
  frameResult : option FrameResult;
  liveUpdate : bool
}.

Definition noDetails : CallDetails :=
  {| currentFrame := None; totalFrames := None; frameResult := None;
     liveUpdate := false |}.

(** One invocation [progressCallback(progress, status, details)]. *)
Record Call : Type := {
  call_progress : Q;
  call_status : string;
  call_details : CallDetails
}.

(** The entries of a [reasons] array; the two ratio messages keep the
    numbers they are formatted from. *)
Inductive Reason : Type :=
| Text (s : string)
| ExplicitIn (count total : nat) (ratio : Q)
| ViolentIn (count total : nat) (ratio : Q)
| PotentialExplicit (count : nat)
| PotentialViolent (count : nat).

Record FrameSummary : Type := {
  fs_totalFrames : nat;
  explicitFrames : nat;
  violentFrames : nat;
  fs_frameResults : list FrameResult
}.

(** The object [analyzeVideoSensitivity] resolves to (its [timestamp]
    field, a date, is left out). *)
Record Verdict : Type := {
  status : string;
  v_confidence : Q;
  v_reasons : list Reason;
  frameAnalysis : option FrameSummary
}.

(** The mutable locals of one analysis, and the log of callback
    invocations. *)
Record AState : Type := {
  calls : list Call;
  explicitCount : nat;
  violentCount : nat;
  frameResults : list FrameResult
}.

Definition initial : AState :=
  {| calls := []; explicitCount := 0; violentCount := 0; frameResults := [] |}.

(** The [progressCallback] argument: [None] is [null]; [Some raises]
    is a function, [raises k] telling whether its k-th invocation (from 0)
    throws. *)
Definition Callback : Type := option (nat -> bool).

(** [if (progressCallback) progressCallback(progress, status, details)] *)
Definition progressCallback (cb : Callback) (progress : Q) (status : string)
    (details : CallDetails) : M AState unit :=
  match cb with
  | None => ret tt
  | Some raises => fun st =>
      let c := {| call_progress := progress; call_status := status;
                  call_details := details |} in
      ({| calls := (calls st ++ [c])%list; explicitCount := explicitCount st;
          violentCount := violentCount st; frameResults := frameResults st |},
       if raises (List.length (calls st)) then Raised "callback failed"
       else Returned tt)
  end.

Definition push_frameResult (r : FrameResult) : M AState unit :=
  modify (fun st => {| calls := calls st; explicitCount := explicitCount st;
                       violentCount := violentCount st;
                       frameResults := (frameResults st ++ [r])%list |}).

Definition incr_explicitCount : M AState unit :=
  modify (fun st => {| calls := calls st; explicitCount := S (explicitCount st);
                       violentCount := violentCount st;
                       frameResults := frameResults st |}).

Definition incr_violentCount : M AState unit :=
  modify (fun st => {| calls := calls st; explicitCount := explicitCount st;
                       violentCount := S (violentCount st);
                       frameResults := frameResults st |}).

Definition get_state : M AState AState := fun st => (st, Returned st).

(** *** [extractFrames] *)

(** [Math.max(1, Math.min(maxFrames, Math.floor(totalDuration / interval)))] *)
Definition clampFrames (totalDuration interval : Q) (maxFrames : Z) : Z :=
  Z.max 1 (Z.min maxFrames (Qfloor (totalDuration / interval))).

(** The requested timestamps, [Math.min(i * interval, totalDuration - 1)]
    for [i] below [frameCount]. *)
Definition timestamps (totalDuration interval : Q) (frameCount : nat) : list Q :=
  map (fun i => Math_min (num i * interval) (totalDuration - 1)) (seq 0 frameCount).

(** The files found after the screenshot command ended, in timestamp
    order. *)
Fixpoint existing (env : Env) (k : nat) (ts : list Q) : list Frame :=
  match ts with
  | [] => []
  | t :: rest =>
      match frame_file env k with
      | Some fe => {| timestamp := t; frame_env := fe |} :: existing env (S k) rest
      | None => existing env (S k) rest
      end
  end.

Definition extractFrames (env : Env) (duration interval : Q) (maxFrames : Z)
  : Outcome (list Frame) :=
  let totalDuration := if Qeq_bool duration 0 then 60 else duration in
  let frameCount := clampFrames totalDuration interval maxFrames in
  if (frameCount =? 0)%Z then
    (* single frame at the start; an ffmpeg error resolves to no frame *)
    match ffmpeg_error env with
    | Some _ => Returned []
    | None => Returned (existing env 0 [0])
    end
  else
    match ffmpeg_error env with
    | Some err => Raised err
    | None => Returned (existing env 0
                          (timestamps totalDuration interval (Z.to_nat frameCount)))
    end.

(** *** The per-frame loop of [analyzeVideoSensitivity] *)

(** [`${n}`] *)
Definition show (n : nat) : string := NilZero.string_of_uint (Nat.to_uint n).

(** [`Analyzing frame ${i + 1}/${frames.length}...`] *)
Definition analyzingFrame (i n : nat) : string :=
  "Analyzing frame " ++ show (i + 1)%nat ++ "/" ++ show n ++ "...".

(** [30 + ((i + 1) / frames.length) * 20] *)
Definition frameProgress (i n : nat) : Q := 30 + (num (i + 1)%nat / num n) * 20.

(** [Promise.race([analyzeFrame(framePath), <5 second timer>])] *)
Definition raceAnalyzeFrame (env : Env) (fe : FrameEnv) : M AState FrameAnalysis :=
  if timed_out fe then raise "Frame analysis timeout"
  else ret (analyzeFrame (hasSightengine env) (hasGoogleVision env) fe).

(** [if (fs.existsSync(framePath)) fs.unlinkSync(framePath)] *)
Definition cleanup (fe : FrameEnv) : M AState unit :=
  if cleanup_ok fe then ret tt else raise "unlink failed".

Definition okFrameResult (i : nat) (frameAnalysis : FrameAnalysis) : FrameResult :=
  {| frameNumber := (i + 1)%nat;
     fr_isExplicit := isExplicit frameAnalysis;
     fr_isViolent := isViolent frameAnalysis;
     fr_confidence := confidence frameAnalysis;
     fr_details := details frameAnalysis;
     fr_error := None |}.

Definition errorFrameResult (i : nat) (message : string) : FrameResult :=
  {| frameNumber := (i + 1)%nat;
     fr_isExplicit := false;
     fr_isViolent := false;
     fr_confidence := 0;
     fr_details := NoDetails;
     fr_error := Some message |}.

(** One iteration of [for (let i = 0; i < frames.length; i++)], with
    [n = frames.length].  The [allReasons] array the code also fills is
    never read and is left out. *)
Definition analyzeOneFrame (env : Env) (cb : Callback) (i n : nat) (f : Frame)
  : M AState unit :=
  try_catch
    (progressCallback cb (frameProgress i n) (analyzingFrame i n)
       {| currentFrame := Some (i + 1)%nat; totalFrames := Some n;
          frameResult := None; liveUpdate := false |} ;;
     frameAnalysis <- raceAnalyzeFrame env (frame_env f) ;;
     let frameResult := okFrameResult i frameAnalysis in
     push_frameResult frameResult ;;
     when (isExplicit frameAnalysis) incr_explicitCount ;;
     when (isViolent frameAnalysis) incr_violentCount ;;
     progressCallback cb (frameProgress i n) (analyzingFrame i n)
       {| currentFrame := Some (i + 1)%nat; totalFrames := Some n;
          frameResult := Some frameResult; liveUpdate := true |} ;;
     cleanup (frame_env f))
    (fun message =>
       let errorFrameResult := errorFrameResult i message in
       push_frameResult errorFrameResult ;;
       progressCallback cb (frameProgress i n) (analyzingFrame i n)
         {| currentFrame := Some (i + 1)%nat; totalFrames := Some n;
            frameResult := Some errorFrameResult; liveUpdate := true |}
       (* the cleanup of this branch ignores its own failures *)).

Fixpoint analyzeFrames (env : Env) (cb : Callback) (i n : nat) (frames : list Frame)
  : M AState unit :=
  match frames with
  | [] => ret tt
  | f :: rest => analyzeOneFrame env cb i n f ;; analyzeFrames env cb (S i) n rest
  end.

(** *** The verdict *)

Definition threshold : Q := 15 # 100.

(** Lines "Determine overall status" to "Additional heuristics". *)
Definition aggregate (metadata : Metadata) (n : nat) (st : AState) : Verdict :=
  let explicitCount := explicitCount st in
  let violentCount := violentCount st in
  let explicitRatio := num explicitCount / num n in
  let violentRatio := num violentCount / num n in
  let summary := {| fs_totalFrames := n; explicitFrames := explicitCount;
                    violentFrames := violentCount;
                    fs_frameResults := frameResults st |} in
  let heuristics :=
    ((if Qltb (200 * 1024 * 1024) (size metadata)
      then [Text "Large file size - requires manual review"] else [])
     ++ (if Qltb 3600 (duration metadata)
         then [Text "Long duration - requires manual review"] else []))%list in
  if Qltb threshold explicitRatio || Qltb threshold violentRatio then
    {| status := "flagged";
       v_confidence := Math_max explicitRatio violentRatio;
       v_reasons :=
         ((if (0 <? explicitCount)%nat then [ExplicitIn explicitCount n explicitRatio] else [])
          ++ (if (0 <? violentCount)%nat then [ViolentIn violentCount n violentRatio] else [])
          ++ heuristics)%list;
       frameAnalysis := Some summary |}
  else if (0 <? explicitCount)%nat || (0 <? violentCount)%nat then
    {| status := "flagged";
       v_confidence := 7 # 10;
       v_reasons :=
         ((if (0 <? explicitCount)%nat then [PotentialExplicit explicitCount] else [])
          ++ (if (0 <? violentCount)%nat then [PotentialViolent violentCount] else [])
          ++ heuristics)%list;
       frameAnalysis := Some summary |}
  else
    {| status := "safe"; v_confidence := 85 # 100; v_reasons := heuristics;
       frameAnalysis := Some summary |}.

Definition noApiVerdict : Verdict :=
  {| status := "flagged"; v_confidence := 1 # 2;
     v_reasons := [Text "No content detection API configured - manual review required"];
     frameAnalysis := None |}.

Definition tooShortVerdict : Verdict :=
  {| status := "safe"; v_confidence := 3 # 10;
     v_reasons := [Text "Video duration too short for analysis"];
     frameAnalysis := None |}.

Definition extractionFailedVerdict : Verdict :=
  {| status := "safe"; v_confidence := 1 # 2;
     v_reasons := [Text "Frame extraction failed - manual review recommended"];
     frameAnalysis := None |}.

Definition analysisErrorVerdict : Verdict :=
  {| status := "flagged"; v_confidence := 1 # 2;
     v_reasons := [Text "Analysis error - manual review required"];
     frameAnalysis := None |}.

(** [metadata.duration] on a missing [metadata] is a [TypeError]. *)
Definition deref (metadata : option Metadata) : M AState Metadata :=
  match metadata with
  | Some m => ret m
  | None => raise "Cannot read properties of undefined (reading 'duration')"
  end.

Definition frameInterval (duration : Q) : Q := if Qltb duration 10 then 2 else 5.

(** [Promise.race([extractFrames(...), <30 second timer>])] *)
Definition raceExtractFrames (env : Env) (duration interval : Q) (maxFrames : Z)
  : Outcome (list Frame) :=
  if extraction_timeout env then Raised "Frame extraction timeout"
  else extractFrames env duration interval maxFrames.

(** The [try] block of [analyzeVideoSensitivity]. *)
Definition analysisBody (env : Env) (metadata : option Metadata) (cb : Callback)
  : M AState Verdict :=
  let useFrameAnalysis := hasSightengine env || hasGoogleVision env in
  if negb useFrameAnalysis then
    progressCallback cb 100 "No API configured - flagging for review" noDetails ;;
    ret noApiVerdict
  else
    m <- deref metadata ;;
    if Qeq_bool (duration m) 0 || Qltb (duration m) 3 then
      progressCallback cb 100 "Video too short" noDetails ;;
      ret tooShortVerdict
    else
      let frameInterval := frameInterval (duration m) in
      let maxFrames := clampFrames (duration m) frameInterval 20 in
      progressCallback cb 10 "Extracting frames..."
        {| currentFrame := None; totalFrames := Some (Z.to_nat maxFrames);
           frameResult := None; liveUpdate := false |} ;;
      match raceExtractFrames env (duration m) frameInterval maxFrames with
      | Raised _ => ret extractionFailedVerdict
      | Returned frames =>
          let n := List.length frames in
          if (n =? 0)%nat then ret extractionFailedVerdict
          else
            progressCallback cb 30 "Analyzing frames..."
              {| currentFrame := None; totalFrames := Some n;
                 frameResult := None; liveUpdate := false |} ;;
            analyzeFrames env cb 0 n frames ;;
            st <- get_state ;;
            ret (aggregate m n st)
      end.

(** [analyzeVideoSensitivity(videoPath, metadata, progressCallback)]: the
    log of callback invocations and how the promise settles. *)
Definition analyzeVideoSensitivity (env : Env) (metadata : option Metadata)
    (cb : Callback) : AState * Outcome Verdict :=
  try_catch (analysisBody env metadata cb) (fun _ => ret analysisErrorVerdict) initial.

End Sensitivity.

(** ** Pipeline orchestrator ([processVideoAsync]) and the socket emitters *)

Module Orchestrator.
Import Classifier Sensitivity.

(** Payload of a ['video:progress'] event ([videoId] and the date left
    out). *)
Record ProgressEvent : Type := {
  pe_progress : Q;
  pe_status : string;
  pe_currentFrame : option nat;
  pe_totalFrames : option nat;
  pe_frameResult : option FrameResult
}.

(** Payload of a ['video:complete'] event. *)
Record CompleteEvent : Type := {
  ce_status : string;
  ce_sensitivityStatus : option string;
  ce_progress : option Q;
  ce_error : option string
}.

(** The update document of a [Video.findByIdAndUpdate]. *)
Record Update : Type := {
  u_status : option string;
  u_processingProgress : option Q;
  u_sensitivityAnalysis : option Verdict;
  u_processedPath : bool
}.

(** What the orchestrator does, in the order it does it.  [Write u ok]
    is a [findByIdAndUpdate] issued with document [u]; [ok] tells whether
    the database applied it. *)
Inductive Action : Type :=
| Emit (e : ProgressEvent)
| Complete (e : CompleteEvent)
| Write (u : Update) (ok : bool).

Definition Trace : Type := list Action.

(** What the outside world answers during one job. *)
Record World : Type := {
  analysis : Env;
  (** the k-th [findByIdAndUpdate] issued (from 0): [None] resolves,
      [Some message] rejects *)
  db_rejects : nat -> option string;
  (** the [progress.percent || 0] values of the ffmpeg ['progress']
      events, in order *)
  transcode_percent : list Q;
  (** the ['error'] event of the transcode (or a failed ffmpeg
      initialisation): [None] is the ['end'] event *)
  transcode_error : option string
}.

Definition is_write (a : Action) : bool :=
  match a with Write _ _ => true | _ => false end.

Definition issued (tr : Trace) : nat := List.length (filter is_write tr).

(** [emitVideoProgress(videoId, progress, status, details)]; the server
    sets [global.io] when it starts. *)
Definition emitVideoProgress (progress : Q) (status : string)
    (details : CallDetails) : M Trace unit :=
  modify (fun tr => tr ++ [Emit {| pe_progress := progress; pe_status := status;
                                   pe_currentFrame := currentFrame details;
                                   pe_totalFrames := totalFrames details;
                                   pe_frameResult := frameResult details |}])%list.

(** [emitVideoComplete(videoId, result)] *)
Definition emitVideoComplete (result : CompleteEvent) : M Trace unit :=
  modify (fun tr => tr ++ [Complete result])%list.

(** [await Video.findByIdAndUpdate(videoId, u)] *)
Definition findByIdAndUpdate (w : World) (u : Update) : M Trace unit :=
  fun tr => match db_rejects w (issued tr) with
            | None => ((tr ++ [Write u true])%list, Returned tt)
            | Some message => ((tr ++ [Write u false])%list, Raised message)
            end.

(** [Video.findByIdAndUpdate(videoId, u).catch(log)]: a rejection is
    logged and goes no further.  Where the code does not await such a
    write, the trace has it at the point it is issued. *)
Definition findByIdAndUpdate_catch (w : World) (u : Update) : M Trace unit :=
  try_catch (findByIdAndUpdate w u) (fun _ => ret tt).

Definition progressUpdate (status : option string) (progress : Q) : Update :=
  {| u_status := status; u_processingProgress := Some progress;
     u_sensitivityAnalysis := None; u_processedPath := false |}.

(** The progress callback given to [analyzeVideoSensitivity]. *)
Definition onAnalysisProgress (w : World) (c : Call) : M Trace unit :=
  let totalProgress := 30 + call_progress c * (2 # 10) in
  let statusMessage := if call_status c =? "" then "analyzing" else call_status c in
  emitVideoProgress totalProgress statusMessage (call_details c) ;;
  findByIdAndUpdate_catch w (progressUpdate (Some "analyzing") totalProgress).

Fixpoint replay (w : World) (cs : list Call) : M Trace unit :=
  match cs with
  | [] => ret tt
  | c :: rest => onAnalysisProgress w c ;; replay w rest
  end.

(** [await analyzeVideoSensitivity(inputPath, metadata, callback)].  The
    callback above never throws and the analysis reads nothing of the
    orchestrator, so its invocations are replayed in order. *)
Definition runAnalysis (w : World) (metadata : Metadata) : M Trace Verdict :=
  match analyzeVideoSensitivity (analysis w) (Some metadata) (Some (fun _ => false)) with
  | (st, Returned sensitivityAnalysis) => replay w (calls st) ;; ret sensitivityAnalysis
  | (st, Raised message) => replay w (calls st) ;; raise message
  end.

(** The progress callback given to [processVideoForStreaming], called
    with [Math.min(percent, 100)]. *)
Definition onTranscodeProgress (percent : Q) : M Trace unit :=
  let progress := Math_min percent 100 in
  let totalProgress := 50 + progress * (4 # 10) in
  emitVideoProgress totalProgress "compressing" noDetails.

Fixpoint transcodeEvents (ps : list Q) : M Trace unit :=
  match ps with
  | [] => ret tt
  | p :: rest => onTranscodeProgress p ;; transcodeEvents rest
  end.

(** [await processVideoForStreaming(inputPath, outputPath, callback, ...)] *)
Definition processVideoForStreaming (w : World) : M Trace unit :=
  transcodeEvents (transcode_percent w) ;;
  match transcode_error w with
  | None => ret tt
  | Some message => raise message
  end.

(** The [try] block of [processVideoAsync]. *)
Definition processBody (w : World) (metadata : Metadata) : M Trace unit :=
  emitVideoProgress 10 "processing" noDetails ;;
  findByIdAndUpdate w (progressUpdate (Some "processing") 10) ;;
  emitVideoProgress 30 "analyzing" noDetails ;;
  findByIdAndUpdate w (progressUpdate (Some "analyzing") 30) ;;
  sensitivityAnalysis <- runAnalysis w metadata ;;
  emitVideoProgress 50 "compressing" noDetails ;;
  findByIdAndUpdate w (progressUpdate None 50) ;;
  processVideoForStreaming w ;;
  emitVideoProgress 95 "finalizing" noDetails ;;
  findByIdAndUpdate w (progressUpdate None 95) ;;
  let finalStatus :=
    if status sensitivityAnalysis =? "flagged" then "flagged" else "completed" in
  findByIdAndUpdate w {| u_status := Some finalStatus;
                         u_processingProgress := Some 100;
                         u_sensitivityAnalysis := Some sensitivityAnalysis;
                         u_processedPath := true |} ;;
  emitVideoComplete {| ce_status := finalStatus;
                       ce_sensitivityStatus := Some (status sensitivityAnalysis);
                       ce_progress := Some 100;
                       ce_error := None |}.

(** The [catch (error)] block of [processVideoAsync]. *)
Definition processFailed (w : World) (message : string) : M Trace unit :=
  findByIdAndUpdate_catch w (progressUpdate (Some "failed") 0) ;;
  emitVideoComplete {| ce_status := "failed"; ce_sensitivityStatus := None;
                       ce_progress := None; ce_error := Some message |}.

(** [processVideoAsync(videoId, inputPath, metadata)]: everything the job
    did, and how the promise settles. *)
Definition processVideoAsync (w : World) (metadata : Metadata) : Trace * Outcome unit :=
  try_catch (processBody w metadata) (processFailed w) [].

(** The job record: [Video.create] stores it with status ['processing']
    and the schema default [processingProgress: 0]; applied writes
    overwrite the fields they name. *)
Record Job : Type := {
  job_status : string;
  processingProgress : Q;
  sensitivityAnalysis : option Verdict;
  processedPath : bool
}.

Definition created : Job :=
  {| job_status := "processing"; processingProgress := 0;
     sensitivityAnalysis := None; processedPath := false |}.

(** An update is cast to the schema before it is stored, and paths the
    schema does not have are dropped.  Under [sensitivityAnalysis] the
    [Video] schema has, for an entry of [frameAnalysis.frameResults],
    [frameNumber], [isExplicit], [isViolent], [confidence] and
    [details.nudity], [details.offensive], [details.weapon]: the [error]
    of an error frame and the [adult], [violence] and [racy] levels of
    the categorical backend are not stored. *)
Definition castFrameResult (r : FrameResult) : FrameResult :=
  {| frameNumber := frameNumber r;
     fr_isExplicit := fr_isExplicit r;
     fr_isViolent := fr_isViolent r;
     fr_confidence := fr_confidence r;
     fr_details := match fr_details r with
                   | Scores nudity offensive weapon => Scores nudity offensive weapon
                   | Levels _ _ _ => NoDetails
                   | NoDetails => NoDetails
                   end;
     fr_error := None |}.

Definition castVerdict (v : Verdict) : Verdict :=
  {| status := status v;
     v_confidence := v_confidence v;
     v_reasons := v_reasons v;
     frameAnalysis :=
       option_map (fun summary =>
                     {| fs_totalFrames := fs_totalFrames summary;
                        explicitFrames := explicitFrames summary;
                        violentFrames := violentFrames summary;
                        fs_frameResults := map castFrameResult (fs_frameResults summary) |})
                  (frameAnalysis v) |}.

Definition apply_update (j : Job) (u : Update) : Job :=
  {| job_status := match u_status u with Some s => s | None => job_status j end;
     processingProgress := match u_processingProgress u with
                           | Some p => p
                           | None => processingProgress j
                           end;
     sensitivityAnalysis := match u_sensitivityAnalysis u with
                            | Some v => Some (castVerdict v)
                            | None => sensitivityAnalysis j
                            end;
     processedPath := u_processedPath u || processedPath j |}.

Definition step (j : Job) (a : Action) : Job :=
  match a with
  | Write u true => apply_update j u
  | _ => j
  end.

(** The record a status query reads once the trace has run. *)
Definition persisted (tr : Trace) : Job := fold_left step tr created.

Definition terminal (s : string) : bool :=
  (s =? "completed") || (s =? "flagged") || (s =? "failed").

End Orchestrator.

(** ** Remote progress consumer: frame accumulation
       (the [onVideoProgress] handler of [VideoUpload.jsx]) *)

Module Consumer.
Import Sensitivity.

(** The fields of a ['video:progress'] payload the handler reads for the
    analysis details; [None] is [undefined]. *)
Record ProgressData : Type := {
  data_status : string;
  data_currentFrame : option nat;
  data_totalFrames : option nat;
  data_frameResult : option FrameResult
}.

(** The [analysisDetails] React state. *)
Record AnalysisDetails : Type := {
  ad_currentFrame : option nat;
  ad_totalFrames : option nat;
  statusMessage : string;
  ad_frameResults : list FrameResult
}.

(** The React state together with [frameResultsRef.current]. *)
Record State : Type := {
  frameResultsRef : list FrameResult;
  analysisDetails : AnalysisDetails
}.

(** [x || null] on an optional number. *)
Definition orNull (x : option nat) : option nat :=
  match x with
  | Some 0%nat => None
  | _ => x
  end.

(** [a || b] on strings. *)
Definition orElse (a b : string) : string := if a =? "" then b else a.

(** Insertion of [x] before the first entry that is not below it. *)
Fixpoint insertByFrameNumber (x : FrameResult) (l : list FrameResult)
  : list FrameResult :=
  match l with
  | [] => [x]
  | y :: rest =>
      if (frameNumber x <=? frameNumber y)%nat then x :: y :: rest
      else y :: insertByFrameNumber x rest
  end.

(** [.sort((a, b) => (a.frameNumber || 0) - (b.frameNumber || 0))]:
    [Array.prototype.sort] is stable, and so is this insertion sort. *)
Fixpoint sortByFrameNumber (l : list FrameResult) : list FrameResult :=
  match l with
  | [] => []
  | x :: rest => insertByFrameNumber x (sortByFrameNumber rest)
  end.

(** [existingFrameResults]: the ref when it holds anything, else the
    state. *)
Definition existingFrameResults (st : State) : list FrameResult :=
  match frameResultsRef st with
  | [] => ad_frameResults (analysisDetails st)
  | _ :: _ => frameResultsRef st
  end.

Definition hasFrameData (data : ProgressData) : bool :=
  match data_currentFrame data, data_totalFrames data, data_frameResult data with
  | None, None, None => false
  | _, _, _ => true
  end.

(** The analysis-details part of the handler, [setAnalysisDetails]
    included. *)
Definition onVideoProgress (st : State) (data : ProgressData) : State :=
  if hasFrameData data then
    let prev := analysisDetails st in
    let existingFrameResults := existingFrameResults st in
    let currentFrame :=
      match data_currentFrame data with
      | Some c => Some c
      | None => orNull (ad_currentFrame prev)
      end in
    let totalFrames :=
      match data_totalFrames data with
      | Some t => Some t
      | None => orNull (ad_totalFrames prev)
      end in
    let statusMessage :=
      orElse (data_status data) (orElse (statusMessage prev) "processing") in
    let newResults :=
      match data_frameResult data with
      | Some frameResult =>
          if (frameNumber frameResult =? 0)%nat then existingFrameResults
          else
            let filtered :=
              filter (fun f => negb (frameNumber f =? frameNumber frameResult)%nat)
                     existingFrameResults in
            sortByFrameNumber (filtered ++ [frameResult])
      | None => existingFrameResults
      end in
    {| frameResultsRef := newResults;
       analysisDetails := {| ad_currentFrame := currentFrame;
                             ad_totalFrames := totalFrames;
                             statusMessage := statusMessage;
                             ad_frameResults := newResults |} |}
  else st.

(** The handler applied to a sequence of events. *)
Definition onVideoProgressAll (st : State) (events : list ProgressData) : State :=
  fold_left onVideoProgress events st.

End Consumer.

From Stdlib Require Import Ascii DecimalNat.

(** ** Built-in string operations

    JavaScript strings are modelled as byte strings; the operations below
    follow the language definition on ASCII text. *)

Module Builtins.

(** One character of [toLowerCase]: ['A'..'Z'] to ['a'..'z']. *)
Definition lowerChar (c : ascii) : ascii :=
  let n := nat_of_ascii c in
  if (65 <=? n)%nat && (n <=? 90)%nat then ascii_of_nat (n + 32) else c.

(** [s.toLowerCase()] *)
Fixpoint toLowerCase (s : string) : string :=
  match s with
  | EmptyString => EmptyString
  | String c rest => String (lowerChar c) (toLowerCase rest)
  end.

(** [s.startsWith(p)] *)
Definition startsWith (s p : string) : bool := String.prefix p s.

(** [s.includes(sub)] *)
Fixpoint includes (s sub : string) : bool :=
  String.prefix sub s ||
  match s with
  | EmptyString => false
  | String _ rest => includes rest sub
  end.

(** [list.includes(s)] on an array of strings. *)
Definition listIncludes (l : list string) (s : string) : bool :=
  existsb (String.eqb s) l.

(** [s.split(sep)] for a separator of one character. *)
Fixpoint split (sep : ascii) (s : string) : list string :=
  match s with
  | EmptyString => [EmptyString]
  | String c rest =>
      if Ascii.eqb c sep then EmptyString :: split sep rest
      else match split sep rest with
           | first :: others => String c first :: others
           | [] => [String c EmptyString]
           end
  end.

(** The string without its first [n] characters. *)
Fixpoint drop (n : nat) (s : string) : string :=
  match n, s with
  | O, _ => s
  | S n', String _ rest => drop n' rest
  | S _, EmptyString => EmptyString
  end.

(** [s.replace(/pat/, '')] for a pattern that is literal text: the first
    occurrence is removed. *)
Fixpoint removeFirst (pat s : string) : string :=
  if String.prefix pat s then drop (String.length pat) s
  else match s with
       | EmptyString => EmptyString
       | String c rest => String c (removeFirst pat rest)
       end.

Definition isDigit (c : ascii) : bool :=
  let n := nat_of_ascii c in (48 <=? n)%nat && (n <=? 57)%nat.

Definition digitValue (c : ascii) : Z := Z.of_nat (nat_of_ascii c - 48).

(** White space as [parseInt] and [trim] skip it, within ASCII. *)
Definition isSpace (c : ascii) : bool :=
  let n := nat_of_ascii c in ((9 <=? n)%nat && (n <=? 13)%nat) || (n =? 32)%nat.

Fixpoint skipSpaces (s : string) : string :=
  match s with
  | String c rest => if isSpace c then skipSpaces rest else s
  | EmptyString => EmptyString
  end.

(** The value of the longest prefix of digits, continuing from [acc]. *)
Fixpoint parseDigits (s : string) (acc : Z) : Z :=
  match s with
  | String c rest => if isDigit c then parseDigits rest (10 * acc + digitValue c)%Z else acc
  | EmptyString => acc
  end.

(** [parseInt(s, 10)]; [None] is [NaN]. *)
Definition parseInt (s : string) : option Z :=
  let s := skipSpaces s in
  let '(sign, s) :=
    match s with
    | String "-"%char rest => ((-1)%Z, rest)
    | String "+"%char rest => (1%Z, rest)
    | _ => (1%Z, s)
    end in
  match s with
  | String c _ => if isDigit c then Some (sign * parseDigits s 0)%Z else None
  | EmptyString => None
  end.

(** The value of a hexadecimal digit. *)
Definition hexValue (c : ascii) : option Z :=
  let n := nat_of_ascii c in
  if isDigit c then Some (Z.of_nat (n - 48))
  else if (97 <=? n)%nat && (n <=? 102)%nat then Some (Z.of_nat (n - 87))
  else if (65 <=? n)%nat && (n <=? 70)%nat then Some (Z.of_nat (n - 55))
  else None.

Fixpoint parseHexDigits (s : string) (acc : Z) : Z :=
  match s with
  | String c rest =>
      match hexValue c with
      | Some d => parseHexDigits rest (16 * acc + d)%Z
      | None => acc
      end
  | EmptyString => acc
  end.

(** [parseInt(s)] without a radix: as [parseInt(s, 10)], but a text that
    starts, after its sign, with [0x] or [0X] is read as hexadecimal. *)
Definition parseIntAuto (s : string) : option Z :=
  let s := skipSpaces s in
  let '(sign, s) :=
    match s with
    | String "-"%char rest => ((-1)%Z, rest)
    | String "+"%char rest => (1%Z, rest)
    | _ => (1%Z, s)
    end in
  let hex (digits : string) :=
    match digits with
    | String c _ =>
        match hexValue c with
        | Some _ => Some (sign * parseHexDigits digits 0)%Z
        | None => None
        end
    | EmptyString => None
    end in
  match s with
  | String "0"%char (String "x"%char digits) => hex digits
  | String "0"%char (String "X"%char digits) => hex digits
  | String c _ => if isDigit c then Some (sign * parseDigits s 0)%Z else None
  | EmptyString => None
  end.

(** [s.trim()], within ASCII. *)
Fixpoint trimEnd (s : string) : string :=
  match s with
  | EmptyString => EmptyString
  | String c rest =>
      let rest' := trimEnd rest in
      if isSpace c && (rest' =? "") then EmptyString else String c rest'
  end.

Definition trim (s : string) : string := trimEnd (skipSpaces s).

(** [list.join(sep)] *)
Fixpoint join (sep : string) (l : list string) : string :=
  match l with
  | [] => ""
  | [s] => s
  | s :: rest => s ++ sep ++ join sep rest
  end.

(** A value of a query or a body that is a string or [undefined], when it
    is truthy. *)
Definition given (v : option string) : option string :=
  match v with
  | Some s => if s =? "" then None else Some s
  | None => None
  end.

End Builtins.

(** ** Remote progress consumer: status, polling, completion
       (the rest of the [useEffect] of [VideoUpload.jsx]) *)

Module ConsumerStatus.
Import Builtins Consumer.

(** The phases the [status] state may hold. *)
Definition known : list string :=
  ["idle"; "uploading"; "processing"; "analyzing"; "compressing"; "finalizing";
   "completed"; "failed"; "flagged"; "error"].

(** Truthiness of an optional number: [undefined], [null] and [0] are
    falsy. *)
Definition truthy (x : option nat) : bool :=
  match x with
  | Some (S _) => true
  | _ => false
  end.

(** The updater given to [setStatus] in the progress handler. *)
Definition nextStatus (prev : string) (data : ProgressData) : string :=
  let raw := data_status data in
  if raw =? "" then
    if truthy (data_currentFrame data) || truthy (data_totalFrames data)
    then "analyzing" else prev
  else
    let s := toLowerCase raw in
    if listIncludes known s then s
    else if includes s "analyzing frame" || includes s "extracting frame"
            || includes s "extracting frames" || includes s "analyzing frames"
    then "analyzing"
    else if includes s "compress" then "compressing"
    else if includes s "final" then "finalizing"
    else prev.

(** What the page holds besides the analysis details: the phase, the
    progress shown, whether the poll interval is still set, and whether a
    navigation to the video page was requested. *)
Record View : Type := {
  status : string;
  processingProgress : Q;
  polling : bool;
  navigated : bool
}.

(** The progress handler, for an event with this progress value. *)
Definition onProgress (v : View) (progress : Q) (data : ProgressData) : View :=
  {| status := nextStatus (status v) data;
     processingProgress := progress;
     polling := polling v;
     navigated := navigated v |}.

(** The ['video:complete'] handler, for an event with this status. *)
Definition onComplete (v : View) (eventStatus : string) : View :=
  {| status := eventStatus;
     processingProgress := 100;
     polling := false;
     navigated := navigated v || (eventStatus =? "completed") || (eventStatus =? "flagged") |}.

(** One tick of the poll: [video] is the [status] and
    [processingProgress] of the record the status query returned, [None]
    when the response holds no video. *)
Definition pollTick (v : View) (video : option (string * Q)) : View :=
  match video with
  | None => v
  | Some (videoStatus, videoProgress) =>
      let s := toLowerCase videoStatus in
      let done := listIncludes ["completed"; "flagged"; "failed"] s in
      {| status := if videoStatus =? "" then status v else s;
         processingProgress := videoProgress;
         polling := if done then false else polling v;
         navigated := navigated v || (done && listIncludes ["completed"; "flagged"] s) |}
  end.

End ConsumerStatus.

(** ** Socket provider of the client ([SocketContext.jsx]) *)

Module SocketClient.

(** [pendingVideoSubscriptionsRef.current]: a [Set] of video ids, in
    insertion order. *)
Definition Pending : Type := list string.

(** [set.add(id)] *)
Definition setAdd (id : string) (s : Pending) : Pending :=
  if Builtins.listIncludes s id then s else (s ++ [id])%list.

(** [subscribeToVideo(videoId)]: the pending set afterwards and the
    ['subscribe:video'] messages sent.  [live] is [socket && connected] as
    the closure sees them; an [undefined] id is the empty string. *)
Definition subscribeToVideo (pending : Pending) (videoId : string) (live : bool)
  : Pending * list string :=
  if videoId =? "" then (pending, [])
  else (setAdd videoId pending, if live then [videoId] else []).

(** The ['connect'] handler: one ['subscribe:video'] per pending id. *)
Definition onConnect (pending : Pending) : Pending * list string :=
  (pending, pending).

(** What happens to the provider. *)
Inductive Op : Type :=
| Subscribe (videoId : string) (live : bool)
| Connect.

Definition step (pending : Pending) (op : Op) : Pending * list string :=
  match op with
  | Subscribe videoId live => subscribeToVideo pending videoId live
  | Connect => onConnect pending
  end.

(** The pending set after a sequence of operations, from an empty set. *)
Definition pendingAfter (ops : list Op) : Pending :=
  fold_left (fun pending op => fst (step pending op)) ops [].

End SocketClient.

(** ** Byte ranges of the stream route ([GET /api/videos/:id/stream]) *)

Module Stream.
Import Builtins.

(** A number as [parseInt] or integer arithmetic gives it.  A finite
    value beyond [2^53] is rounded in JavaScript; the route below does
    nothing with such a value but reject it. *)
Inductive Num : Type :=
| NaN
| Finite (z : Z)
| PosInfinity
| NegInfinity.

(** From here on a text of digits is read as an infinity. *)
Definition overflow : Z := 2 ^ 1024 - 2 ^ 970.

Definition number (parsed : option Z) : Num :=
  match parsed with
  | None => NaN
  | Some z =>
      if (overflow <=? z)%Z then PosInfinity
      else if (z <=? - overflow)%Z then NegInfinity
      else Finite z
  end.

(** [Number.MAX_SAFE_INTEGER] *)
Definition maxSafe : Z := 2 ^ 53 - 1.

(** A position in a file: an integer from 0 to [maxSafe]. *)
Definition position (n : Num) : bool :=
  match n with
  | Finite z => (0 <=? z)%Z && (z <=? maxSafe)%Z
  | _ => false
  end.

(** [fs.createReadStream(videoPath, { start, end })] returns: [start] is
    a position, and [end] is [Infinity] or a position not below
    [start].  Otherwise it throws. *)
Definition createReadStream (start end_ : Num) : bool :=
  position start &&
  match end_ with
  | PosInfinity => true
  | Finite e => position end_ &&
                match start with Finite s => (s <=? e)%Z | _ => false end
  | _ => false
  end.

(** [(end - start) + 1] for a [start] that is a position. *)
Definition chunksize (start end_ : Num) : Num :=
  match start, end_ with
  | Finite s, Finite e => Finite (e - s + 1)
  | Finite _, PosInfinity => PosInfinity
  | Finite _, NegInfinity => NegInfinity
  | _, _ => NaN
  end.

(** What the route answers once the file was found: 200 with the
    [Content-Length]; 206 with the start and end of [Content-Range] and
    the [Content-Length]; or the 500 of the [catch] block. *)
Inductive Response : Type :=
| Whole (contentLength : Z)
| Partial (start end_ contentLength : Num)
| Failed.

Definition nth (i : nat) (parts : list string) : string := List.nth i parts "".

(** The response for a file of [fileSize] bytes and the [Range] header
    of the request ([None]: no such header). *)
Definition head (range : option string) (fileSize : Z) : Response :=
  match given range with
  | Some r =>
      let parts := split "-" (removeFirst "bytes=" r) in
      let start := number (parseInt (nth 0 parts)) in
      let end_ := if nth 1 parts =? "" then Finite (fileSize - 1)
                  else number (parseInt (nth 1 parts)) in
      if createReadStream start end_
      then Partial start end_ (chunksize start end_)
      else Failed
  | None => Whole fileSize
  end.

End Stream.

(** ** Rooms of the socket server ([socket/socketHandler.js]) *)

Module SocketServer.
Import Builtins.

(** A connected socket: its own id, what the authentication middleware
    attached to it, and the rooms it is in. *)
Record Socket : Type := {
  socket_id : string;
  user_id : string;
  organization : string;
  rooms : list string
}.

(** [socket.join(room)]; the rooms of a socket are a set. *)
Definition join (room : string) (s : Socket) : Socket :=
  if listIncludes (rooms s) room then s
  else {| socket_id := socket_id s; user_id := user_id s;
          organization := organization s; rooms := (rooms s ++ [room])%list |}.

(** [`video:${videoId}`] and [`user:${socket.user._id}`] *)
Definition videoRoom (videoId : string) : string := "video:" ++ videoId.
Definition userRoom (userId : string) : string := "user:" ++ userId.

(** The ['connection'] handler, on a socket that is in the room of its
    own id. *)
Definition onConnection (sid uid org : string) : Socket :=
  join (userRoom uid)
    (join org {| socket_id := sid; user_id := uid; organization := org;
                 rooms := [sid] |}).

(** The ['subscribe:video'] handler. *)
Definition onSubscribeVideo (s : Socket) (videoId : string) : Socket :=
  join (videoRoom videoId) s.

(** The socket after the ['subscribe:video'] messages [videoIds]. *)
Definition subscribed (s : Socket) (videoIds : list string) : Socket :=
  fold_left onSubscribeVideo videoIds s.

(** [io.to(room).emit(...)]: the sockets the event is sent to, once
    each. *)
Definition to (room : string) (sockets : list Socket) : list Socket :=
  filter (fun s => listIncludes (rooms s) room) sockets.

(** The sockets [emitVideoProgress] and [emitVideoComplete] reach for a
    video. *)
Definition receivers (videoId : string) (sockets : list Socket) : list Socket :=
  to (videoRoom videoId) sockets.

End SocketServer.

(** ** Probing an uploaded file ([getVideoMetadata]) *)

Module Probe.
Import Builtins Sensitivity.

(** What the outside world answers when a file is probed. *)
Record ProbeEnv : Type := {
  (** [await initializeFFmpeg()]: it rejects with a message, or resolves
      and [ffmpegInitialized] has this value *)
  initializeFFmpeg : string + bool;
  (** [fs.existsSync(videoPath)] *)
  videoExists : bool;
  (** [ffmpeg.ffprobe]: [err.message], or the [codec_type] of each of
      [metadata.streams] ([None]: no metadata, or no streams in it) *)
  ffprobe : string + option (list string);
  (** the result object built from the streams and the format *)
  metadataResult : Metadata
}.

(** The promise of [getVideoMetadata]: rejected with the message of an
    [Error], or resolved. *)
Definition getVideoMetadata (videoPath : string) (env : ProbeEnv) : string + Metadata :=
  match initializeFFmpeg env with
  | inl msg => inl ("FFmpeg initialization error: " ++ msg)
  | inr false => inl "FFmpeg initialization failed. Please check server logs."
  | inr true =>
      if negb (videoExists env) then inl ("Video file not found: " ++ videoPath)
      else
        match ffprobe env with
        | inl msg =>
            if includes msg "ffprobe" || includes msg "not found" || includes msg "ENOENT"
            then inl "FFmpeg/FFprobe not found. Please install FFmpeg or ensure ffmpeg-static package is installed."
            else if includes msg "Invalid data" || includes msg "Invalid"
            then inl "Invalid video file format or corrupted file. Please try a different video file."
            else inl ("Failed to extract video metadata: " ++ msg)
        | inr None => inl "Invalid video metadata: no streams found"
        | inr (Some streams) =>
            if existsb (String.eqb "video") streams
            then inr (metadataResult env)
            else inl "No video stream found in file"
        end
  end.

End Probe.

(** ** Accepting an upload: the form, the file filter, the route *)

Module Upload.
Import Builtins Sensitivity Probe.

(** *** The form ([handleFileChange] of [VideoUpload.jsx]) *)

Definition validTypes : list string :=
  ["video/mp4"; "video/mpeg"; "video/quicktime"; "video/x-msvideo"; "video/webm"].

(** [name.replace(/\.[^/.]+$/, '')]: a last extension is removed. *)
Definition extensionChar (c : ascii) : bool :=
  negb (Ascii.eqb c "/") && negb (Ascii.eqb c ".").

Fixpoint removeExtension (name : string) : string :=
  match name with
  | EmptyString => EmptyString
  | String c rest =>
      if Ascii.eqb c "." && negb (rest =? "")
         && forallb extensionChar (list_ascii_of_string rest)
      then EmptyString
      else String c (removeExtension rest)
  end.

(** The [File] the user picked. *)
Record SelectedFile : Type := {
  file_name : string;
  file_type : string;
  file_size : Z
}.

(** The state of the form that [handleFileChange] touches. *)
Record Form : Type := {
  file : option SelectedFile;
  title : string;
  error : string
}.

Definition handleFileChange (form : Form) (selected : option SelectedFile) : Form :=
  match selected with
  | None => form
  | Some selectedFile =>
      if negb (listIncludes validTypes (file_type selectedFile)) then
        {| file := file form; title := title form;
           error := "Invalid file type. Please select a video file." |}
      else if (500 * 1024 * 1024 <? file_size selectedFile)%Z then
        {| file := file form; title := title form;
           error := "File size exceeds 500MB limit." |}
      else
        {| file := Some selectedFile;
           title := if title form =? "" then removeExtension (file_name selectedFile)
                    else title form;
           error := "" |}
  end.

(** *** The file filter and the size limit of the server ([upload.js]) *)

Definition allowedMimes : list string :=
  ["video/mp4"; "video/mpeg"; "video/quicktime"; "video/x-msvideo"; "video/webm";
   "video/x-matroska"].

Definition allowedExtensions : list string :=
  [".mp4"; ".mov"; ".avi"; ".webm"; ".mkv"; ".mpeg"].

(** [fileFilter]; [extname] is [path.extname(file.originalname)].  It
    accepts, or rejects with the message of an [Error]. *)
Definition fileFilter (mimetype extname : string) : Outcome unit :=
  let fileExt := toLowerCase extname in
  if listIncludes allowedMimes mimetype || listIncludes allowedExtensions fileExt
  then Returned tt
  else Raised ("Invalid file type. Only video files are allowed. Received: "
               ++ (if mimetype =? "" then "unknown" else mimetype)).

(** [parseInt(process.env.MAX_FILE_SIZE) || 500 * 1024 * 1024] *)
Definition fileSizeLimit (MAX_FILE_SIZE : option string) : Z :=
  match MAX_FILE_SIZE with
  | Some text =>
      match parseIntAuto text with
      | Some 0%Z | None => 500 * 1024 * 1024
      | Some n => n
      end
  | None => 500 * 1024 * 1024
  end%Z.

(** *** The handler of [POST /api/videos/upload] *)

(** What the handler does to the outside world. *)
Inductive Effect : Type :=
| Unlink
| Create
| Start
| Respond (code : Z) (message : string).

(** The uploaded file on disk, and the effects so far. *)
Record Disk : Type := {
  present : bool;
  effects : list Effect
}.

(** What the outside world answers during the request. *)
Record UploadEnv : Type := {
  probe : ProbeEnv;
  (** [fs.unlinkSync(req.file.path)] succeeds *)
  unlink_ok : bool;
  (** [Video.create] throws this message *)
  create_error : option string
}.

Definition perform (e : Effect) : M Disk unit :=
  modify (fun d => {| present := present d; effects := (effects d ++ [e])%list |}).

(** [res.status(code).json({ message, ... })] *)
Definition respond (code : Z) (message : string) : M Disk unit :=
  perform (Respond code message).

(** [if (fs.existsSync(path)) { fs.unlinkSync(path); }] *)
Definition unlinkIfExists (env : UploadEnv) : M Disk unit :=
  fun d =>
    if present d then
      if unlink_ok env
      then ({| present := false; effects := (effects d ++ [Unlink])%list |}, Returned tt)
      else (d, Raised "EPERM: operation not permitted, unlink")
    else (d, Returned tt).

(** The message of the response to a file that could not be probed. *)
Definition errorMessage (message : string) : string :=
  "Failed to process video file. " ++
  (if includes message "FFmpeg" || includes message "ffprobe"
   then "FFmpeg is not installed or not found in PATH. Please install FFmpeg."
   else if includes message "Invalid" || includes message "corrupted"
   then "Invalid video format or corrupted file."
   else if message =? "" then "Invalid video format." else message).

(** [Video.create({...})] *)
Definition create (env : UploadEnv) : M Disk unit :=
  match create_error env with
  | Some msg => raise msg
  | None => perform Create
  end.

(** The handler; [hasFile] is [req.file], [path] its [path]. *)
Definition uploadHandler (hasFile : bool) (path : string) (env : UploadEnv)
  : M Disk unit :=
  try_catch
    (if negb hasFile then respond 400 "No video file provided"
     else
       metadata <- try_catch
                     (match getVideoMetadata path (probe env) with
                      | inr metadata => ret (Some metadata)
                      | inl msg => raise msg
                      end)
                     (fun msg =>
                        unlinkIfExists env ;;
                        respond 400 (errorMessage msg) ;;
                        ret None) ;;
       match metadata with
       | None => ret tt
       | Some _ =>
           create env ;;
           perform Start ;;
           respond 201 "Video uploaded successfully. Processing started."
       end)
    (fun _ =>
       when hasFile (unlinkIfExists env) ;;
       respond 500 "Video upload failed").

End Upload.

(** ** The video routes ([routes/videos.js]) behind their middleware
       ([middleware/auth.js]) *)

Module Videos.
Import Builtins.

(** A document of the [Video] collection, with the fields the routes
    read or write. *)
Record Video : Type := {
  _id : string;
  organization : string;
  uploadedBy : string;
  title : string;
  description : string;
  category : string;
  tags : list string;
  filePath : string;
  processedPath : option string;
  status : string;
  sensitivityStatus : string
}.

(** [req.user], as [authenticate] set it. *)
Record User : Type := {
  user_id : string;
  role : string;
  user_organization : string
}.

Record Body : Type := {
  body_title : option string;
  body_description : option string;
  body_category : option string;
  body_tags : option string
}.

Record Request : Type := {
  user : option User;
  query_organization : option string;
  params_id : string;
  body : Body
}.

Record Response : Type := {
  code : Z;
  message : string;
  data : option Video
}.

Definition json (code : Z) (message : string) : Response :=
  {| code := code; message := message; data := None |}.

(** The collection, and the paths that are files on disk. *)
Record World : Type := {
  store : list Video;
  files : list string
}.

(** What the outside world answers during a request. *)
Record Env : Type := {
  (** [Video.findOne] throws this message *)
  find_error : option string;
  (** [Video.findByIdAndUpdate] / [Video.findByIdAndDelete] throws this
      message *)
  write_error : option string;
  (** [fs.unlinkSync(path)] throws *)
  unlink_fails : string -> bool
}.

(** *** Middleware *)

(** [checkOrganization]: a response, or [req.organization]. *)
Definition checkOrganization (req : Request) : Response + string :=
  match user req with
  | None => inl (json 401 "Authentication required")
  | Some u =>
      match (if role u =? "admin" then given (query_organization req) else None) with
      | Some organization => inr organization
      | None => inr (user_organization u)
      end
  end.

(** [authorize(...roles)]: a response, or [next()]. *)
Definition authorize (roles : list string) (req : Request) : option Response :=
  match user req with
  | None => Some (json 401 "Authentication required")
  | Some u =>
      if negb (listIncludes roles (role u))
      then Some (json 403 ("Access denied. Required role: " ++ join " or " roles))
      else None
  end.

(** A route of the router: [checkOrganization], then [authorize] when
    the route has it, then the handler. *)
Definition route (roles : option (list string))
    (handler : User -> string -> M World Response) (req : Request)
  : M World Response :=
  match checkOrganization req with
  | inl response => ret response
  | inr organization =>
      match (match roles with Some roles => authorize roles req | None => None end) with
      | Some response => ret response
      | None =>
          match user req with
          | Some u => handler u organization
          | None => ret (json 401 "Authentication required")
          end
      end
  end.

(** *** The collection *)

(** [Video.findOne({ _id, organization })] *)
Definition findOne (env : Env) (id organization_ : string) : M World (option Video) :=
  fun w =>
    match find_error env with
    | Some msg => (w, Raised msg)
    | None =>
        (w, Returned (find (fun v => (_id v =? id) && (organization v =? organization_))
                           (store w)))
    end.

(** The [updateData] of [PUT /:id]. *)
Record UpdateData : Type := {
  ud_title : option string;
  ud_description : option string;
  ud_category : option string;
  ud_tags : option (list string)
}.

Definition orKeep {A} (new : option A) (old : A) : A :=
  match new with Some a => a | None => old end.

Definition applyUpdate (u : UpdateData) (v : Video) : Video :=
  {| _id := _id v; organization := organization v; uploadedBy := uploadedBy v;
     title := orKeep (ud_title u) (title v);
     description := orKeep (ud_description u) (description v);
     category := orKeep (ud_category u) (category v);
     tags := orKeep (ud_tags u) (tags v);
     filePath := filePath v; processedPath := processedPath v;
     status := status v; sensitivityStatus := sensitivityStatus v |}.

(** The first document with this [_id], updated or removed. *)
Fixpoint updateById (id : string) (u : UpdateData) (l : list Video) : list Video :=
  match l with
  | [] => []
  | v :: rest => if _id v =? id then applyUpdate u v :: rest
                 else v :: updateById id u rest
  end.

Fixpoint deleteById (id : string) (l : list Video) : list Video :=
  match l with
  | [] => []
  | v :: rest => if _id v =? id then rest else v :: deleteById id rest
  end.

(** The update cast to the [Video] schema: the title and every tag are
    trimmed ([trim: true]). *)
Definition castUpdate (u : UpdateData) : UpdateData :=
  {| ud_title := option_map trim (ud_title u);
     ud_description := ud_description u;
     ud_category := ud_category u;
     ud_tags := option_map (map trim) (ud_tags u) |}.

(** The validators of the schema for the paths an update sets
    ([runValidators: true]): a title is required and has at most 200
    characters, a description at most 1000. *)
Definition titleError (t : string) : option string :=
  if t =? "" then Some "Video title is required"
  else if (200 <? String.length t)%nat then Some "Title cannot exceed 200 characters"
  else None.

Definition descriptionError (d : string) : option string :=
  if (1000 <? String.length d)%nat then Some "Description cannot exceed 1000 characters"
  else None.

Definition validationError (u : UpdateData) : option string :=
  match match ud_title u with Some t => titleError t | None => None end with
  | Some msg => Some msg
  | None => match ud_description u with Some d => descriptionError d | None => None end
  end.

(** [Video.findByIdAndUpdate(id, updateData, { new: true, runValidators:
    true })]: the update is cast and validated, then applied; the result
    is the updated document, if there is one. *)
Definition findByIdAndUpdate (env : Env) (id : string) (u : UpdateData)
  : M World (option Video) :=
  fun w =>
    match validationError (castUpdate u) with
    | Some msg => (w, Raised msg)
    | None =>
        match write_error env with
        | Some msg => (w, Raised msg)
        | None =>
            let store' := updateById id (castUpdate u) (store w) in
            ({| store := store'; files := files w |},
             Returned (find (fun v => _id v =? id) store'))
        end
    end.

(** [Video.findByIdAndDelete(id)] *)
Definition findByIdAndDelete (env : Env) (id : string) : M World unit :=
  fun w =>
    match write_error env with
    | Some msg => (w, Raised msg)
    | None => ({| store := deleteById id (store w); files := files w |}, Returned tt)
    end.

(** *** The disk *)

Definition existsSync (path : string) : M World bool :=
  fun w => (w, Returned (listIncludes (files w) path)).

Definition unlinkSync (env : Env) (path : string) : M World unit :=
  fun w =>
    if unlink_fails env path then (w, Raised "EPERM: operation not permitted, unlink")
    else ({| store := store w;
             files := filter (fun p => negb (p =? path)) (files w) |}, Returned tt).

(** *** Handlers *)

(** [GET /:id] *)
Definition getVideo (env : Env) (id : string) (u : User) (organization_ : string)
  : M World Response :=
  try_catch
    (video <- findOne env id organization_ ;;
     match video with
     | None => ret (json 404 "Video not found")
     | Some v => ret {| code := 200; message := ""; data := Some v |}
     end)
    (fun _ => ret (json 500 "Failed to fetch video")).

(** The user may change the video: [req.user.role === 'admin'], or the
    video is the user's upload. *)
Definition permitted (u : User) (v : Video) : bool :=
  (role u =? "admin") || (uploadedBy v =? user_id u).

(** [tags.split(',').map(t => t.trim())] *)
Definition splitTags (tags_ : string) : list string := map trim (split "," tags_).

Definition updateDataOf (b : Body) : UpdateData :=
  {| ud_title := given (body_title b);
     ud_description := body_description b;
     ud_category := given (body_category b);
     ud_tags := option_map splitTags (given (body_tags b)) |}.

(** [PUT /:id] *)
Definition putVideo (env : Env) (id : string) (b : Body) (u : User)
    (organization_ : string) : M World Response :=
  try_catch
    (video <- findOne env id organization_ ;;
     match video with
     | None => ret (json 404 "Video not found")
     | Some v =>
         if negb (permitted u v)
         then ret (json 403 "You do not have permission to update this video")
         else
           updatedVideo <- findByIdAndUpdate env id (updateDataOf b) ;;
           ret {| code := 200; message := "Video updated successfully";
                  data := updatedVideo |}
     end)
    (fun _ => ret (json 500 "Failed to update video")).

(** [if (fs.existsSync(path)) { fs.unlinkSync(path); }] *)
Definition unlinkIfExists (env : Env) (path : string) : M World unit :=
  there <- existsSync path ;;
  when there (unlinkSync env path).

(** [DELETE /:id] *)
Definition deleteVideo (env : Env) (id : string) (u : User) (organization_ : string)
  : M World Response :=
  try_catch
    (video <- findOne env id organization_ ;;
     match video with
     | None => ret (json 404 "Video not found")
     | Some v =>
         if negb (permitted u v)
         then ret (json 403 "You do not have permission to delete this video")
         else
           unlinkIfExists env (filePath v) ;;
           match given (processedPath v) with
           | Some path => unlinkIfExists env path
           | None => ret tt
           end ;;
           findByIdAndDelete env id ;;
           ret (json 200 "Video deleted successfully")
     end)
    (fun _ => ret (json 500 "Failed to delete video")).

(** The routes as the router mounts them. *)
Definition GET_id (env : Env) (req : Request) : M World Response :=
  route None (getVideo env (params_id req)) req.

Definition PUT_id (env : Env) (req : Request) : M World Response :=
  route (Some ["editor"; "admin"]) (putVideo env (params_id req) (body req)) req.

Definition DELETE_id (env : Env) (req : Request) : M World Response :=
  route (Some ["editor"; "admin"]) (deleteVideo env (params_id req)) req.

(** *** The list route ([GET /]) *)

(** The parameters of the query string; [others] is the conjunction of
    the conditions on size, duration, date and text. *)
Record ListQuery : Type := {
  q_page : option string;
  q_limit : option string;
  q_status : option string;
  q_sensitivityStatus : option string;
  q_category : option string;
  others : Video -> bool
}.

(** The condition of [query.status]. *)
Definition statusCondition (u : User) (q : ListQuery) (v : Video) : bool :=
  match given (q_status q) with
  | Some s => status v =? s
  | None =>
      if role u =? "viewer"
      then listIncludes ["completed"; "flagged"; "safe"] (status v)
      else true
  end.

Definition equalsIfGiven (param : option string) (field : string) : bool :=
  match given param with
  | Some s => field =? s
  | None => true
  end.

(** The documents that match [query]. *)
Definition matching (u : User) (organization_ : string) (q : ListQuery)
    (l : list Video) : list Video :=
  filter (fun v => (organization v =? organization_)
                   && statusCondition u q v
                   && equalsIfGiven (q_sensitivityStatus q) (sensitivityStatus v)
                   && equalsIfGiven (q_category q) (category v)
                   && others q v) l.

(** [parseInt(page)] and [parseInt(limit)], with the defaults of the
    destructuring; [None] is [NaN]. *)
Definition pageOf (q : ListQuery) : option Z :=
  match q_page q with Some s => parseIntAuto s | None => Some 1%Z end.

Definition limitOf (q : ListQuery) : option Z :=
  match q_limit q with Some s => parseIntAuto s | None => Some 10%Z end.

(** [(parseInt(page) - 1) * parseInt(limit)] *)
Definition skipOf (page limit : option Z) : option Z :=
  match page, limit with
  | Some p, Some l => Some ((p - 1) * l)%Z
  | _, _ => None
  end.

(** [Math.ceil(total / parseInt(limit))]; [None] is [NaN] or an
    infinity. *)
Definition pagesOf (total : nat) (limit : option Z) : option Z :=
  match limit with
  | Some l => if (l =? 0)%Z then None
              else Some (Qceiling (inject_Z (Z.of_nat total) / inject_Z l))
  | None => None
  end.

End Videos.

(** ** Allowed origins ([server.js]) *)

Module Cors.
Import Builtins.

Definition defaultOrigins : list string :=
  ["http://localhost:5173"; "http://localhost:5174"; "http://localhost:3000"].

(** [allowedOrigins], from [process.env.CORS_ORIGIN]. *)
Definition allowedOrigins (CORS_ORIGIN : option string) : list string :=
  match given CORS_ORIGIN with
  | Some text => map trim (split "," text)
  | None => defaultOrigins
  end.

(** [corsOptions.origin]: [callback(null, true)], or [callback] with an
    [Error]. *)
Definition origin (allowed : list string) (requestOrigin : option string)
  : Outcome unit :=
  match given requestOrigin with
  | None => Returned tt
  | Some o =>
      if listIncludes allowed o then Returned tt
      else if startsWith o "http://localhost:" || startsWith o "http://127.0.0.1:"
      then Returned tt
      else Raised "Not allowed by CORS"
  end.

End Cors.

(** ** Changing the role of a user ([PUT /api/users/:id/role]) *)

Module Users.
Import Builtins.

(** A document of the [User] collection. *)
Record Account : Type := {
  _id : string;
  role : string;
  organization : string
}.

Record Response : Type := {
  code : Z;
  message : string
}.

(** What the outside world answers during the request. *)
Record Env : Type := {
  (** [User.findOne] throws this message *)
  find_error : option string;
  (** [user.save()] throws this message *)
  save_error : option string
}.

(** [authorize('admin')] *)
Definition authorize (roles : list string) (requester : option Account)
  : option Response :=
  match requester with
  | None => Some {| code := 401; message := "Authentication required" |}
  | Some u =>
      if negb (listIncludes roles (role u))
      then Some {| code := 403;
                   message := "Access denied. Required role: " ++ join " or " roles |}
      else None
  end.

(** The document found, with its role set. *)
Fixpoint saveRole (id organization_ newRole : string) (l : list Account) : list Account :=
  match l with
  | [] => []
  | a :: rest =>
      if (_id a =? id) && (organization a =? organization_)
      then {| _id := _id a; role := newRole; organization := organization a |} :: rest
      else a :: saveRole id organization_ newRole rest
  end.

(** The handler behind [authorize('admin')] and the validation of
    [body('role')]; [requester] is [req.user]. *)
Definition putRole (env : Env) (requester : option Account) (id newRole : string)
  : M (list Account) Response :=
  match authorize ["admin"] requester with
  | Some response => ret response
  | None =>
      match requester with
      | None => ret {| code := 401; message := "Authentication required" |}
      | Some u =>
          try_catch
            (if negb (listIncludes ["viewer"; "editor"; "admin"] newRole)
             then ret {| code := 400; message := "Validation failed" |}
             else
               fun store =>
                 match find_error env with
                 | Some msg => (store, Raised msg)
                 | None =>
                     match find (fun a => (_id a =? id)
                                          && (organization a =? organization u)) store with
                     | None => (store, Returned {| code := 404; message := "User not found" |})
                     | Some _ =>
                         match save_error env with
                         | Some msg => (store, Raised msg)
                         | None =>
                             (saveRole id (organization u) newRole store,
                              Returned {| code := 200;
                                          message := "User role updated successfully" |})
                         end
                     end
                 end)
            (fun _ => ret {| code := 500; message := "Failed to update user role" |})
      end
  end.

End Users.

(** * Specification vocabulary *)

Import Classifier Sensitivity Orchestrator Consumer.
Local Open Scope list_scope.

(** ** Triples for the state-and-exception monad

    [spec P m Q E]: from a state satisfying [P], [m] either returns [a] in
    a state satisfying [Q a], or raises [msg] in a state satisfying
    [E msg]. *)

Definition spec {S A} (P : S -> Prop) (m : M S A) (Q : A -> S -> Prop)
    (E : string -> S -> Prop) : Prop :=
  forall s, P s ->
    match m s with
    | (s', Returned a) => Q a s'
    | (s', Raised msg) => E msg s'
    end.

(** ** Progress sequences *)

(** A list of progress values that never decreases and stays within
    [lo, hi]. *)
Definition ramp (lo hi : Q) (l : list Q) : Prop :=
  StronglySorted Qle l /\ Forall (fun p => lo <= p /\ p <= hi) l.

(** The progress values the callback was invoked with, in order. *)
Definition callProgress (st : AState) : list Q := map call_progress (calls st).

(** A callback that is absent or never throws. *)
Definition quiet (cb : Callback) : Prop :=
  match cb with
  | None => True
  | Some raises => forall k, raises k = false
  end.

(** The progress value before frame [i] of [n] is analysed: the 30 of
    "Analyzing frames..." or the value of the frame before. *)
Definition progressBefore (i n : nat) : Q :=
  match i with
  | O => 30
  | S j => frameProgress j n
  end.

(** A property of the callback log, as a property of the analysis
    state. *)
Definition onCalls (R : list Q -> Prop) : AState -> Prop :=
  fun st => R (callProgress st).

(** ** Traces of the orchestrator *)

(** The progress value an action shows to an observer: an event shows it
    to its subscribers, an applied write to a status query.  A rejected
    write shows nothing. *)
Definition progress_of (a : Action) : list Q :=
  match a with
  | Emit e => [pe_progress e]
  | Complete e => match ce_progress e with Some p => [p] | None => [] end
  | Write u true => match u_processingProgress u with Some p => [p] | None => [] end
  | Write u false => []
  end.

Definition progress_values (tr : Trace) : list Q := flat_map progress_of tr.

(** A property of the progress values, as a property of the trace. *)
Definition onTrace (R : list Q -> Prop) : Trace -> Prop :=
  fun tr => R (progress_values tr).

(** [30 + progress * 0.2], the analysis window of the orchestrator. *)
Definition analysisWindow (progress : Q) : Q := 30 + progress * (2 # 10).

(** [50 + Math.min(percent, 100) * 0.4], its transcode window. *)
Definition transcodeWindow (percent : Q) : Q := 50 + Math_min percent 100 * (4 # 10).

(** The write and the terminal event of the [catch] block. *)
Definition failedUpdate : Update := progressUpdate (Some "failed") 0.

Definition failedEvent (message : string) : CompleteEvent :=
  {| ce_status := "failed"; ce_sensitivityStatus := None;
     ce_progress := None; ce_error := Some message |}.

Definition is_complete (a : Action) : bool :=
  match a with Complete _ => true | _ => false end.

(** How many terminal events a trace holds. *)
Definition completions (tr : Trace) : nat := List.length (filter is_complete tr).

(** ** Stage transitions *)

(** The event of a stage transition: the stage, its progress value, no
    frame details. *)
Definition stageEvent (stage : string) (progress : Q) : ProgressEvent :=
  {| pe_progress := progress; pe_status := stage; pe_currentFrame := None;
     pe_totalFrames := None; pe_frameResult := None |}.

(** The non-terminal transitions: the event emitted, and the status and
    progress value written to the job record with it. *)
Definition transitions : list (ProgressEvent * (option string * Q)) :=
  [ (stageEvent "processing" 10, (Some "processing", 10));
    (stageEvent "analyzing" 30, (Some "analyzing", 30));
    (stageEvent "compressing" 50, (None, 50));
    (stageEvent "finalizing" 95, (None, 95)) ].

(** [u] writes status [s] and progress [p]. *)
Definition persists (u : Update) (s : option string) (p : Q) : Prop :=
  u_status u = s /\ exists q, u_processingProgress u = Some q /\ q == p.

(** [u] writes the stage and progress of some transition. *)
Definition transition_write (u : Update) : Prop :=
  exists e s p, In (e, (s, p)) transitions /\ persists u s p.

(** Write happens-before notify: wherever the event of a transition sits
    in the trace, a write of that transition was issued before it. *)
Definition write_precedes_notify (tr : Trace) : Prop :=
  forall e s p pre post,
    In (e, (s, p)) transitions -> tr = pre ++ Emit e :: post ->
    exists u ok, In (Write u ok) pre /\ persists u s p.

(** Notify happens-before write: wherever a write of a transition sits
    in the trace, the event of that transition is the action just before
    it. *)
Definition notify_precedes_write (tr : Trace) : Prop :=
  forall e s p u ok pre post,
    In (e, (s, p)) transitions -> persists u s p ->
    tr = pre ++ Write u ok :: post ->
    exists pre', pre = pre' ++ [Emit e].

(** The actions of one transition: its event, then the write of its
    status (if it writes one) and progress; [ok] tells whether the write
    was applied. *)
Definition transitionActions (stage : string) (s : option string) (p : Q) (ok : bool)
  : Trace :=
  [Emit (stageEvent stage p); Write (progressUpdate s p) ok].

(** The database applies the k-th write issued (from 0). *)
Definition applied (w : World) (k : nat) : bool :=
  match db_rejects w k with
  | None => true
  | Some _ => false
  end.

(** Actions between two transitions: events, and writes that are not
    the write of a transition. *)
Definition interlude (tr : Trace) : Prop :=
  Forall (fun a => match a with
                   | Emit _ => True
                   | Write u _ => ~ transition_write u
                   | Complete _ => False
                   end) tr.

Definition events_only (tr : Trace) : Prop :=
  Forall (fun a => match a with Emit _ => True | _ => False end) tr.

(** The transitions a job goes through, as far as it gets.  Every job
    emits the "processing" event and issues its write.  When that write
    is applied, the job emits the "analyzing" event and issues its
    write.  When that is applied, the analysis runs (its own events and
    writes are [A]), then the job emits the "compressing" event and
    issues a write of the progress 50 without a status.  When that is
    applied and the transcode does not fail, after the events [T] of the
    transcode the job emits the "finalizing" event and issues a write of
    the progress 95 without a status. *)
Definition transitions_in_order (w : World) (tr : Trace) : Prop :=
  exists rest1,
    tr = transitionActions "processing" (Some "processing") 10 (applied w 0) ++ rest1 /\
    (applied w 0 = true ->
     exists rest2,
       rest1 = transitionActions "analyzing" (Some "analyzing") 30 (applied w 1) ++ rest2 /\
       (applied w 1 = true ->
        exists A rest3,
          interlude A /\
          rest2 = A ++ transitionActions "compressing" None 50
                         (applied w (2 + issued A)) ++ rest3 /\
          (applied w (2 + issued A) = true -> transcode_error w = None ->
           exists T rest4,
             events_only T /\
             rest3 = T ++ transitionActions "finalizing" None 95
                            (applied w (3 + issued A)) ++ rest4))).

(** ** What the frame loop leaves behind *)

(** The result of classifying one frame file. *)
Definition classify (env : Env) (f : Frame) : FrameAnalysis :=
  analyzeFrame (hasSightengine env) (hasGoogleVision env) (frame_env f).

(** The records frame [i] (from 0) leaves in [frameResults] when the
    callback is quiet: an error record on timeout; otherwise its result,
    followed by a second, error record when deleting the file fails. *)
Definition recordsOf (env : Env) (i : nat) (f : Frame) : list FrameResult :=
  if timed_out (frame_env f) then [errorFrameResult i "Frame analysis timeout"]
  else if cleanup_ok (frame_env f) then [okFrameResult i (classify env f)]
  else [okFrameResult i (classify env f); errorFrameResult i "unlink failed"].

Fixpoint frameRecords (env : Env) (i : nat) (frames : list Frame) : list FrameResult :=
  match frames with
  | [] => []
  | f :: rest => recordsOf env i f ++ frameRecords env (S i) rest
  end.

Definition explicitRecords (rs : list FrameResult) : nat :=
  List.length (filter fr_isExplicit rs).

Definition violentRecords (rs : list FrameResult) : nat :=
  List.length (filter fr_isViolent rs).

(** The file of the k-th requested timestamp exists. *)
Definition written (env : Env) (k : nat) : bool :=
  match frame_file env k with Some _ => true | None => false end.

(** The outcome of the extraction the analysis of [metadata] asks for. *)
Definition planned (env : Env) (metadata : Metadata) : Outcome (list Frame) :=
  raceExtractFrames env (duration metadata) (frameInterval (duration metadata))
    (clampFrames (duration metadata) (frameInterval (duration metadata)) 20).

(** The usable frames: none when the extraction failed. *)
Definition sampled (env : Env) (metadata : Metadata) : list Frame :=
  match planned env metadata with
  | Returned frames => frames
  | Raised _ => []
  end.

(** Same counters and records, whatever the callback log. *)
Definition tally (st : AState) : nat * nat * list FrameResult :=
  (explicitCount st, violentCount st, frameResults st).

(** The analysis state holding the given records and their counts. *)
Definition tallied (rs : list FrameResult) : AState :=
  {| calls := []; explicitCount := explicitRecords rs;
     violentCount := violentRecords rs; frameResults := rs |}.

(** The verdict of the analysis when the callback is quiet, read off the
    environment. *)
Definition quietVerdict (env : Env) (metadata : Metadata) : Verdict :=
  if negb (hasSightengine env || hasGoogleVision env) then noApiVerdict
  else if Qeq_bool (duration metadata) 0 || Qltb (duration metadata) 3 then tooShortVerdict
  else
    match sampled env metadata with
    | [] => extractionFailedVerdict
    | frames => aggregate metadata (List.length frames)
                  (tallied (frameRecords env 0 frames))
    end.

(** The records the analysis holds when it ends, under a quiet callback. *)
Definition quietRecords (env : Env) (metadata : Metadata) : list FrameResult :=
  if negb (hasSightengine env || hasGoogleVision env) then []
  else if Qeq_bool (duration metadata) 0 || Qltb (duration metadata) 3 then []
  else frameRecords env 0 (sampled env metadata).

(** ** The rules of the sensitivity aggregator, as the specification words
       them *)

(** Status and confidence from: whether a backend is available, the
    duration, the number of usable frames, and the numbers of frames found
    explicit and violent. *)
Definition aggregatorRules (backendAvailable : bool) (duration : Q)
    (frameCount explicitCount violentCount : nat) : string * Q :=
  if negb backendAvailable then ("flagged", 1 # 2)
  else if Qltb duration 3 then ("safe", 3 # 10)
  else if (frameCount =? 0)%nat then ("safe", 1 # 2)
  else
    let explicitRatio := num explicitCount / num frameCount in
    let violentRatio := num violentCount / num frameCount in
    if Qltb (15 # 100) (Math_max explicitRatio violentRatio)
    then ("flagged", Math_max explicitRatio violentRatio)
    else if (0 <? explicitCount)%nat || (0 <? violentCount)%nat then ("flagged", 7 # 10)
    else ("safe", 85 # 100).

(** [clamp(floor(D / interval), 1, 20)] with [interval = 2] below 10
    seconds and 5 from there on. *)
Definition frameCount (D : Q) : nat :=
  Z.to_nat (Z.max 1 (Z.min 20 (Qfloor (D / (if Qltb D 10 then 2 else 5))))).

(** The claim on the aggregator as the specification words it: the
    ratios are taken over [frameCount], the number of frames planned for
    the duration. *)
Definition rules_over_planned_count (env : Env) (metadata : Metadata) (cb : Callback)
  : Prop :=
  forall st v,
    analyzeVideoSensitivity env (Some metadata) cb = (st, Returned v) ->
    status v = fst (aggregatorRules (hasSightengine env || hasGoogleVision env)
                      (duration metadata) (frameCount (duration metadata))
                      (explicitRecords (frameResults st))
                      (violentRecords (frameResults st))) /\
    v_confidence v == snd (aggregatorRules (hasSightengine env || hasGoogleVision env)
                             (duration metadata) (frameCount (duration metadata))
                             (explicitRecords (frameResults st))
                             (violentRecords (frameResults st))).

(** ** The categorical backend, as the specification words it *)

Definition likelyOrAbove (level : string) : bool :=
  (level =? "LIKELY") || (level =? "VERY_LIKELY").

Definition possibleOrAbove (level : string) : bool :=
  likelyOrAbove level || (level =? "POSSIBLE").

(** Explicit iff adult or racy is likely or above, violent iff violence
    is, confidence 0.9 when flagged and 0.5 otherwise. *)
Definition categoricalRule (safeSearch : SafeSearch) (r : FrameAnalysis) : Prop :=
  isExplicit r = likelyOrAbove (adult safeSearch) || likelyOrAbove (racy safeSearch) /\
  isViolent r = likelyOrAbove (violence safeSearch) /\
  confidence r = (if isExplicit r || isViolent r then 9 # 10 else 1 # 2).

(** ** Claims on whole runs *)



(** The frame numbers are exactly 1 to [frameCount]. *)
Definition frame_numbers_complete (env : Env) (metadata : Metadata) (cb : Callback)
  : Prop :=
  map frameNumber (frameResults (fst (analyzeVideoSensitivity env (Some metadata) cb)))
  = seq 1 (frameCount (duration metadata)).



(** ** The frames held by the consumer *)

Definition byFrameNumber (a b : FrameResult) : Prop :=
  (frameNumber a <= frameNumber b)%nat.

(** The entries other than those numbered like [r]. *)
Definition others (r : FrameResult) (l : list FrameResult) : list FrameResult :=
  filter (fun f => negb (frameNumber f =? frameNumber r)%nat) l.

(** The entries numbered like [r]. *)
Definition sameNumber (r : FrameResult) (l : list FrameResult) : list FrameResult :=
  filter (fun f => (frameNumber f =? frameNumber r)%nat) l.

(** The list the page renders. *)
Definition shown (st : State) : list FrameResult := ad_frameResults (analysisDetails st).

(** The ref and the rendered list go together: the ref is empty or holds
    the rendered list, as it does when the page is mounted, after
    [handleSubmit] reset both, and after the handler ran. *)
Definition in_step (st : State) : Prop :=
  frameResultsRef st = [] \/ frameResultsRef st = shown st.

(** ** Concrete environments *)

Definition calm : SightengineData :=
  {| nudity_raw := 1 # 10; nudity_partial := 0; offensive_prob := 0; weapon := 0 |}.

(** A frame the probabilistic backend scores as harmless. *)
Definition frame_calm : FrameEnv :=
  {| sightengine := inr calm; vision := inl "not configured"; stat_ok := true;
     timed_out := false; cleanup_ok := true |}.


(** The probabilistic backend is configured, ffmpeg writes every frame. *)
Definition env_calm : Env :=
  {| hasSightengine := true; hasGoogleVision := false; extraction_timeout := false;
     ffmpeg_error := None; frame_file := fun _ => Some frame_calm |}.


(** ffmpeg writes the first three of the four requested frames. *)
Definition env_three_of_four : Env :=
  {| hasSightengine := true; hasGoogleVision := false; extraction_timeout := false;
     ffmpeg_error := None;
     frame_file := fun k => if (k <? 3)%nat then Some frame_calm else None |}.

(** A frame the probabilistic backend scores nudity 0.9 on. *)
Definition frame_nude : FrameEnv :=
  {| sightengine := inr {| nudity_raw := 9 # 10; nudity_partial := 0;
                           offensive_prob := 0; weapon := 0 |};
     vision := inl "not configured"; stat_ok := true;
     timed_out := false; cleanup_ok := true |}.

(** As [env_calm], but the second frame is [frame_nude]. *)
Definition env_one_nude : Env :=
  {| hasSightengine := true; hasGoogleVision := false; extraction_timeout := false;
     ffmpeg_error := None;
     frame_file := fun k => if (k =? 1)%nat then Some frame_nude else Some frame_calm |}.

(** For a 50 second video ten frames are planned; ffmpeg writes the first
    six, and the second is [frame_nude]. *)
Definition env_six_of_ten : Env :=
  {| hasSightengine := true; hasGoogleVision := false; extraction_timeout := false;
     ffmpeg_error := None;
     frame_file := fun k => if (k <? 6)%nat
                            then Some (if (k =? 1)%nat then frame_nude else frame_calm)
                            else None |}.

(** No backend is configured. *)
Definition env_no_backend : Env :=
  {| hasSightengine := false; hasGoogleVision := false; extraction_timeout := false;
     ffmpeg_error := None; frame_file := fun _ => Some frame_calm |}.

(** An 8 second video of 1 MB. *)
Definition video8 : Metadata := {| duration := 8; size := 1048576; hasAudio := true |}.

(** A 50 second video and a 2 second video. *)
Definition video50 : Metadata := {| duration := 50; size := 1048576; hasAudio := true |}.
Definition video2 : Metadata := {| duration := 2; size := 1048576; hasAudio := true |}.

(** Everything works. *)
Definition world_ok : World :=
  {| analysis := env_calm; db_rejects := fun _ => None;
     transcode_percent := [0; 50; 100]; transcode_error := None |}.

(** The transcode fails half way. *)
Definition world_transcode_fails : World :=
  {| analysis := env_calm; db_rejects := fun _ => None;
     transcode_percent := [0; 50]; transcode_error := Some "ffmpeg exited with code 1" |}.


(** Adult content "possible", nothing else. *)
Definition possibleAdult : SafeSearch :=
  {| adult := "POSSIBLE"; violence := "UNLIKELY"; racy := "UNLIKELY" |}.

(** Frame 2, harmless; and a later, different result for frame 2. *)
Definition held2 : FrameResult :=
  {| frameNumber := 2; fr_isExplicit := false; fr_isViolent := false;
     fr_confidence := 1 # 10; fr_details := NoDetails; fr_error := None |}.

Definition again2 : FrameResult :=
  {| frameNumber := 2; fr_isExplicit := true; fr_isViolent := false;
     fr_confidence := 9 # 10; fr_details := NoDetails; fr_error := None |}.

Definition holding2 : State :=
  {| frameResultsRef := [held2];
     analysisDetails := {| ad_currentFrame := Some 2%nat; ad_totalFrames := Some 4%nat;
                           statusMessage := "Analyzing frame 2/4...";
                           ad_frameResults := [held2] |} |}.

Definition event_again2 : ProgressData :=
  {| data_status := "Analyzing frame 2/4..."; data_currentFrame := Some 2%nat;
     data_totalFrames := Some 4%nat; data_frameResult := Some again2 |}.

(** ** Events as the consumer receives them *)

(** The ['video:progress'] payload of an event, as the handler reads it. *)
Definition toProgressData (e : ProgressEvent) : ProgressData :=
  {| data_status := pe_status e;
     data_currentFrame := pe_currentFrame e;
     data_totalFrames := pe_totalFrames e;
     data_frameResult := pe_frameResult e |}.

(** The consumer state after the progress events of a trace were
    delivered in order. *)
Definition deliver (tr : Trace) (st : State) : State :=
  fold_left (fun st a => match a with
                         | Emit e => onVideoProgress st (toProgressData e)
                         | _ => st
                         end) tr st.

(** The consumer state [handleSubmit] sets when an upload succeeded. *)
Definition fresh : State :=
  {| frameResultsRef := [];
     analysisDetails := {| ad_currentFrame := None; ad_totalFrames := None;
                           statusMessage := ""; ad_frameResults := [] |} |}.

(** The frame records carried by callback invocations, in order. *)
Definition payloads (cs : list Call) : list FrameResult :=
  flat_map (fun c => match frameResult (call_details c) with
                     | Some r => [r]
                     | None => []
                     end) cs.

(** The progress value of a write lies within the bounds of the schema
    field [processingProgress] ([min: 0], [max: 100]). *)
Definition within_schema (u : Update) : Prop :=
  forall p, u_processingProgress u = Some p -> 0 <= p /\ p <= 100.

(** ** The terminal write and event of a job that did not fail *)

(** [sensitivityAnalysis.status === 'flagged' ? 'flagged' : 'completed'] *)
Definition finalStatus (v : Verdict) : string :=
  if status v =? "flagged" then "flagged" else "completed".

Definition finalUpdate (v : Verdict) : Update :=
  {| u_status := Some (finalStatus v); u_processingProgress := Some 100;
     u_sensitivityAnalysis := Some v; u_processedPath := true |}.

Definition successEvent (v : Verdict) : CompleteEvent :=
  {| ce_status := finalStatus v; ce_sensitivityStatus := Some (status v);
     ce_progress := Some 100; ce_error := None |}.

(** The payload the orchestrator's callback emits for one invocation, as
    the consumer reads it. *)
Definition dataOfCall (c : Call) : ProgressData :=
  {| data_status := if call_status c =? "" then "analyzing" else call_status c;
     data_currentFrame := currentFrame (call_details c);
     data_totalFrames := totalFrames (call_details c);
     data_frameResult := frameResult (call_details c) |}.

(** The consumer state reached from [st] by the events of [tr]. *)
Definition delivered (st0 st : State) : Trace -> Prop :=
  fun tr => deliver tr st0 = st.

(** ** The events of a job *)

(** The event the orchestrator's callback emits for one invocation. *)
Definition eventOfCall (c : Call) : ProgressEvent :=
  {| pe_progress := analysisWindow (call_progress c);
     pe_status := if call_status c =? "" then "analyzing" else call_status c;
     pe_currentFrame := currentFrame (call_details c);
     pe_totalFrames := totalFrames (call_details c);
     pe_frameResult := frameResult (call_details c) |}.

(** The statuses of the callback invocations that report on frames. *)
Definition frame_status (s : string) : Prop :=
  s = "Extracting frames..." \/ s = "Analyzing frames..." \/
  exists i n, s = analyzingFrame i n.

(** An invocation that carries [totalFrames] has a frame status. *)
Definition frame_call (c : Call) : Prop :=
  totalFrames (call_details c) <> None -> frame_status (call_status c).

(** What a status query returns for a job record. *)
Definition jobView (j : Job) : option (string * Q) :=
  Some (job_status j, Orchestrator.processingProgress j).

(** A property of the callback invocations, as a property of the
    analysis state. *)
Definition onLog (R : list Call -> Prop) : AState -> Prop :=
  fun st => R (calls st).

(** The event of the "Extracting frames..." invocation for four frames. *)
Definition extracting4 : ProgressEvent :=
  eventOfCall {| call_progress := 10; call_status := "Extracting frames...";
                 call_details := {| currentFrame := None; totalFrames := Some 4%nat;
                                    frameResult := None; liveUpdate := false |} |}.

(** A page that is processing and polling. *)
Definition watching : ConsumerStatus.View :=
  {| ConsumerStatus.status := "processing"; ConsumerStatus.processingProgress := 0;
     ConsumerStatus.polling := true; ConsumerStatus.navigated := false |}.

(** ** Byte ranges *)

(** An integer a JavaScript number holds exactly
    ([Number.isSafeInteger]). *)
Definition safeInteger (z : Z) : Prop := (Z.abs z <= 9007199254740991)%Z.

(** [`bytes=${a}-${b}`] and [`bytes=${a}-`], the [Range] headers of a
    closed and of an open-ended request. *)
Definition closedRange (a b : nat) : string :=
  ("bytes=" ++ show a ++ "-" ++ show b)%string.
Definition openRange (a : nat) : string :=
  ("bytes=" ++ show a ++ "-")%string.

(** No character of [s] is [sep]. *)
Definition free_of (sep : ascii) (s : string) : Prop :=
  Forall (fun c => c <> sep) (list_ascii_of_string s).

(** Every character of [s] is a decimal digit. *)
Definition all_digits (s : string) : Prop :=
  Forall (fun c => Builtins.isDigit c = true) (list_ascii_of_string s).

(** ** Subscriptions *)

(** The video ids a sequence of operations asked the provider to
    subscribe to. *)
Definition requested (ops : list SocketClient.Op) : list string :=
  flat_map (fun op => match op with
                      | SocketClient.Subscribe videoId _ =>
                          if videoId =? "" then [] else [videoId]
                      | SocketClient.Connect => []
                      end) ops.

(** The ['subscribe:video'] messages a connect sends after [ops]. *)
Definition resent (ops : list SocketClient.Op) : list string :=
  snd (SocketClient.onConnect (SocketClient.pendingAfter ops)).

(** The socket gets the events of the video. *)
Definition receives (s : SocketServer.Socket) (videoId : string) : Prop :=
  In s (SocketServer.receivers videoId [s]).

(** ** Uploads *)

(** The handler starts with the file multer stored ([p]: it is still on
    disk) and has done nothing yet. *)
Definition stored (p : bool) : Upload.Disk :=
  {| Upload.present := p; Upload.effects := [] |}.

(** The responses among the effects. *)
Definition responses (es : list Upload.Effect) : list (Z * string) :=
  flat_map (fun e => match e with
                     | Upload.Respond code message => [(code, message)]
                     | _ => []
                     end) es.

(** The message that blames the installation of FFmpeg. *)
Definition notInstalled : string :=
  "Failed to process video file. FFmpeg is not installed or not found in PATH. Please install FFmpeg.".

(** [ffprobe] ran and failed with [err]. *)
Definition ffprobe_failed (env : Probe.ProbeEnv) (err : string) : Prop :=
  Probe.initializeFFmpeg env = inr true /\ Probe.videoExists env = true /\
  Probe.ffprobe env = inl err.

(** A probe whose [ffprobe] exits on a damaged file. *)
Definition probe_damaged : Probe.ProbeEnv :=
  {| Probe.initializeFFmpeg := inr true; Probe.videoExists := true;
     Probe.ffprobe := inl "ffprobe exited with code 1: Invalid data found when processing input";
     Probe.metadataResult := video8 |}.

(** A probe that succeeds. *)
Definition probe_ok : Probe.ProbeEnv :=
  {| Probe.initializeFFmpeg := inr true; Probe.videoExists := true;
     Probe.ffprobe := inr (Some ["video"; "audio"]);
     Probe.metadataResult := video8 |}.

Definition upload_ok : Upload.UploadEnv :=
  {| Upload.probe := probe_ok; Upload.unlink_ok := true; Upload.create_error := None |}.

Definition upload_locked : Upload.UploadEnv :=
  {| Upload.probe := probe_damaged; Upload.unlink_ok := false;
     Upload.create_error := None |}.

Definition clip : Upload.SelectedFile :=
  {| Upload.file_name := "holiday.final.mp4"; Upload.file_type := "video/mp4";
     Upload.file_size := 1048576 |}.

Definition emptyForm : Upload.Form :=
  {| Upload.file := None; Upload.title := ""; Upload.error := "" |}.

(** ** Video routes *)

(** No two documents of the collection share an [_id]. *)
Definition unique_ids (l : list Videos.Video) : Prop := NoDup (map Videos._id l).

(** The video is an upload of this editor, in the editor's own
    organization. *)
Definition ownUpload (u : Videos.User) (v : Videos.Video) : bool :=
  (Videos.role u =? "editor")
  && (Videos.organization v =? Videos.user_organization u)
  && (Videos.uploadedBy v =? Videos.user_id u).

(** The world after a route ran, and its response. *)
Definition after (run : Videos.World * Outcome Videos.Response) : Videos.World := fst run.
Definition answer (run : Videos.World * Outcome Videos.Response) : option Z :=
  match snd run with
  | Returned r => Some (Videos.code r)
  | Raised _ => None
  end.

(** [path] is not a file on disk. *)
Definition gone (path : string) (w : Videos.World) : Prop := ~ In path (Videos.files w).

(** [v'] is [v] with, at most, other non-empty texts and tags. *)
Definition same_but_texts (v v' : Videos.Video) : Prop :=
  Videos._id v' = Videos._id v /\
  Videos.organization v' = Videos.organization v /\
  Videos.uploadedBy v' = Videos.uploadedBy v /\
  Videos.filePath v' = Videos.filePath v /\
  Videos.processedPath v' = Videos.processedPath v /\
  Videos.status v' = Videos.status v /\
  Videos.sensitivityStatus v' = Videos.sensitivityStatus v /\
  (Videos.title v <> "" -> Videos.title v' <> "") /\
  (Videos.category v <> "" -> Videos.category v' <> "") /\
  (Videos.tags v <> [] -> Videos.tags v' <> []).

(** An environment in which nothing fails. *)
Definition env_fine : Videos.Env :=
  {| Videos.find_error := None; Videos.write_error := None;
     Videos.unlink_fails := fun _ => false |}.

Definition noBody : Videos.Body :=
  {| Videos.body_title := None; Videos.body_description := None;
     Videos.body_category := None; Videos.body_tags := None |}.

Definition video_a : Videos.Video :=
  {| Videos._id := "a1"; Videos.organization := "acme"; Videos.uploadedBy := "u1";
     Videos.title := "Launch"; Videos.description := ""; Videos.category := "news";
     Videos.tags := ["launch"]; Videos.filePath := "uploads/videos/a1.mp4";
     Videos.processedPath := Some "uploads/processed/a1.mp4";
     Videos.status := "processing"; Videos.sensitivityStatus := "pending" |}.

Definition video_b : Videos.Video :=
  {| Videos._id := "b1"; Videos.organization := "globex"; Videos.uploadedBy := "u2";
     Videos.title := "Review"; Videos.description := ""; Videos.category := "internal";
     Videos.tags := []; Videos.filePath := "uploads/videos/b1.mp4";
     Videos.processedPath := None;
     Videos.status := "completed"; Videos.sensitivityStatus := "safe" |}.

Definition world_ab : Videos.World :=
  {| Videos.store := [video_a; video_b];
     Videos.files := ["uploads/videos/a1.mp4"; "uploads/processed/a1.mp4";
                      "uploads/videos/b1.mp4"] |}.

Definition editor_u1 : Videos.User :=
  {| Videos.user_id := "u1"; Videos.role := "editor";
     Videos.user_organization := "acme" |}.

Definition viewer_u3 : Videos.User :=
  {| Videos.user_id := "u3"; Videos.role := "viewer";
     Videos.user_organization := "acme" |}.

Definition admin_u9 : Videos.User :=
  {| Videos.user_id := "u9"; Videos.role := "admin";
     Videos.user_organization := "acme" |}.

(** Requests on a video id, by the editor and by the admin; the admin
    names another organization. *)
Definition request_by (u : Videos.User) (org : option string) (id : string)
  : Videos.Request :=
  {| Videos.user := Some u; Videos.query_organization := org;
     Videos.params_id := id; Videos.body := noBody |}.

(** The editor renames the own upload and gives it two tags. *)
Definition request_rename : Videos.Request :=
  {| Videos.user := Some editor_u1; Videos.query_organization := None;
     Videos.params_id := "a1";
     Videos.body := {| Videos.body_title := Some "  Launch, final cut ";
                       Videos.body_description := None;
                       Videos.body_category := None;
                       Videos.body_tags := Some "launch, final" |} |}.

Definition video_a_renamed : Videos.Video :=
  {| Videos._id := "a1"; Videos.organization := "acme"; Videos.uploadedBy := "u1";
     Videos.title := "Launch, final cut"; Videos.description := "";
     Videos.category := "news";
     Videos.tags := ["launch"; "final"]; Videos.filePath := "uploads/videos/a1.mp4";
     Videos.processedPath := Some "uploads/processed/a1.mp4";
     Videos.status := "processing"; Videos.sensitivityStatus := "pending" |}.

Definition query_processing : Videos.ListQuery :=
  {| Videos.q_page := None; Videos.q_limit := None;
     Videos.q_status := Some "processing";
     Videos.q_sensitivityStatus := None; Videos.q_category := None;
     Videos.others := fun _ => true |}.

(** ** Origins *)

(** An origin as it can be listed in [CORS_ORIGIN]: without a comma and
    without white space around it. *)
Definition listable (o : string) : Prop :=
  Builtins.trim o = o /\ free_of "," o.

Definition two_origins : list string :=
  ["https://app.example.com"; "https://admin.example.com"].

(** ** Roles *)

(** [a'] is [a] with the role [newRole], set by the administrator [u] of
    the organization of [a]. *)
Definition role_set_by (u : option Users.Account) (id newRole : string)
    (a a' : Users.Account) : Prop :=
  Users._id a = id /\ Users._id a' = id /\
  Users.organization a' = Users.organization a /\
  Users.role a' = newRole /\
  In newRole ["viewer"; "editor"; "admin"] /\
  exists admin, u = Some admin /\ Users.role admin = "admin" /\
                Users.organization admin = Users.organization a.

Definition account_admin : Users.Account :=
  {| Users._id := "u9"; Users.role := "admin"; Users.organization := "acme" |}.

Definition account_viewer : Users.Account :=
  {| Users._id := "u3"; Users.role := "viewer"; Users.organization := "acme" |}.

Definition account_editor : Users.Account :=
  {| Users._id := "u3"; Users.role := "editor"; Users.organization := "acme" |}.

Definition env_users_fine : Users.Env :=
  {| Users.find_error := None; Users.save_error := None |}.

(** ** A job with an error frame *)




(** * Proofs *)

(** ** Rules for triples *)

Section Rules.
Context {S : Type}.

Lemma spec_ret {A} (P : S -> Prop) (a : A) Q E :
  (forall s, P s -> Q a s) -> spec P (ret a) Q E.
Proof. intros H s Hs. simpl. auto. Qed.

Lemma spec_raise {A} (P : S -> Prop) msg (Q : A -> S -> Prop) E :
  (forall s, P s -> E msg s) -> spec P (raise msg) Q E.
Proof. intros H s Hs. simpl. auto. Qed.

Lemma spec_modify (P : S -> Prop) (f : S -> S) Q E :
  (forall s, P s -> Q tt (f s)) -> spec P (modify f) Q E.
Proof. intros H s Hs. simpl. auto. Qed.

Lemma spec_bind {A B} (P : S -> Prop) (m : M S A) (f : A -> M S B) Q R E :
  spec P m Q E -> (forall a, spec (Q a) (f a) R E) -> spec P (bind m f) R E.
Proof.
  intros Hm Hf s Hs. unfold bind. specialize (Hm s Hs).
  destruct (m s) as [s' [a | msg]]; [apply Hf; exact Hm | exact Hm].
Qed.

Lemma spec_try_catch {A} (P : S -> Prop) (m : M S A) h Q E' E :
  spec P m Q E' -> (forall msg, spec (E' msg) (h msg) Q E) ->
  spec P (try_catch m h) Q E.
Proof.
  intros Hm Hh s Hs. unfold try_catch. specialize (Hm s Hs).
  destruct (m s) as [s' [a | msg]]; [exact Hm | apply Hh; exact Hm].
Qed.

Lemma spec_when (P : S -> Prop) c (m : M S unit) Q E :
  spec P m Q E -> (forall s, P s -> Q tt s) -> spec P (when c m) Q E.
Proof.
  intros Hm Hskip. destruct c; simpl; [exact Hm | apply spec_ret; exact Hskip].
Qed.

Lemma spec_conseq {A} (P P' : S -> Prop) (m : M S A) (Q Q' : A -> S -> Prop)
    (E E' : string -> S -> Prop) :
  spec P m Q E ->
  (forall s, P' s -> P s) ->
  (forall a s, Q a s -> Q' a s) ->
  (forall msg s, E msg s -> E' msg s) ->
  spec P' m Q' E'.
Proof.
  intros Hm HP HQ HE s Hs. specialize (Hm s (HP s Hs)).
  destruct (m s) as [s' [a | msg]]; auto.
Qed.

End Rules.

(** ** Ramps *)

Lemma ramp_nil lo hi : ramp lo hi [].
Proof. split; constructor. Qed.

Lemma ramp_weaken lo hi hi' l : hi <= hi' -> ramp lo hi l -> ramp lo hi' l.
Proof.
  intros Hle [Hs Hb]. split; [exact Hs |].
  eapply Forall_impl; [| exact Hb]. simpl. intros p [H1 H2]. split; [exact H1 | lra].
Qed.

Lemma StronglySorted_snoc (l : list Q) (p : Q) :
  StronglySorted Qle l -> Forall (fun x => x <= p) l -> StronglySorted Qle (l ++ [p]).
Proof.
  induction l as [| x l IH]; simpl; intros Hs Hb.
  - repeat constructor.
  - inversion Hs; subst. inversion Hb; subst. constructor.
    + apply IH; assumption.
    + apply Forall_app. split; [assumption | constructor; [assumption | constructor]].
Qed.

Lemma ramp_snoc lo b p l :
  b <= p -> lo <= p -> ramp lo b l -> ramp lo p (l ++ [p]).
Proof.
  intros Hbp Hlo [Hs Hb]. split.
  - apply StronglySorted_snoc; [exact Hs |].
    eapply Forall_impl; [| exact Hb]. simpl. intros x [_ Hx]. lra.
  - apply Forall_app. split.
    + eapply Forall_impl; [| exact Hb]. simpl. intros x [H1 H2]. split; lra.
    + constructor; [split; lra | constructor].
Qed.

(** ** The progress values reported by the analysis *)

Lemma num_le a b : (a <= b)%nat -> num a <= num b.
Proof. intros H. unfold num. rewrite <- Zle_Qle. lia. Qed.

Lemma num_pos n : (0 < n)%nat -> 0 < num n.
Proof. intros H. unfold num. replace 0 with (inject_Z 0) by reflexivity.
  rewrite <- Zlt_Qlt. lia. Qed.

Lemma ratio_le a b n : (0 < n)%nat -> (a <= b)%nat -> num a / num n <= num b / num n.
Proof.
  intros Hn Hab. apply Qle_shift_div_l; [apply num_pos; exact Hn |].
  unfold Qdiv. rewrite <- Qmult_assoc, (Qmult_comm (/ num n)), Qmult_inv_r, Qmult_1_r.
  - apply num_le; exact Hab.
  - intros H0. pose proof (num_pos n Hn) as Hp. rewrite H0 in Hp. apply (Qlt_irrefl 0 Hp).
Qed.

Lemma ratio_nonneg a n : (0 < n)%nat -> 0 <= num a / num n.
Proof.
  intros Hn. apply Qle_shift_div_l; [apply num_pos; exact Hn |].
  rewrite Qmult_0_l. replace 0 with (num 0) by reflexivity. apply num_le. lia.
Qed.

Lemma ratio_le_1 a n : (0 < n)%nat -> (a <= n)%nat -> num a / num n <= 1.
Proof.
  intros Hn Han. apply Qle_shift_div_r; [apply num_pos; exact Hn |].
  rewrite Qmult_1_l. apply num_le; exact Han.
Qed.

Lemma frameProgress_lower i n : (0 < n)%nat -> 30 <= frameProgress i n.
Proof.
  intros Hn. unfold frameProgress.
  pose proof (ratio_nonneg (i + 1) n Hn). lra.
Qed.

Lemma frameProgress_upper i n : (0 < n)%nat -> (i + 1 <= n)%nat -> frameProgress i n <= 50.
Proof.
  intros Hn Hi. unfold frameProgress.
  pose proof (ratio_le_1 (i + 1) n Hn Hi). lra.
Qed.

Lemma progressBefore_le i n : (0 < n)%nat -> progressBefore i n <= frameProgress i n.
Proof.
  intros Hn. destruct i as [| j]; simpl.
  - apply frameProgress_lower; exact Hn.
  - unfold frameProgress.
    assert (H : num (j + 1) / num n <= num (S j + 1) / num n)
      by (apply ratio_le; [exact Hn | lia]).
    lra.
Qed.

Lemma progressBefore_upper i n : (0 < n)%nat -> (i <= n)%nat -> progressBefore i n <= 50.
Proof.
  intros Hn Hi. destruct i as [| j]; simpl.
  - lra.
  - apply frameProgress_upper; [exact Hn | lia].
Qed.

Lemma push_frameResult_calls R r E :
  spec (onCalls R) (push_frameResult r) (fun _ => onCalls R) E.
Proof. apply spec_modify. intros s H. exact H. Qed.

Lemma incr_explicitCount_calls R E :
  spec (onCalls R) incr_explicitCount (fun _ => onCalls R) E.
Proof. apply spec_modify. intros s H. exact H. Qed.

Lemma incr_violentCount_calls R E :
  spec (onCalls R) incr_violentCount (fun _ => onCalls R) E.
Proof. apply spec_modify. intros s H. exact H. Qed.

Lemma raceAnalyzeFrame_calls R env fe :
  spec (onCalls R) (raceAnalyzeFrame env fe) (fun _ => onCalls R) (fun _ => onCalls R).
Proof.
  unfold raceAnalyzeFrame. destruct (timed_out fe).
  - apply spec_raise. auto.
  - apply spec_ret. auto.
Qed.

Lemma cleanup_calls R fe :
  spec (onCalls R) (cleanup fe) (fun _ => onCalls R) (fun _ => onCalls R).
Proof.
  unfold cleanup. destruct (cleanup_ok fe).
  - apply spec_ret. auto.
  - apply spec_raise. auto.
Qed.

Lemma progressCallback_ramp cb lo b p s d :
  b <= p -> lo <= p ->
  spec (onCalls (ramp lo b)) (progressCallback cb p s d)
       (fun _ => onCalls (ramp lo p)) (fun _ => onCalls (ramp lo p)).
Proof.
  intros Hbp Hlo st Hst. unfold onCalls, callProgress in *.
  destruct cb as [raises |]; simpl.
  - assert (Hr : ramp lo p (map call_progress (calls st ++
        [{| call_progress := p; call_status := s; call_details := d |}]))).
    { rewrite map_app. simpl. apply (ramp_snoc lo b p); assumption. }
    destruct (raises (List.length (calls st))); exact Hr.
  - apply (ramp_weaken lo b p); assumption.
Qed.

Lemma analyzeOneFrame_ramp env cb i n f b :
  b <= frameProgress i n -> 10 <= frameProgress i n ->
  spec (onCalls (ramp 10 b)) (analyzeOneFrame env cb i n f)
       (fun _ => onCalls (ramp 10 (frameProgress i n)))
       (fun _ => onCalls (ramp 10 (frameProgress i n))).
Proof.
  intros Hb Hlo. unfold analyzeOneFrame.
  assert (Hsame : frameProgress i n <= frameProgress i n) by lra.
  eapply spec_try_catch with (E' := fun _ : string => onCalls (ramp 10 (frameProgress i n))).
  - eapply spec_bind; [apply progressCallback_ramp; assumption |]. intros ?.
    eapply spec_bind; [apply raceAnalyzeFrame_calls |]. intros frameAnalysis.
    eapply spec_bind; [apply push_frameResult_calls |]. intros ?.
    eapply spec_bind.
    { apply spec_when; [apply incr_explicitCount_calls | auto]. }
    intros ?.
    eapply spec_bind.
    { apply spec_when; [apply incr_violentCount_calls | auto]. }
    intros ?.
    eapply spec_bind; [apply progressCallback_ramp; assumption |]. intros ?.
    apply cleanup_calls.
  - intros msg.
    eapply spec_bind; [apply push_frameResult_calls |]. intros ?.
    apply progressCallback_ramp; assumption.
Qed.

Lemma analyzeFrames_ramp env cb n frames : forall i,
  (0 < n)%nat -> (i + List.length frames = n)%nat ->
  spec (onCalls (ramp 10 (progressBefore i n))) (analyzeFrames env cb i n frames)
       (fun _ => onCalls (ramp 10 50)) (fun _ => onCalls (ramp 10 50)).
Proof.
  induction frames as [| f rest IH]; intros i Hn Hlen; simpl in *.
  - apply spec_ret. intros s Hs. eapply ramp_weaken; [| exact Hs].
    apply progressBefore_upper; [exact Hn | lia].
  - eapply spec_bind.
    + eapply spec_conseq.
      * apply (analyzeOneFrame_ramp env cb i n f (progressBefore i n)).
        -- apply progressBefore_le; exact Hn.
        -- pose proof (frameProgress_lower i n Hn). lra.
      * auto.
      * intros ? s Hs. exact Hs.
      * intros msg s Hs. eapply ramp_weaken; [| exact Hs].
        apply frameProgress_upper; [exact Hn | lia].
    + intros ?. apply (IH (S i)); [exact Hn | lia].
Qed.

Lemma analysisBody_ramp env metadata cb :
  spec (onCalls (ramp 10 10)) (analysisBody env metadata cb)
       (fun _ => onCalls (ramp 10 100)) (fun _ => onCalls (ramp 10 100)).
Proof.
  unfold analysisBody.
  assert (Hw : forall b s, b <= 100 -> onCalls (ramp 10 b) s -> onCalls (ramp 10 100) s).
  { intros b s Hb Hs. eapply ramp_weaken; eauto. }
  destruct (negb (hasSightengine env || hasGoogleVision env)).
  { eapply spec_bind; [apply progressCallback_ramp; lra |]. intros ?.
    apply spec_ret. auto. }
  eapply spec_bind with (Q := fun _ => onCalls (ramp 10 10)).
  { unfold deref. destruct metadata.
    - apply spec_ret. auto.
    - apply spec_raise. intros s Hs. apply (Hw 10); [lra | exact Hs]. }
  intros m.
  destruct (Qeq_bool (duration m) 0 || Qltb (duration m) 3).
  { eapply spec_bind; [apply progressCallback_ramp; lra |]. intros ?.
    apply spec_ret. auto. }
  eapply spec_bind.
  { eapply spec_conseq; [apply (progressCallback_ramp cb 10 10 10); lra | auto | |].
    - intros ? s Hs. exact Hs.
    - intros msg s Hs. apply (Hw 10); [lra | exact Hs]. }
  intros ?.
  destruct (raceExtractFrames env (duration m) (frameInterval (duration m))
              (clampFrames (duration m) (frameInterval (duration m)) 20))
    as [frames | msg].
  2: { apply spec_ret. intros s Hs. apply (Hw 10); [lra | exact Hs]. }
  destruct (List.length frames =? 0)%nat eqn:Hlen.
  { apply spec_ret. intros s Hs. apply (Hw 10); [lra | exact Hs]. }
  apply Nat.eqb_neq in Hlen.
  eapply spec_bind.
  { eapply spec_conseq; [apply (progressCallback_ramp cb 10 10 30); lra | auto | |].
    - intros ? s Hs. exact Hs.
    - intros msg s Hs. apply (Hw 30); [lra | exact Hs]. }
  intros ?.
  eapply spec_bind.
  { eapply spec_conseq;
      [apply (analyzeFrames_ramp env cb (List.length frames) frames 0); lia | auto | |].
    - intros ? s Hs. exact Hs.
    - intros msg s Hs. apply (Hw 50); [lra | exact Hs]. }
  intros ?. unfold get_state.
  intros s Hs. simpl. apply (Hw 50); [lra | exact Hs].
Qed.

(** Whatever the callback does, the values it is invoked with never
    decrease and lie between 10 and 100. *)
Lemma analysis_progress_ramp env metadata cb :
  ramp 10 100 (callProgress (fst (analyzeVideoSensitivity env metadata cb))).
Proof.
  unfold analyzeVideoSensitivity.
  assert (H : spec (onCalls (ramp 10 10))
                (try_catch (analysisBody env metadata cb) (fun _ => ret analysisErrorVerdict))
                (fun _ => onCalls (ramp 10 100)) (fun _ => onCalls (ramp 10 100))).
  { eapply spec_try_catch; [apply analysisBody_ramp |].
    intros msg. apply spec_ret. auto. }
  specialize (H initial (ramp_nil 10 10)).
  destruct (try_catch _ _ initial) as [s [v | msg]]; exact H.
Qed.

(** ** The progress values of a job *)

Lemma progress_values_app tr1 tr2 :
  progress_values (tr1 ++ tr2) = (progress_values tr1 ++ progress_values tr2)%list.
Proof. unfold progress_values. apply flat_map_app. Qed.

Lemma emitVideoProgress_ramp b p s d E :
  b <= p -> 10 <= p ->
  spec (onTrace (ramp 10 b)) (emitVideoProgress p s d) (fun _ => onTrace (ramp 10 p)) E.
Proof.
  intros Hb Hlo. apply spec_modify. intros tr Htr. unfold onTrace in *.
  rewrite progress_values_app. simpl. apply (ramp_snoc 10 b p); assumption.
Qed.

Lemma findByIdAndUpdate_ramp w u b p :
  b <= p -> 10 <= p -> u_processingProgress u = Some p ->
  spec (onTrace (ramp 10 b)) (findByIdAndUpdate w u)
       (fun _ => onTrace (ramp 10 p)) (fun _ => onTrace (ramp 10 p)).
Proof.
  intros Hb Hlo Hu tr Htr. unfold findByIdAndUpdate, onTrace in *.
  destruct (db_rejects w (issued tr)); rewrite progress_values_app; simpl.
  - rewrite app_nil_r. apply (ramp_weaken 10 b p); assumption.
  - rewrite Hu. simpl. apply (ramp_snoc 10 b p); assumption.
Qed.

Lemma findByIdAndUpdate_catch_ramp w u b p E :
  b <= p -> 10 <= p -> u_processingProgress u = Some p ->
  spec (onTrace (ramp 10 b)) (findByIdAndUpdate_catch w u)
       (fun _ => onTrace (ramp 10 p)) E.
Proof.
  intros Hb Hlo Hu. unfold findByIdAndUpdate_catch.
  eapply spec_try_catch; [apply (findByIdAndUpdate_ramp w u b p); assumption |].
  intros msg. apply spec_ret. auto.
Qed.

Lemma onAnalysisProgress_ramp w c b E :
  b <= analysisWindow (call_progress c) -> 10 <= call_progress c <= 100 ->
  spec (onTrace (ramp 10 b)) (onAnalysisProgress w c)
       (fun _ => onTrace (ramp 10 (analysisWindow (call_progress c)))) E.
Proof.
  intros Hb Hc. unfold onAnalysisProgress. fold (analysisWindow (call_progress c)).
  assert (H10 : 10 <= analysisWindow (call_progress c)) by (unfold analysisWindow; lra).
  eapply spec_bind; [apply emitVideoProgress_ramp; assumption |]. intros ?.
  apply findByIdAndUpdate_catch_ramp; [lra | assumption | reflexivity].
Qed.

Lemma replay_ramp w E : forall cs b,
  ramp 10 100 (map call_progress cs) ->
  Forall (fun c => b <= analysisWindow (call_progress c)) cs ->
  b <= 50 ->
  spec (onTrace (ramp 10 b)) (replay w cs) (fun _ => onTrace (ramp 10 50)) E.
Proof.
  induction cs as [| c rest IH]; intros b [Hs Hr] Hb Hb50; simpl in *.
  - apply spec_ret. intros tr Htr. apply (ramp_weaken 10 b 50); assumption.
  - inversion Hs as [| ? ? Hs' Hle]; subst. inversion Hr as [| ? ? Hc Hr']; subst.
    inversion Hb as [| ? ? Hbc Hb']; subst.
    eapply spec_bind; [apply onAnalysisProgress_ramp; assumption |]. intros ?.
    apply IH.
    + split; assumption.
    + rewrite Forall_map in Hle. eapply Forall_impl; [| exact Hle].
      simpl. intros c' Hc'. unfold analysisWindow. lra.
    + unfold analysisWindow. lra.
Qed.

Lemma runAnalysis_ramp w metadata :
  spec (onTrace (ramp 10 30)) (runAnalysis w metadata)
       (fun _ => onTrace (ramp 10 50)) (fun _ => onTrace (ramp 10 50)).
Proof.
  unfold runAnalysis.
  pose proof (analysis_progress_ramp (analysis w) (Some metadata) (Some (fun _ => false)))
    as Hramp.
  destruct (analyzeVideoSensitivity _ _ _) as [st out]. simpl in Hramp.
  unfold callProgress in Hramp.
  assert (Hreplay : forall E, spec (onTrace (ramp 10 30)) (replay w (calls st))
                                (fun _ => onTrace (ramp 10 50)) E).
  { intros E. apply replay_ramp; [exact Hramp | | lra].
    destruct Hramp as [_ Hr]. rewrite Forall_map in Hr.
    eapply Forall_impl; [| exact Hr]. simpl. intros c Hc. unfold analysisWindow. lra. }
  destruct out as [v | msg].
  - eapply spec_bind; [apply Hreplay |]. intros ?. apply spec_ret. auto.
  - eapply spec_bind; [apply Hreplay |]. intros ?. apply spec_raise. auto.
Qed.

Lemma Math_min_le_l a b : Math_min a b <= a.
Proof.
  unfold Math_min. destruct (Qle_bool a b) eqn:H; [lra |].
  destruct (Qlt_le_dec b a) as [Hlt | Hle]; [lra |].
  apply Qle_bool_iff in Hle. congruence.
Qed.

Lemma Math_min_le_r a b : Math_min a b <= b.
Proof.
  unfold Math_min. destruct (Qle_bool a b) eqn:H; [apply Qle_bool_iff in H; exact H | lra].
Qed.

Lemma Math_min_glb a b c : c <= a -> c <= b -> c <= Math_min a b.
Proof. intros Ha Hb. unfold Math_min. destruct (Qle_bool a b); assumption. Qed.

Lemma transcodeWindow_bounds p : 0 <= p -> 50 <= transcodeWindow p <= 90.
Proof.
  intros Hp. unfold transcodeWindow.
  pose proof (Math_min_le_r p 100).
  assert (0 <= Math_min p 100) by (apply Math_min_glb; lra).
  lra.
Qed.

Lemma transcodeWindow_mono p q : p <= q -> transcodeWindow p <= transcodeWindow q.
Proof.
  intros Hpq. unfold transcodeWindow.
  assert (Math_min p 100 <= Math_min q 100).
  { apply Math_min_glb.
    - pose proof (Math_min_le_l p 100). lra.
    - apply Math_min_le_r. }
  lra.
Qed.

Lemma transcodeEvents_ramp E : forall ps b,
  StronglySorted Qle ps -> Forall (fun p => 0 <= p) ps ->
  Forall (fun p => b <= transcodeWindow p) ps -> b <= 90 ->
  spec (onTrace (ramp 10 b)) (transcodeEvents ps) (fun _ => onTrace (ramp 10 90)) E.
Proof.
  induction ps as [| p rest IH]; intros b Hs Hpos Hb Hb90; simpl.
  - apply spec_ret. intros tr Htr. apply (ramp_weaken 10 b 90); assumption.
  - inversion Hs as [| ? ? Hs' Hle]; subst. inversion Hpos as [| ? ? Hp Hpos']; subst.
    inversion Hb as [| ? ? Hbp Hb']; subst.
    pose proof (transcodeWindow_bounds p Hp) as Hw.
    eapply spec_bind.
    + unfold onTranscodeProgress. fold (transcodeWindow p).
      apply emitVideoProgress_ramp; [assumption | lra].
    + intros ?. apply IH; try assumption; [| lra].
      eapply Forall_impl; [| exact Hle]. simpl. intros q Hq.
      apply transcodeWindow_mono; exact Hq.
Qed.

Lemma processVideoForStreaming_ramp w :
  StronglySorted Qle (transcode_percent w) ->
  Forall (fun p => 0 <= p) (transcode_percent w) ->
  spec (onTrace (ramp 10 50)) (processVideoForStreaming w)
       (fun _ => onTrace (ramp 10 90)) (fun _ => onTrace (ramp 10 90)).
Proof.
  intros Hs Hpos. unfold processVideoForStreaming.
  eapply spec_bind.
  - apply transcodeEvents_ramp; [assumption | assumption | | lra].
    eapply Forall_impl; [| exact Hpos]. simpl. intros p Hp.
    pose proof (transcodeWindow_bounds p Hp). lra.
  - intros ?. destruct (transcode_error w); [apply spec_raise | apply spec_ret]; auto.
Qed.

Lemma processBody_ramp w metadata :
  StronglySorted Qle (transcode_percent w) ->
  Forall (fun p => 0 <= p) (transcode_percent w) ->
  spec (onTrace (ramp 10 10)) (processBody w metadata)
       (fun _ => onTrace (ramp 10 100)) (fun _ => onTrace (ramp 10 100)).
Proof.
  intros Hs Hpos. unfold processBody.
  assert (Hw : forall b (tr : Trace), b <= 100 ->
                 onTrace (ramp 10 b) tr -> onTrace (ramp 10 100) tr).
  { intros b tr Hb Htr. apply (ramp_weaken 10 b 100); assumption. }
  assert (Hwrite : forall u b p, b <= p -> 10 <= p -> p <= 100 ->
             u_processingProgress u = Some p ->
             spec (onTrace (ramp 10 b)) (findByIdAndUpdate w u)
                  (fun _ => onTrace (ramp 10 p)) (fun _ => onTrace (ramp 10 100))).
  { intros u b p Hb Hlo Hhi Hu.
    eapply spec_conseq; [apply (findByIdAndUpdate_ramp w u b p); assumption | auto | auto |].
    intros msg tr Htr. apply (Hw p); assumption. }
  eapply spec_bind; [apply (emitVideoProgress_ramp 10 10); lra |]. intros ?.
  eapply spec_bind; [apply (Hwrite _ 10 10); [lra | lra | lra | reflexivity] |]. intros ?.
  eapply spec_bind; [apply (emitVideoProgress_ramp 10 30); lra |]. intros ?.
  eapply spec_bind; [apply (Hwrite _ 30 30); [lra | lra | lra | reflexivity] |]. intros ?.
  eapply spec_bind.
  { eapply spec_conseq; [apply runAnalysis_ramp | auto | |].
    - intros ? tr Htr. exact Htr.
    - intros msg tr Htr. apply (Hw 50); [lra | exact Htr]. }
  intros sensitivityAnalysis.
  eapply spec_bind; [apply (emitVideoProgress_ramp 50 50); lra |]. intros ?.
  eapply spec_bind; [apply (Hwrite _ 50 50); [lra | lra | lra | reflexivity] |]. intros ?.
  eapply spec_bind.
  { eapply spec_conseq; [apply processVideoForStreaming_ramp; assumption | auto | |].
    - intros ? tr Htr. exact Htr.
    - intros msg tr Htr. apply (Hw 90); [lra | exact Htr]. }
  intros ?.
  eapply spec_bind; [apply (emitVideoProgress_ramp 90 95); lra |]. intros ?.
  eapply spec_bind; [apply (Hwrite _ 95 95); [lra | lra | lra | reflexivity] |]. intros ?.
  eapply spec_bind; [apply (Hwrite _ 95 100); [lra | lra | lra | reflexivity] |]. intros ?.
  apply spec_modify. intros tr Htr. unfold onTrace in *.
  rewrite progress_values_app. simpl. apply (ramp_snoc 10 100 100); [lra | lra | exact Htr].
Qed.

(** ** Trace properties kept by the steps of the orchestrator *)

Section Kept.
(** [P] survives an appended event, and an appended write of a document
    satisfying [W]. *)
Variable P : Trace -> Prop.
Variable W : Update -> Prop.
Hypothesis P_emit : forall tr e, P tr -> P (tr ++ [Emit e]).
Hypothesis P_write : forall tr u ok, P tr -> W u -> P (tr ++ [Write u ok]).
Hypothesis W_analysis : forall c, 10 <= c <= 100 ->
  W (progressUpdate (Some "analyzing") (analysisWindow c)).

Lemma emitVideoProgress_kept p s d E :
  spec P (emitVideoProgress p s d) (fun _ => P) E.
Proof. apply spec_modify. intros tr H. apply P_emit. exact H. Qed.

Lemma findByIdAndUpdate_kept w u :
  W u -> spec P (findByIdAndUpdate w u) (fun _ => P) (fun _ => P).
Proof.
  intros Hu tr H. unfold findByIdAndUpdate.
  destruct (db_rejects w (issued tr)); apply P_write; assumption.
Qed.

Lemma findByIdAndUpdate_catch_kept w u E :
  W u -> spec P (findByIdAndUpdate_catch w u) (fun _ => P) E.
Proof.
  intros Hu. unfold findByIdAndUpdate_catch.
  eapply spec_try_catch; [apply findByIdAndUpdate_kept; exact Hu |].
  intros msg. apply spec_ret. auto.
Qed.

Lemma replay_kept w E cs :
  Forall (fun c => 10 <= call_progress c <= 100) cs ->
  spec P (replay w cs) (fun _ => P) E.
Proof.
  induction cs as [| c rest IH]; intros Hcs; simpl.
  - apply spec_ret. auto.
  - inversion Hcs; subst.
    eapply spec_bind; [| intros ?; apply IH; assumption].
    unfold onAnalysisProgress.
    eapply spec_bind; [apply emitVideoProgress_kept |]. intros ?.
    apply findByIdAndUpdate_catch_kept. apply W_analysis. assumption.
Qed.

Lemma runAnalysis_kept w metadata :
  spec P (runAnalysis w metadata) (fun _ => P) (fun _ => P).
Proof.
  unfold runAnalysis.
  pose proof (analysis_progress_ramp (analysis w) (Some metadata) (Some (fun _ => false)))
    as [_ Hr].
  destruct (analyzeVideoSensitivity _ _ _) as [st out]. simpl in Hr.
  unfold callProgress in Hr. rewrite Forall_map in Hr.
  destruct out as [v | msg].
  - eapply spec_bind; [apply replay_kept; exact Hr |]. intros ?. apply spec_ret. auto.
  - eapply spec_bind; [apply replay_kept; exact Hr |]. intros ?. apply spec_raise. auto.
Qed.

Lemma transcodeEvents_kept E ps : spec P (transcodeEvents ps) (fun _ => P) E.
Proof.
  induction ps as [| p rest IH]; simpl.
  - apply spec_ret. auto.
  - eapply spec_bind; [| intros ?; apply IH].
    unfold onTranscodeProgress. apply emitVideoProgress_kept.
Qed.

Lemma processVideoForStreaming_kept w :
  spec P (processVideoForStreaming w) (fun _ => P) (fun _ => P).
Proof.
  unfold processVideoForStreaming.
  eapply spec_bind; [apply transcodeEvents_kept |]. intros ?.
  destruct (transcode_error w); [apply spec_raise | apply spec_ret]; auto.
Qed.

End Kept.

(** ** Exactly one terminal event, after the terminal write *)

Lemma completions_app tr1 tr2 :
  completions (tr1 ++ tr2) = (completions tr1 + completions tr2)%nat.
Proof. unfold completions. rewrite filter_app, length_app. reflexivity. Qed.

Lemma silent_emit tr e : completions tr = 0%nat -> completions (tr ++ [Emit e]) = 0%nat.
Proof. intros H. rewrite completions_app, H. reflexivity. Qed.

Lemma silent_write tr u ok :
  completions tr = 0%nat -> True -> completions (tr ++ [Write u ok]) = 0%nat.
Proof. intros H _. rewrite completions_app, H. reflexivity. Qed.

(** The [try] block: when it returns, the trace ends with the applied
    final write and the terminal event; when it raises, no terminal event
    has been emitted. *)
Lemma processBody_shape w metadata :
  spec (fun tr => completions tr = 0%nat) (processBody w metadata)
    (fun _ tr => exists tr0 u e,
        tr = tr0 ++ [Write u true; Complete e] /\ completions tr0 = 0%nat /\
        u_status u = Some (ce_status e) /\
        (ce_status e = "completed" \/ ce_status e = "flagged") /\
        ce_error e = None)
    (fun _ tr => completions tr = 0%nat).
Proof.
  unfold processBody.
  pose proof (emitVideoProgress_kept _ silent_emit) as Hemit.
  pose proof (findByIdAndUpdate_kept _ (fun _ => True) silent_write) as Hwrite.
  eapply spec_bind; [apply Hemit |]. intros ?.
  eapply spec_bind; [apply Hwrite; exact I |]. intros ?.
  eapply spec_bind; [apply Hemit |]. intros ?.
  eapply spec_bind; [apply Hwrite; exact I |]. intros ?.
  eapply spec_bind.
  { apply (runAnalysis_kept _ (fun _ => True) silent_emit silent_write). auto. }
  intros sensitivityAnalysis.
  eapply spec_bind; [apply Hemit |]. intros ?.
  eapply spec_bind; [apply Hwrite; exact I |]. intros ?.
  eapply spec_bind.
  { apply (processVideoForStreaming_kept _ silent_emit). }
  intros ?.
  eapply spec_bind; [apply Hemit |]. intros ?.
  eapply spec_bind; [apply Hwrite; exact I |]. intros ?.
  set (finalStatus := if status sensitivityAnalysis =? "flagged" then "flagged" else "completed").
  eapply spec_bind with
    (Q := fun _ tr => exists tr0 u, tr = tr0 ++ [Write u true] /\ completions tr0 = 0%nat /\
                                    u_status u = Some finalStatus).
  - intros tr Htr. unfold findByIdAndUpdate.
    destruct (db_rejects w (issued tr)).
    + apply silent_write; auto.
    + exists tr. eexists. split; [reflexivity |]. split; [exact Htr | reflexivity].
  - intros ?. apply spec_modify. intros tr (tr0 & u & -> & Hsilent & Hu).
    exists tr0, u. eexists. rewrite <- app_assoc. simpl.
    split; [reflexivity |]. split; [exact Hsilent |]. split; [exact Hu |].
    simpl. split; [| reflexivity].
    subst finalStatus. destruct (status sensitivityAnalysis =? "flagged"); auto.
Qed.

(** The whole job: the promise always resolves; the trace ends with the
    terminal write and the one terminal event. *)
Lemma processVideoAsync_shape w metadata :
  exists tr0 u ok e,
    processVideoAsync w metadata = (tr0 ++ [Write u ok; Complete e], Returned tt) /\
    completions tr0 = 0%nat /\
    u_status u = Some (ce_status e) /\
    match processBody w metadata [] with
    | (tr, Returned _) =>
        tr = tr0 ++ [Write u ok; Complete e] /\ ok = true /\
        (ce_status e = "completed" \/ ce_status e = "flagged") /\ ce_error e = None
    | (tr, Raised message) =>
        tr = tr0 /\ u = failedUpdate /\ e = failedEvent message
    end.
Proof.
  unfold processVideoAsync, try_catch.
  pose proof (processBody_shape w metadata [] eq_refl) as H.
  destruct (processBody w metadata []) as [tr [[] | message]].
  - destruct H as (tr0 & u & e & -> & Hsilent & Hu & Hst & Herr).
    exists tr0, u, true, e. repeat split; assumption.
  - unfold processFailed, bind, findByIdAndUpdate_catch, try_catch, findByIdAndUpdate,
      emitVideoComplete, modify, ret.
    destruct (db_rejects w (issued tr)); simpl; rewrite <- app_assoc; simpl.
    + exists tr, failedUpdate, false, (failedEvent message). repeat split; assumption.
    + exists tr, failedUpdate, true, (failedEvent message). repeat split; assumption.
Qed.

(** ** The order of notification and write *)

Lemma snoc_decompose {A} (tr pre post : list A) (a b : A) :
  tr ++ [a] = pre ++ b :: post ->
  (post = [] /\ pre = tr /\ a = b) \/
  (exists post', post = post' ++ [a] /\ tr = pre ++ b :: post').
Proof.
  intros H. destruct post as [| x post' _] using rev_ind.
  - apply app_inj_tail in H. destruct H as [-> ->]. left. auto.
  - right. exists post'.
    rewrite app_comm_cons, app_assoc in H.
    apply app_inj_tail in H. destruct H as [-> ->]. auto.
Qed.

Lemma npw_nil : notify_precedes_write [].
Proof. intros e s p u ok pre post _ _ H. destruct pre; discriminate. Qed.

Lemma npw_emit tr e0 : notify_precedes_write tr -> notify_precedes_write (tr ++ [Emit e0]).
Proof.
  intros Htr e s p u ok pre post Hin Hu H.
  apply snoc_decompose in H. destruct H as [(_ & _ & H) | (post' & _ & ->)].
  - discriminate.
  - eapply Htr; eauto.
Qed.

Lemma npw_complete tr e0 :
  notify_precedes_write tr -> notify_precedes_write (tr ++ [Complete e0]).
Proof.
  intros Htr e s p u ok pre post Hin Hu H.
  apply snoc_decompose in H. destruct H as [(_ & _ & H) | (post' & _ & ->)].
  - discriminate.
  - eapply Htr; eauto.
Qed.

Lemma npw_write tr u0 ok0 :
  notify_precedes_write tr -> ~ transition_write u0 ->
  notify_precedes_write (tr ++ [Write u0 ok0]).
Proof.
  intros Htr Hno e s p u ok pre post Hin Hu H.
  apply snoc_decompose in H. destruct H as [(_ & _ & H) | (post' & _ & ->)].
  - injection H as -> ->. exfalso. apply Hno. exists e, s, p. auto.
  - eapply Htr; eauto.
Qed.

Lemma npw_transition tr e0 u0 ok0 :
  notify_precedes_write tr ->
  (forall e s p, In (e, (s, p)) transitions -> persists u0 s p -> e = e0) ->
  notify_precedes_write ((tr ++ [Emit e0]) ++ [Write u0 ok0]).
Proof.
  intros Htr Huniq e s p u ok pre post Hin Hu H.
  apply snoc_decompose in H. destruct H as [(_ & -> & H) | (post' & _ & H)].
  - injection H as -> ->. exists tr. rewrite (Huniq e s p Hin Hu). reflexivity.
  - eapply (npw_emit tr e0 Htr); eauto.
Qed.

Lemma analysis_write_not_transition c :
  10 <= c <= 100 ->
  ~ transition_write (progressUpdate (Some "analyzing") (analysisWindow c)).
Proof.
  intros Hc (e & s & p & Hin & Hs & q & Hq & Hqp). simpl in *.
  injection Hq as <-. unfold analysisWindow in Hqp.
  destruct Hin as [H | [H | [H | [H | []]]]]; injection H as <- <- <-;
    try discriminate; lra.
Qed.

Lemma terminal_write_not_transition st p v path :
  st = "completed" \/ st = "flagged" \/ st = "failed" ->
  ~ transition_write {| u_status := Some st; u_processingProgress := p;
                        u_sensitivityAnalysis := v; u_processedPath := path |}.
Proof.
  intros Hst (e & s & q & Hin & Hs & _). simpl in *.
  destruct Hin as [H | [H | [H | [H | []]]]]; injection H as <- <- <-;
    destruct Hst as [-> | [-> | ->]]; discriminate.
Qed.

(** A transition: the event first, then the write of its status and
    progress. *)
Lemma transition_order w e0 s0 p0 :
  In (e0, (s0, p0)) transitions ->
  (forall e s p, In (e, (s, p)) transitions -> persists (progressUpdate s0 p0) s p -> e = e0) ->
  forall B (k : M Trace B) Q,
  spec notify_precedes_write k Q (fun _ => notify_precedes_write) ->
  spec notify_precedes_write
       (emitVideoProgress (pe_progress e0) (pe_status e0) noDetails ;;
        findByIdAndUpdate w (progressUpdate s0 p0) ;; k)
       Q (fun _ => notify_precedes_write).
Proof.
  intros Hin Huniq B k Q Hk.
  assert (He : {| pe_progress := pe_progress e0; pe_status := pe_status e0;
                  pe_currentFrame := None; pe_totalFrames := None;
                  pe_frameResult := None |} = e0).
  { destruct Hin as [H | [H | [H | [H | []]]]]; injection H as <- _ _; reflexivity. }
  eapply spec_bind with
    (Q := fun _ tr => exists tr0, notify_precedes_write tr0 /\ tr = tr0 ++ [Emit e0]).
  - apply spec_modify. intros tr Htr. exists tr. simpl. rewrite He. auto.
  - intros ?. eapply spec_bind with (Q := fun _ => notify_precedes_write).
    + intros tr (tr0 & Htr0 & ->). unfold findByIdAndUpdate.
      destruct (db_rejects w _); apply npw_transition; assumption.
    + intros ?. exact Hk.
Qed.

Lemma transition_unique e0 s0 p0 :
  In (e0, (s0, p0)) transitions ->
  forall e s p, In (e, (s, p)) transitions -> persists (progressUpdate s0 p0) s p -> e = e0.
Proof.
  intros Hin0 e s p Hin (Hs & q & Hq & Hqp). simpl in *. injection Hq as <-.
  destruct Hin0 as [H0 | [H0 | [H0 | [H0 | []]]]]; injection H0 as <- <- <-;
    destruct Hin as [H | [H | [H | [H | []]]]]; injection H as <- <- <-;
    try reflexivity; try discriminate; exfalso; lra.
Qed.

Lemma processBody_order w metadata :
  spec notify_precedes_write (processBody w metadata)
       (fun _ => notify_precedes_write) (fun _ => notify_precedes_write).
Proof.
  unfold processBody.
  pose proof (fun tr u ok H (Hu : ~ transition_write u) => npw_write tr u ok H Hu) as Hnw.
  apply (transition_order w (stageEvent "processing" 10) (Some "processing") 10);
    [simpl; auto | apply transition_unique; simpl; auto |].
  apply (transition_order w (stageEvent "analyzing" 30) (Some "analyzing") 30);
    [simpl; auto | apply transition_unique; simpl; auto |].
  eapply spec_bind.
  { apply (runAnalysis_kept _ (fun u => ~ transition_write u) npw_emit Hnw
             analysis_write_not_transition). }
  intros sensitivityAnalysis.
  apply (transition_order w (stageEvent "compressing" 50) None 50);
    [simpl; auto 6 | apply transition_unique; simpl; auto 6 |].
  eapply spec_bind; [apply (processVideoForStreaming_kept _ npw_emit) |]. intros ?.
  apply (transition_order w (stageEvent "finalizing" 95) None 95);
    [simpl; auto 6 | apply transition_unique; simpl; auto 6 |].
  eapply spec_bind.
  { apply (findByIdAndUpdate_kept _ (fun u => ~ transition_write u) Hnw).
    apply terminal_write_not_transition.
    destruct (status sensitivityAnalysis =? "flagged"); auto. }
  intros ?. apply spec_modify. intros tr Htr. apply npw_complete. exact Htr.
Qed.

Lemma processVideoAsync_order w metadata :
  notify_precedes_write (fst (processVideoAsync w metadata)).
Proof.
  unfold processVideoAsync.
  assert (H : spec notify_precedes_write
                (try_catch (processBody w metadata) (processFailed w))
                (fun _ => notify_precedes_write) (fun _ => notify_precedes_write)).
  { eapply spec_try_catch; [apply processBody_order |]. intros message.
    unfold processFailed.
    eapply spec_bind.
    - apply (findByIdAndUpdate_catch_kept _ (fun u => ~ transition_write u)
               (fun tr u ok H Hu => npw_write tr u ok H Hu)).
      apply terminal_write_not_transition. auto.
    - intros ?. apply spec_modify. intros tr Htr. apply npw_complete. exact Htr. }
  specialize (H [] npw_nil).
  destruct (try_catch (processBody w metadata) (processFailed w) []) as [tr [[] | msg]];
    exact H.
Qed.

(** The first thing a job does is emit the "processing" event. *)
Lemma processVideoAsync_head w metadata :
  exists rest, fst (processVideoAsync w metadata) = Emit (stageEvent "processing" 10) :: rest.
Proof.
  set (P := fun tr : Trace => exists rest, tr = Emit (stageEvent "processing" 10) :: rest).
  assert (Pk : forall tr a, P tr -> P (tr ++ [a])).
  { intros tr a [rest ->]. exists (rest ++ [a]). reflexivity. }
  assert (Hbody : spec (fun tr => tr = []) (processBody w metadata) (fun _ => P) (fun _ => P)).
  { unfold processBody.
    eapply spec_bind with (Q := fun _ => P).
    { apply spec_modify. intros tr ->. exists []. reflexivity. }
    intros ?.
    pose proof (emitVideoProgress_kept P (fun tr e => Pk tr (Emit e))) as Hemit.
    pose proof (findByIdAndUpdate_kept P (fun _ => True)
                  (fun tr u ok H _ => Pk tr (Write u ok) H)) as Hwrite.
    eapply spec_bind; [apply Hwrite; exact I |]. intros ?.
    eapply spec_bind; [apply Hemit |]. intros ?.
    eapply spec_bind; [apply Hwrite; exact I |]. intros ?.
    eapply spec_bind.
    { apply (runAnalysis_kept P (fun _ => True) (fun tr e => Pk tr (Emit e))
               (fun tr u ok H _ => Pk tr (Write u ok) H)). auto. }
    intros sensitivityAnalysis.
    eapply spec_bind; [apply Hemit |]. intros ?.
    eapply spec_bind; [apply Hwrite; exact I |]. intros ?.
    eapply spec_bind.
    { apply (processVideoForStreaming_kept P (fun tr e => Pk tr (Emit e))). }
    intros ?.
    eapply spec_bind; [apply Hemit |]. intros ?.
    eapply spec_bind; [apply Hwrite; exact I |]. intros ?.
    eapply spec_bind; [apply Hwrite; exact I |]. intros ?.
    apply spec_modify. intros tr Htr. apply Pk. exact Htr. }
  assert (H : spec (fun tr => tr = []) (try_catch (processBody w metadata) (processFailed w))
                (fun _ => P) (fun _ => P)).
  { eapply spec_try_catch; [exact Hbody |]. intros message. unfold processFailed.
    eapply spec_bind.
    - apply (findByIdAndUpdate_catch_kept P (fun _ => True)
               (fun tr u ok H _ => Pk tr (Write u ok) H)). exact I.
    - intros ?. apply spec_modify. intros tr Htr. apply Pk. exact Htr. }
  specialize (H [] eq_refl). unfold processVideoAsync.
  destruct (try_catch (processBody w metadata) (processFailed w) []) as [tr [[] | msg]];
    exact H.
Qed.

(** ** The analysis under a quiet callback *)

Lemma progressCallback_quiet cb p s d st :
  quiet cb ->
  exists st', progressCallback cb p s d st = (st', Returned tt) /\ tally st' = tally st.
Proof.
  intros Hq. destruct cb as [raises |]; simpl in *.
  - rewrite Hq. eexists. split; reflexivity.
  - exists st. split; reflexivity.
Qed.

(** Run the next invocation of a quiet callback in the goal. *)
Ltac run_callback Hq :=
  match goal with
  | |- context [progressCallback ?c ?p ?s ?d ?st0] =>
      let st' := fresh "st" in
      let H := fresh "Ht" in
      let He := fresh "He" in
      let Hv := fresh "Hv" in
      let Hr := fresh "Hr" in
      destruct (progressCallback_quiet c p s d st0 Hq) as (st' & -> & H);
      unfold tally in H; cbn in H; injection H as He Hv Hr
  end.

Lemma triple_eq {A B C} (a a' : A) (b b' : B) (c c' : C) :
  a = a' -> b = b' -> c = c' -> (a, b, c) = (a', b', c').
Proof. intros -> -> ->. reflexivity. Qed.

(** Close a goal on a tally with the equations [run_callback] left. *)
Ltac close_tally :=
  repeat match goal with
         | H : explicitCount _ = _ |- _ => rewrite H; clear H
         | H : violentCount _ = _ |- _ => rewrite H; clear H
         | H : frameResults _ = _ |- _ => rewrite H; clear H
         end;
  rewrite <- ?app_assoc; cbn [app];
  apply triple_eq; [lia | lia | reflexivity].

(** One iteration: it returns, and adds the records of its frame and
    what its classification counts. *)
Lemma analyzeOneFrame_quiet env cb i n f st :
  quiet cb ->
  exists st', analyzeOneFrame env cb i n f st = (st', Returned tt) /\
    tally st' =
      ((explicitCount st + explicitRecords (recordsOf env i f))%nat,
       (violentCount st + violentRecords (recordsOf env i f))%nat,
       frameResults st ++ recordsOf env i f).
Proof.
  intros Hq. unfold analyzeOneFrame, try_catch, bind.
  run_callback Hq.
  unfold raceAnalyzeFrame, recordsOf, classify.
  destruct (timed_out (frame_env f)) eqn:Htimeout.
  - (* the timer fires: the catch block *)
    cbn. run_callback Hq.
    eexists. split; [reflexivity |]. unfold tally. cbn. close_tally.
  - set (frameAnalysis := analyzeFrame (hasSightengine env) (hasGoogleVision env)
                            (frame_env f)).
    unfold when, push_frameResult, incr_explicitCount, incr_violentCount, modify, ret,
      cleanup, raise.
    destruct (isExplicit frameAnalysis) eqn:Hex, (isViolent frameAnalysis) eqn:Hvi;
      cbn [fst snd]; run_callback Hq; destruct (cleanup_ok (frame_env f));
      try run_callback Hq; (eexists; split; [reflexivity |]);
      unfold tally, explicitRecords, violentRecords; cbn; rewrite ?Hex, ?Hvi; cbn;
      close_tally.
Qed.

Lemma frameRecords_app env frames1 frames2 : forall i,
  frameRecords env i (frames1 ++ frames2) =
  frameRecords env i frames1 ++ frameRecords env (i + List.length frames1) frames2.
Proof.
  induction frames1 as [| f rest IH]; intros i; simpl.
  - rewrite Nat.add_0_r. reflexivity.
  - rewrite IH, <- app_assoc.
    replace (i + S (List.length rest))%nat with (S i + List.length rest)%nat by lia.
    reflexivity.
Qed.

Lemma explicitRecords_app rs1 rs2 :
  explicitRecords (rs1 ++ rs2) = (explicitRecords rs1 + explicitRecords rs2)%nat.
Proof. unfold explicitRecords. rewrite filter_app, length_app. reflexivity. Qed.

Lemma violentRecords_app rs1 rs2 :
  violentRecords (rs1 ++ rs2) = (violentRecords rs1 + violentRecords rs2)%nat.
Proof. unfold violentRecords. rewrite filter_app, length_app. reflexivity. Qed.

(** The loop: it returns, and adds the records of its frames in order. *)
Lemma analyzeFrames_quiet env cb n frames :
  quiet cb -> forall i st,
  exists st', analyzeFrames env cb i n frames st = (st', Returned tt) /\
    tally st' =
      ((explicitCount st + explicitRecords (frameRecords env i frames))%nat,
       (violentCount st + violentRecords (frameRecords env i frames))%nat,
       frameResults st ++ frameRecords env i frames).
Proof.
  intros Hq. induction frames as [| f rest IH]; intros i st; simpl.
  - exists st. split; [reflexivity |]. unfold tally.
    apply triple_eq; [cbn; lia | cbn; lia | rewrite app_nil_r; reflexivity].
  - unfold bind.
    destruct (analyzeOneFrame_quiet env cb i n f st Hq) as (st1 & -> & H1).
    destruct (IH (S i) st1) as (st2 & -> & H2).
    exists st2. split; [reflexivity |]. rewrite H2.
    unfold tally in H1. injection H1 as -> -> ->.
    rewrite explicitRecords_app, violentRecords_app, <- app_assoc.
    apply triple_eq; [lia | lia | reflexivity].
Qed.

Lemma aggregate_tally metadata n st st' :
  tally st = tally st' -> aggregate metadata n st = aggregate metadata n st'.
Proof.
  unfold tally. intros H. injection H as He Hv Hr.
  unfold aggregate. rewrite He, Hv, Hr. reflexivity.
Qed.

(** Under a quiet callback the analysis returns [quietVerdict] and holds
    [quietRecords]. *)
Lemma analyzeVideoSensitivity_quiet env metadata cb :
  quiet cb ->
  exists st, analyzeVideoSensitivity env (Some metadata) cb
             = (st, Returned (quietVerdict env metadata)) /\
             frameResults st = quietRecords env metadata.
Proof.
  intros Hq. unfold analyzeVideoSensitivity, try_catch, analysisBody, quietVerdict,
    quietRecords, sampled, planned.
  destruct (negb (hasSightengine env || hasGoogleVision env)).
  { unfold bind. run_callback Hq. eexists. split; [reflexivity | assumption]. }
  unfold bind at 1. unfold deref, ret at 1.
  destruct (Qeq_bool (duration metadata) 0 || Qltb (duration metadata) 3).
  { unfold bind. run_callback Hq. eexists. split; [reflexivity | assumption]. }
  unfold bind at 1. run_callback Hq.
  destruct (raceExtractFrames env (duration metadata) (frameInterval (duration metadata))
              (clampFrames (duration metadata) (frameInterval (duration metadata)) 20))
    as [frames | msg].
  2: { eexists. split; [reflexivity | assumption]. }
  destruct frames as [| f rest].
  { eexists. split; [reflexivity | assumption]. }
  cbn [List.length Nat.eqb]. unfold bind at 1. run_callback Hq.
  unfold bind at 1.
  destruct (analyzeFrames_quiet env cb (List.length (f :: rest)) (f :: rest) Hq 0%nat st0)
    as (st1 & Hrun & Htally).
  cbn [List.length] in Hrun. rewrite Hrun.
  unfold bind, get_state, ret.
  exists st1. unfold tally in Htally. injection Htally as He1 Hv1 Hr1.
  rewrite He0, He in He1. rewrite Hv0, Hv in Hv1. rewrite Hr0, Hr in Hr1.
  cbn in He1, Hv1, Hr1. split; [| exact Hr1].
  f_equal. f_equal. apply aggregate_tally. unfold tally, tallied.
  apply triple_eq; assumption.
Qed.

(** ** Comparisons *)

Lemma Qltb_lt a b : Qltb a b = true <-> a < b.
Proof.
  unfold Qltb. rewrite negb_true_iff. split; intros H.
  - apply Qnot_le_lt. intros Hle. apply Qle_bool_iff in Hle. congruence.
  - destruct (Qle_bool b a) eqn:Hb; [| reflexivity].
    apply Qle_bool_iff in Hb. lra.
Qed.

Lemma Qltb_ge a b : Qltb a b = false <-> b <= a.
Proof.
  unfold Qltb. rewrite negb_false_iff. apply Qle_bool_iff.
Qed.

Lemma Qltb_Math_max t a b : Qltb t (Math_max a b) = Qltb t a || Qltb t b.
Proof.
  unfold Math_max. destruct (Qle_bool a b) eqn:Hab.
  - apply Qle_bool_iff in Hab.
    destruct (Qltb t a) eqn:Ha; simpl; [| reflexivity].
    apply Qltb_lt in Ha. apply Qltb_lt. lra.
  - destruct (Qltb t a) eqn:Ha; simpl; [reflexivity |].
    apply Qltb_ge in Ha. symmetry. apply Qltb_ge.
    destruct (Qlt_le_dec b a) as [Hlt | Hle]; [lra |].
    apply Qle_bool_iff in Hle. congruence.
Qed.

Lemma short_duration d : Qeq_bool d 0 || Qltb d 3 = Qltb d 3.
Proof.
  destruct (Qeq_bool d 0) eqn:H0; simpl; [| reflexivity].
  apply Qeq_bool_iff in H0. symmetry. apply Qltb_lt. lra.
Qed.

Lemma long_enough d : 3 <= d -> Qeq_bool d 0 || Qltb d 3 = false.
Proof. intros H. rewrite short_duration. apply Qltb_ge. exact H. Qed.

(** ** The frame sampler *)

Lemma clampFrames_pos D interval maxFrames : (1 <= clampFrames D interval maxFrames)%Z.
Proof. unfold clampFrames. lia. Qed.

Lemma clampFrames_idem D interval :
  clampFrames D interval (clampFrames D interval 20) = clampFrames D interval 20.
Proof. unfold clampFrames. lia. Qed.

Lemma frameCount_clampFrames D :
  frameCount D = Z.to_nat (clampFrames D (frameInterval D) 20).
Proof. reflexivity. Qed.

Lemma frameCount_bounds D : (1 <= frameCount D <= 20)%nat.
Proof. unfold frameCount. lia. Qed.

Lemma timestamps_length D interval n : List.length (timestamps D interval n) = n.
Proof. unfold timestamps. rewrite length_map, length_seq. reflexivity. Qed.

Lemma existing_length env ts : forall k,
  List.length (existing env k ts) = List.length (filter (written env) (seq k (List.length ts))).
Proof.
  induction ts as [| t rest IH]; intros k; simpl.
  - reflexivity.
  - unfold written at 1. destruct (frame_file env k); simpl; rewrite IH; reflexivity.
Qed.

Lemma filter_length_le {A} (p : A -> bool) l :
  (List.length (filter p l) <= List.length l)%nat.
Proof.
  induction l as [| x rest IH]; simpl; [lia |]. destruct (p x); simpl; lia.
Qed.

(** When the extraction succeeds, its frames are the requested frames
    whose file was written. *)
Lemma planned_length env metadata :
  3 <= duration metadata ->
  match planned env metadata with
  | Returned frames =>
      List.length frames
      = List.length (filter (written env) (seq 0 (frameCount (duration metadata))))
  | Raised _ => True
  end.
Proof.
  intros HD. unfold planned, raceExtractFrames, extractFrames.
  destruct (extraction_timeout env); [exact I |].
  assert (H0 : Qeq_bool (duration metadata) 0 = false).
  { destruct (Qeq_bool (duration metadata) 0) eqn:H; [| reflexivity].
    apply Qeq_bool_iff in H. lra. }
  rewrite H0, clampFrames_idem.
  pose proof (clampFrames_pos (duration metadata) (frameInterval (duration metadata)) 20) as Hpos.
  destruct (clampFrames _ _ 20 =? 0)%Z eqn:Hz; [apply Z.eqb_eq in Hz; lia |].
  destruct (ffmpeg_error env); [exact I |].
  rewrite existing_length, timestamps_length, frameCount_clampFrames. reflexivity.
Qed.

Lemma sampled_length env metadata :
  3 <= duration metadata ->
  (List.length (sampled env metadata) <= frameCount (duration metadata))%nat.
Proof.
  intros HD. pose proof (planned_length env metadata HD) as H. unfold sampled.
  destruct (planned env metadata) as [frames | msg]; simpl; [| lia].
  rewrite H. etransitivity; [apply filter_length_le |]. rewrite length_seq. lia.
Qed.

(** With every frame file deleted without error, each frame leaves one
    record, numbered by its position. *)
Lemma frameRecords_numbers env frames : forall i,
  Forall (fun f => cleanup_ok (frame_env f) = true) frames ->
  map frameNumber (frameRecords env i frames) = seq (i + 1) (List.length frames).
Proof.
  induction frames as [| f rest IH]; intros i Hc; simpl.
  - reflexivity.
  - inversion Hc as [| ? ? Hf Hrest]; subst. rewrite map_app, IH by exact Hrest.
    unfold recordsOf. rewrite Hf.
    destruct (timed_out (frame_env f)); simpl; reflexivity.
Qed.

(** ** Sorting by frame number *)

Lemma insertByFrameNumber_perm x l : Permutation (insertByFrameNumber x l) (x :: l).
Proof.
  induction l as [| y rest IH]; simpl.
  - apply Permutation_refl.
  - destruct (frameNumber x <=? frameNumber y)%nat.
    + apply Permutation_refl.
    + eapply perm_trans; [apply perm_skip; exact IH | apply perm_swap].
Qed.

Lemma sortByFrameNumber_perm l : Permutation (sortByFrameNumber l) l.
Proof.
  induction l as [| x rest IH]; simpl.
  - apply perm_nil.
  - eapply perm_trans; [apply insertByFrameNumber_perm | apply perm_skip; exact IH].
Qed.

Lemma insertByFrameNumber_hd x y l :
  byFrameNumber y x -> HdRel byFrameNumber y l ->
  HdRel byFrameNumber y (insertByFrameNumber x l).
Proof.
  intros Hyx Hl. destruct l as [| z rest]; simpl.
  - constructor. exact Hyx.
  - destruct (frameNumber x <=? frameNumber z)%nat; constructor.
    + exact Hyx.
    + inversion Hl; assumption.
Qed.

Lemma insertByFrameNumber_sorted x l :
  Sorted byFrameNumber l -> Sorted byFrameNumber (insertByFrameNumber x l).
Proof.
  induction l as [| y rest IH]; simpl; intros Hl.
  - repeat constructor.
  - inversion Hl as [| ? ? Hrest Hhd]; subst.
    destruct (frameNumber x <=? frameNumber y)%nat eqn:Hxy.
    + apply Nat.leb_le in Hxy. constructor; [exact Hl | constructor; exact Hxy].
    + apply Nat.leb_gt in Hxy. constructor; [apply IH; exact Hrest |].
      apply insertByFrameNumber_hd; [unfold byFrameNumber; lia | exact Hhd].
Qed.

Lemma sortByFrameNumber_sorted l : Sorted byFrameNumber (sortByFrameNumber l).
Proof.
  induction l as [| x rest IH]; simpl.
  - constructor.
  - apply insertByFrameNumber_sorted. exact IH.
Qed.

Lemma Permutation_filter {A} (p : A -> bool) (l l' : list A) :
  Permutation l l' -> Permutation (filter p l) (filter p l').
Proof.
  induction 1 as [| x l l' _ IH | x y l | l l' l'' _ IH1 _ IH2]; simpl.
  - apply perm_nil.
  - destruct (p x); [apply perm_skip |]; exact IH.
  - destruct (p x), (p y); try apply Permutation_refl. apply perm_swap.
  - eapply perm_trans; eassumption.
Qed.

Lemma sameNumber_others r l : sameNumber r (others r l) = [].
Proof.
  unfold sameNumber, others. induction l as [| x rest IH]; simpl.
  - reflexivity.
  - destruct (frameNumber x =? frameNumber r)%nat eqn:H; simpl.
    + exact IH.
    + rewrite H. exact IH.
Qed.

(** After the handler ran on an event with frame data, the ref and the
    state hold the same list, and [existingFrameResults] is that list. *)
Lemma existingFrameResults_synced l ad :
  ad_frameResults ad = l ->
  existingFrameResults {| frameResultsRef := l; analysisDetails := ad |} = l.
Proof.
  intros H. unfold existingFrameResults. simpl. destruct l; [exact H | reflexivity].
Qed.

(** From a state where ref and rendered list go together, the records
    held are the rendered list. *)
Lemma in_step_held st : in_step st -> existingFrameResults st = shown st.
Proof.
  unfold in_step, existingFrameResults, shown. intros [H | H].
  - rewrite H. reflexivity.
  - destruct (frameResultsRef st); [| exact H]. reflexivity.
Qed.

(** After the handler ran, the ref and the rendered list go together. *)
Lemma onVideoProgress_in_step st data : in_step st -> in_step (onVideoProgress st data).
Proof.
  intros Hst. unfold onVideoProgress.
  destruct (hasFrameData data); [right; reflexivity | exact Hst].
Qed.

(** ** The status of a verdict *)

Lemma spec_any {S A} (P : S -> Prop) (m : M S A) :
  spec P m (fun _ _ => True) (fun _ _ => True).
Proof. intros s _. destruct (m s) as [s' [a | msg]]; exact I. Qed.

Lemma aggregate_status metadata n st :
  status (aggregate metadata n st) = "safe" \/ status (aggregate metadata n st) = "flagged".
Proof.
  unfold aggregate.
  destruct (Qltb threshold _ || Qltb threshold _); [right; reflexivity |].
  destruct ((0 <? explicitCount st)%nat || (0 <? violentCount st)%nat);
    [right | left]; reflexivity.
Qed.

(** Whatever the [try] block of the analysis returns has status "safe"
    or "flagged". *)
Lemma analysisBody_status env metadata cb :
  spec (fun _ => True) (analysisBody env metadata cb)
       (fun v _ => status v = "safe" \/ status v = "flagged") (fun _ _ => True).
Proof.
  unfold analysisBody.
  destruct (negb (hasSightengine env || hasGoogleVision env)).
  { eapply spec_bind; [apply spec_any |]. intros ?. apply spec_ret. intros; right; reflexivity. }
  eapply spec_bind; [apply spec_any |]. intros m.
  destruct (Qeq_bool (duration m) 0 || Qltb (duration m) 3).
  { eapply spec_bind; [apply spec_any |]. intros ?. apply spec_ret. intros; left; reflexivity. }
  eapply spec_bind; [apply spec_any |]. intros ?.
  destruct (raceExtractFrames _ _ _ _) as [frames | msg].
  2: { apply spec_ret. intros; left; reflexivity. }
  destruct (List.length frames =? 0)%nat.
  { apply spec_ret. intros; left; reflexivity. }
  eapply spec_bind; [apply spec_any |]. intros ?.
  eapply spec_bind; [apply spec_any |]. intros ?.
  eapply spec_bind; [apply spec_any |]. intros st.
  apply spec_ret. intros. apply aggregate_status.
Qed.

(** ** The transitions of a job, one after the other *)

Lemma issued_app tr1 tr2 : issued (tr1 ++ tr2) = (issued tr1 + issued tr2)%nat.
Proof. unfold issued. rewrite filter_app, length_app. reflexivity. Qed.

Lemma try_catch_bind {S A B} (m : M S A) (k : A -> M S B) h s :
  try_catch (bind m k) h s =
  match m s with
  | (s', Returned a) => try_catch (k a) h s'
  | (s', Raised msg) => h msg s'
  end.
Proof. unfold try_catch, bind. destruct (m s) as [s' [a | msg]]; reflexivity. Qed.

Lemma emitVideoProgress_run p s tr :
  emitVideoProgress p s noDetails tr = (tr ++ [Emit (stageEvent s p)], Returned tt).
Proof. reflexivity. Qed.

Lemma findByIdAndUpdate_run w u tr :
  findByIdAndUpdate w u tr =
  (tr ++ [Write u (applied w (issued tr))],
   match db_rejects w (issued tr) with
   | None => Returned tt
   | Some message => Raised message
   end).
Proof.
  unfold findByIdAndUpdate, applied. destruct (db_rejects w (issued tr)); reflexivity.
Qed.

(** The [catch] block adds its write and the terminal event. *)
Lemma processFailed_run w message tr :
  exists rest, fst (processFailed w message tr) = tr ++ rest.
Proof.
  unfold processFailed, bind, findByIdAndUpdate_catch, try_catch, findByIdAndUpdate,
    emitVideoComplete, modify, ret.
  destruct (db_rejects w (issued tr)); simpl; rewrite <- app_assoc; eexists; reflexivity.
Qed.

Lemma interlude_app A B : interlude A -> interlude B -> interlude (A ++ B).
Proof. unfold interlude. intros HA HB. apply Forall_app. auto. Qed.

(** The callbacks of the analysis never stop the job: each emits and
    issues a write that is no write of a transition. *)
Lemma replay_run w cs :
  Forall (fun c => 10 <= call_progress c <= 100) cs ->
  forall tr, exists A, replay w cs tr = (tr ++ A, Returned tt) /\ interlude A.
Proof.
  induction cs as [| c rest IH]; intros Hcs tr; simpl.
  - exists []. rewrite app_nil_r. split; [reflexivity | constructor].
  - inversion Hcs as [| ? ? Hc Hrest]; subst.
    unfold bind at 1, onAnalysisProgress, bind, emitVideoProgress, modify,
      findByIdAndUpdate_catch, try_catch, findByIdAndUpdate, ret.
    assert (Hw : ~ transition_write
                   (progressUpdate (Some "analyzing") (30 + call_progress c * (2 # 10))))
      by (apply (analysis_write_not_transition (call_progress c) Hc)).
    destruct (db_rejects w _);
      match goal with
      | |- context [replay w rest ?t] =>
          destruct (IH Hrest t) as (A & -> & HA)
      end;
      eexists; rewrite <- !app_assoc;
      (split; [reflexivity |]);
      (unfold interlude; simpl; constructor; [exact I |];
       constructor; [exact Hw | exact HA]).
Qed.

(** The analysis of the orchestrator returns [quietVerdict]. *)
Lemma runAnalysis_run w metadata tr :
  exists A, runAnalysis w metadata tr
            = (tr ++ A, Returned (quietVerdict (analysis w) metadata)) /\
            interlude A.
Proof.
  unfold runAnalysis.
  destruct (analyzeVideoSensitivity_quiet (analysis w) metadata (Some (fun _ => false)))
    as (st & Hrun & _); [intros k; reflexivity |].
  pose proof (analysis_progress_ramp (analysis w) (Some metadata) (Some (fun _ => false)))
    as [_ Hr].
  rewrite Hrun in *. simpl in Hr. unfold callProgress in Hr. rewrite Forall_map in Hr.
  destruct (replay_run w (calls st) Hr tr) as (A & HA & Hint).
  exists A. unfold bind. rewrite HA. split; [reflexivity | exact Hint].
Qed.

Lemma transcodeEvents_run ps :
  forall tr, exists T, transcodeEvents ps tr = (tr ++ T, Returned tt) /\ events_only T.
Proof.
  induction ps as [| p rest IH]; intros tr; simpl.
  - exists []. rewrite app_nil_r. split; [reflexivity | constructor].
  - unfold bind at 1, onTranscodeProgress, emitVideoProgress, modify.
    match goal with
    | |- context [transcodeEvents rest ?t] => destruct (IH t) as (T & -> & HT)
    end.
    eexists. rewrite <- app_assoc. split; [reflexivity |].
    constructor; [exact I | exact HT].
Qed.

(** From the "finalizing" transition on. *)
Lemma finalizing_run w (v : Verdict) tr :
  exists rest4,
    fst (try_catch
           (emitVideoProgress 95 "finalizing" noDetails ;;
            findByIdAndUpdate w (progressUpdate None 95) ;;
            findByIdAndUpdate w (finalUpdate v) ;;
            emitVideoComplete (successEvent v))
           (processFailed w) tr)
    = tr ++ transitionActions "finalizing" None 95 (applied w (issued tr)) ++ rest4.
Proof.
  rewrite try_catch_bind, emitVideoProgress_run.
  rewrite try_catch_bind, findByIdAndUpdate_run.
  rewrite issued_app. change (issued [Emit (stageEvent "finalizing" 95)]) with 0%nat.
  rewrite Nat.add_0_r.
  destruct (db_rejects w (issued tr)) as [message |].
  - match goal with
    | |- context [processFailed w message ?t] =>
        destruct (processFailed_run w message t) as (rest & ->)
    end.
    exists rest. rewrite <- !app_assoc. reflexivity.
  - rewrite try_catch_bind, findByIdAndUpdate_run.
    match goal with
    | |- context [db_rejects w ?k] => destruct (db_rejects w k) as [message |]
    end.
    + match goal with
      | |- context [processFailed w message ?t] =>
          destruct (processFailed_run w message t) as (rest & ->)
      end.
      eexists. rewrite <- !app_assoc. reflexivity.
    + unfold try_catch, emitVideoComplete, modify. simpl.
      eexists. rewrite <- !app_assoc. reflexivity.
Qed.

(** From the "compressing" transition on. *)
Lemma compressing_run w (v : Verdict) tr :
  exists rest3,
    fst (try_catch
           (emitVideoProgress 50 "compressing" noDetails ;;
            findByIdAndUpdate w (progressUpdate None 50) ;;
            processVideoForStreaming w ;;
            emitVideoProgress 95 "finalizing" noDetails ;;
            findByIdAndUpdate w (progressUpdate None 95) ;;
            findByIdAndUpdate w (finalUpdate v) ;;
            emitVideoComplete (successEvent v))
           (processFailed w) tr)
    = tr ++ transitionActions "compressing" None 50 (applied w (issued tr)) ++ rest3 /\
    (applied w (issued tr) = true -> transcode_error w = None ->
     exists T rest4,
       events_only T /\
       rest3 = T ++ transitionActions "finalizing" None 95
                      (applied w (S (issued tr))) ++ rest4).
Proof.
  rewrite try_catch_bind, emitVideoProgress_run.
  rewrite try_catch_bind, findByIdAndUpdate_run.
  rewrite issued_app. change (issued [Emit (stageEvent "compressing" 50)]) with 0%nat.
  rewrite Nat.add_0_r.
  destruct (db_rejects w (issued tr)) as [message |] eqn:Edb.
  - match goal with
    | |- context [processFailed w message ?t] =>
        destruct (processFailed_run w message t) as (rest & ->)
    end.
    exists rest. rewrite <- !app_assoc. split; [reflexivity |].
    unfold applied at 1. rewrite Edb. discriminate.
  - rewrite try_catch_bind. unfold processVideoForStreaming, bind at 1.
    match goal with
    | |- context [transcodeEvents _ ?t] =>
        destruct (transcodeEvents_run (transcode_percent w) t) as (T & -> & HT);
        set (tr3 := t)
    end.
    destruct (transcode_error w) as [message |] eqn:Eerr.
    + unfold raise.
      destruct (processFailed_run w message (tr3 ++ T)) as (rest & ->).
      exists (T ++ rest). subst tr3. rewrite <- !app_assoc.
      split; [reflexivity |]. intros _ H. discriminate H.
    + unfold ret.
      destruct (finalizing_run w v (tr3 ++ T)) as (rest4 & ->).
      assert (Hk : issued (tr3 ++ T) = S (issued tr)).
      { subst tr3. rewrite !issued_app. simpl.
        assert (HT0 : issued T = 0%nat).
        { clear -HT. unfold issued. induction HT as [| a T Ha _ IH]; [reflexivity |].
          destruct a; simpl; try contradiction. exact IH. }
        rewrite HT0. unfold issued at 2 3. simpl. lia. }
      rewrite Hk.
      exists (T ++ transitionActions "finalizing" None 95 (applied w (S (issued tr))) ++ rest4).
      subst tr3. rewrite <- !app_assoc. split; [reflexivity |].
      intros _ _. exists T, rest4. split; [exact HT | reflexivity].
Qed.

(** Every job goes through its transitions in order, as far as it
    gets. *)
Lemma processVideoAsync_transitions w metadata :
  transitions_in_order w (fst (processVideoAsync w metadata)).
Proof.
  unfold transitions_in_order, processVideoAsync, processBody.
  rewrite try_catch_bind, emitVideoProgress_run.
  rewrite try_catch_bind, findByIdAndUpdate_run.
  change (issued ([] ++ [Emit (stageEvent "processing" 10)])) with 0%nat.
  destruct (db_rejects w 0) as [message |] eqn:E0.
  { match goal with
    | |- context [processFailed w message ?t] =>
        destruct (processFailed_run w message t) as (rest & ->)
    end.
    exists rest. split; [reflexivity |].
    unfold applied at 1. rewrite E0. discriminate. }
  rewrite try_catch_bind, emitVideoProgress_run.
  rewrite try_catch_bind, findByIdAndUpdate_run.
  match goal with
  | |- context [db_rejects w (issued ?t)] => change (issued t) with 1%nat
  end.
  destruct (db_rejects w 1) as [message |] eqn:E1.
  { match goal with
    | |- context [processFailed w message ?t] =>
        destruct (processFailed_run w message t) as (rest & ->)
    end.
    eexists. split; [reflexivity |]. intros _.
    exists rest. split; [reflexivity |].
    unfold applied at 1. rewrite E1. discriminate. }
  rewrite try_catch_bind.
  match goal with
  | |- context [runAnalysis w metadata ?t] =>
      destruct (runAnalysis_run w metadata t) as (A & -> & HA); set (tr2 := t)
  end.
  destruct (compressing_run w (quietVerdict (analysis w) metadata) (tr2 ++ A))
    as (rest3 & Hrun & Hnext).
  match goal with
  | |- context [fst ?X] =>
      change (fst X)
        with (fst (try_catch
                     (emitVideoProgress 50 "compressing" noDetails ;;
                      findByIdAndUpdate w (progressUpdate None 50) ;;
                      processVideoForStreaming w ;;
                      emitVideoProgress 95 "finalizing" noDetails ;;
                      findByIdAndUpdate w (progressUpdate None 95) ;;
                      findByIdAndUpdate w (finalUpdate (quietVerdict (analysis w) metadata)) ;;
                      emitVideoComplete (successEvent (quietVerdict (analysis w) metadata)))
                     (processFailed w) (tr2 ++ A)))
  end.
  rewrite Hrun. clear Hrun.
  assert (Hk : issued (tr2 ++ A) = (2 + issued A)%nat).
  { subst tr2. rewrite issued_app. reflexivity. }
  rewrite Hk in *.
  eexists. split; [subst tr2; simpl; reflexivity |]. intros _.
  eexists. split; [reflexivity |]. intros _.
  exists A, rest3. split; [exact HA |]. split; [reflexivity |].
  exact Hnext.
Qed.

(** * The claims *)

(** ** Classifier *)

(** C7, as the code has it.  For a frame scored by the categorical
    backend: explicit iff adult is possible-or-above or racy is
    likely-or-above; violent iff violence is possible-or-above; confidence
    is 0.9 when adult or violence is possible-or-above, and 0.5 when the
    frame is neither explicit nor violent. *)
Theorem categorical_verdict (safeSearch : SafeSearch) :
  let r := safeSearchVerdict safeSearch in
  isExplicit r = possibleOrAbove (adult safeSearch) || likelyOrAbove (racy safeSearch) /\
  isViolent r = possibleOrAbove (violence safeSearch) /\
  (if possibleOrAbove (adult safeSearch) || possibleOrAbove (violence safeSearch)
   then confidence r = 9 # 10
   else if isExplicit r then True else confidence r = 1 # 2).
Proof.
  unfold safeSearchVerdict, possibleOrAbove, likelyOrAbove. simpl.
  destruct (adult safeSearch =? "VERY_LIKELY"), (adult safeSearch =? "LIKELY"),
    (adult safeSearch =? "POSSIBLE"), (violence safeSearch =? "VERY_LIKELY"),
    (violence safeSearch =? "LIKELY"), (violence safeSearch =? "POSSIBLE"),
    (racy safeSearch =? "VERY_LIKELY"), (racy safeSearch =? "LIKELY");
    simpl; repeat split.
Qed.

(** C7 as stated fails: an adult level of "POSSIBLE", which is below
    "LIKELY", is scored explicit. *)
Lemma possible_adult_is_explicit :
  ~ categoricalRule possibleAdult (safeSearchVerdict possibleAdult).
Proof. intros [H _]. discriminate H. Qed.

(** The categorical verdict is what [analyzeFrame] returns when the
    probabilistic backend is not configured, or fails, and the categorical
    one answers. *)
Lemma analyzeFrame_categorical hasSightengine fe safeSearch :
  vision fe = inr (Some safeSearch) ->
  hasSightengine = false \/ (exists err, sightengine fe = inl err) ->
  analyzeFrame hasSightengine true fe = safeSearchVerdict safeSearch.
Proof.
  intros Hv Hs. unfold analyzeFrame, analyzeFrameSightengine. rewrite Hv.
  destruct Hs as [-> | [err ->]]; [reflexivity |].
  destruct hasSightengine; reflexivity.
Qed.

(** A frame flagged through the racy level alone gets confidence 0.5. *)
Lemma racy_alone_confidence :
  let r := safeSearchVerdict {| adult := "UNLIKELY"; violence := "UNLIKELY";
                                racy := "LIKELY" |} in
  isExplicit r = true /\ confidence r = 1 # 2.
Proof. split; reflexivity. Qed.

(** ** Consumer *)

(** C8.  After any sequence of events from any state, the next event
    acts on the records held (the ref when it holds any, else the
    rendered list; from a state where ref and rendered list go together,
    the records held are the rendered list).  If the event carries no
    frame record, the records held stay as they are, and the rendered
    list is the records held (the state is untouched when the event has
    no frame data at all).  If it carries one (numbered from 1, as frame
    records are), the rendered list, which is also the new ref, is the
    other records held plus the new one, exactly one entry has its
    number, and the list is sorted by frame number. *)
Theorem frames_accumulate (st : State) (events : list ProgressData) (data : ProgressData) :
  (forall r, data_frameResult data = Some r -> (1 <= frameNumber r)%nat) ->
  let s := onVideoProgressAll st events in
  let s' := onVideoProgress s data in
  (in_step st -> existingFrameResults s = shown s /\ in_step s') /\
  match data_frameResult data with
  | None => existingFrameResults s' = existingFrameResults s /\
            (if hasFrameData data then shown s' = existingFrameResults s else s' = s)
  | Some r => shown s' = existingFrameResults s' /\
              frameResultsRef s' = shown s' /\
              Permutation (shown s') (r :: others r (existingFrameResults s)) /\
              sameNumber r (shown s') = [r] /\
              Sorted byFrameNumber (shown s')
  end.
Proof.
  intros Hnum s s'. split.
  - intros Hst.
    assert (Hs : in_step s).
    { subst s. unfold onVideoProgressAll. clear s'. revert st Hst.
      induction events as [| e rest IH]; intros st Hst; simpl; [exact Hst |].
      apply IH. apply onVideoProgress_in_step. exact Hst. }
    split; [apply in_step_held; exact Hs | apply onVideoProgress_in_step; exact Hs].
  - subst s'. generalize s. clear s st events. intros st.
    unfold onVideoProgress, shown.
    destruct (data_frameResult data) as [r |] eqn:Hr.
    + assert (Hdata : hasFrameData data = true).
      { unfold hasFrameData. rewrite Hr.
        destruct (data_currentFrame data), (data_totalFrames data); reflexivity. }
      rewrite Hdata.
      specialize (Hnum r eq_refl).
      destruct (frameNumber r =? 0)%nat eqn:H0; [apply Nat.eqb_eq in H0; lia |].
      rewrite existingFrameResults_synced by reflexivity. cbn [analysisDetails ad_frameResults frameResultsRef].
      fold (others r (existingFrameResults st)).
      assert (Hperm : Permutation (sortByFrameNumber (others r (existingFrameResults st) ++ [r]))
                        (r :: others r (existingFrameResults st))).
      { eapply perm_trans; [apply sortByFrameNumber_perm |].
        apply Permutation_sym, Permutation_cons_append. }
      split; [reflexivity |]. split; [reflexivity |].
      split; [exact Hperm |]. split; [| apply sortByFrameNumber_sorted].
      apply (Permutation_filter (fun f => (frameNumber f =? frameNumber r)%nat)) in Hperm.
      simpl in Hperm. rewrite Nat.eqb_refl in Hperm.
      fold (sameNumber r (others r (existingFrameResults st))) in Hperm.
      rewrite sameNumber_others in Hperm.
      apply Permutation_length_1_inv. apply Permutation_sym. exact Hperm.
    + destruct (hasFrameData data); [| split; reflexivity].
      split; [apply existingFrameResults_synced; reflexivity | reflexivity].
Qed.

(** An instance of C8: frame 2 is held and rendered, and a new record
    for frame 2 arrives: the rendered list holds the new record only. *)
Lemma frames_accumulate_witness :
  shown (onVideoProgress holding2 event_again2) = [again2] /\
  frameResultsRef (onVideoProgress holding2 event_again2) = [again2] /\
  Sorted byFrameNumber (shown (onVideoProgress holding2 event_again2)).
Proof.
  destruct (frames_accumulate holding2 [] event_again2) as (_ & _ & Href & Hperm & _ & Hsorted).
  - intros r H. injection H as <-. simpl. lia.
  - simpl in *. apply Permutation_sym, Permutation_length_1_inv in Hperm.
    rewrite Href, Hperm. auto.
Defined.

(** ** Sensitivity analysis *)

(** C10.  For every environment, metadata (present or not) and callback
    (absent, quiet or throwing), the analysis returns a verdict; its
    status is "safe" or "flagged"; and when the [try] block raises, the
    verdict is the "Analysis error" one, flagged with confidence 0.5. *)
Theorem analysis_total (env : Env) (metadata : option Metadata) (cb : Callback) :
  exists st v,
    analyzeVideoSensitivity env metadata cb = (st, Returned v) /\
    (status v = "safe" \/ status v = "flagged") /\
    match snd (analysisBody env metadata cb initial) with
    | Returned v' => v = v'
    | Raised _ => v = analysisErrorVerdict /\ status v = "flagged" /\ v_confidence v = 1 # 2
    end.
Proof.
  unfold analyzeVideoSensitivity, try_catch.
  pose proof (analysisBody_status env metadata cb initial I) as H.
  destruct (analysisBody env metadata cb initial) as [st [v | msg]]; simpl.
  - exists st, v. auto.
  - exists st, analysisErrorVerdict. repeat split. right. reflexivity.
Qed.

(** The error path of C10 is taken, for instance, when [metadata] is
    missing. *)
Lemma analysis_error_example :
  analyzeVideoSensitivity env_calm None None = (initial, Returned analysisErrorVerdict).
Proof. reflexivity. Qed.

(** C4, as the code has it.  When no internal error occurs (the
    callback is absent or does not throw), status and confidence of the
    verdict are those of the aggregator rules, applied to: backend
    availability, the duration, the number of frames extracted
    ([frames.length], which the ratios are taken over), and the numbers
    of explicit and violent frame records; and without a backend no
    frame is sampled. *)
Theorem verdict_follows_rules (env : Env) (metadata : Metadata) (cb : Callback) :
  quiet cb ->
  exists st v,
    analyzeVideoSensitivity env (Some metadata) cb = (st, Returned v) /\
    (status v, v_confidence v)
    = aggregatorRules (hasSightengine env || hasGoogleVision env) (duration metadata)
        (List.length (sampled env metadata))
        (explicitRecords (frameResults st)) (violentRecords (frameResults st)) /\
    (if hasSightengine env || hasGoogleVision env then True
     else frameResults st = [] /\ frameAnalysis v = None).
Proof.
  intros Hq.
  destruct (analyzeVideoSensitivity_quiet env metadata cb Hq) as (st & Hrun & Hrecords).
  exists st, (quietVerdict env metadata). split; [exact Hrun |].
  rewrite Hrecords. unfold quietVerdict, quietRecords, aggregatorRules.
  destruct (hasSightengine env || hasGoogleVision env); simpl; [| auto].
  rewrite short_duration.
  destruct (Qltb (duration metadata) 3); simpl; [auto |].
  split; [| exact I].
  destruct (sampled env metadata) as [| f rest] eqn:Hs; [reflexivity |].
  change (List.length (f :: rest) =? 0)%nat with false. cbv iota.
  unfold aggregate, tallied, threshold. cbn [explicitCount violentCount frameResults].
  rewrite Qltb_Math_max.
  destruct (Qltb (15 # 100) _ || Qltb (15 # 100) _); [reflexivity |].
  destruct ((0 <? _)%nat || (0 <? _)%nat); reflexivity.
Qed.

(** An instance of C4: four harmless frames of an 8 second video. *)
Lemma verdict_follows_rules_witness :
  exists st v,
    analyzeVideoSensitivity env_calm (Some video8) (Some (fun _ => false))
    = (st, Returned v) /\
    (status v, v_confidence v)
    = aggregatorRules true 8 (List.length (sampled env_calm video8))
        (explicitRecords (frameResults st)) (violentRecords (frameResults st)) /\
    True.
Proof.
  apply (verdict_follows_rules env_calm video8 (Some (fun _ => false))).
  simpl. intros k. reflexivity.
Defined.

(** C4 as stated fails: the ratios are not taken over the planned frame
    count.  Ten frames are planned for 50 seconds; six are written and
    one of them is explicit: the verdict is flagged with confidence 1/6,
    where the rules over the planned count give 0.7. *)
Lemma ratio_over_extracted_frames :
  frameCount (duration video50) = 10%nat /\
  ~ rules_over_planned_count env_six_of_ten video50 (Some (fun _ => false)).
Proof.
  split; [reflexivity |]. intros H.
  destruct (analyzeVideoSensitivity env_six_of_ten (Some video50) (Some (fun _ => false)))
    as [st out] eqn:Hrun.
  assert (Hout : exists v, out = Returned v /\ v_confidence v = 1 # 6 /\
                           explicitRecords (frameResults st) = 1%nat /\
                           violentRecords (frameResults st) = 0%nat).
  { vm_compute in Hrun. injection Hrun as <- <-. eexists. split; [reflexivity |].
    vm_compute. auto. }
  destruct Hout as (v & -> & Hc & He & Hv).
  destruct (H st v Hrun) as [_ Hconf].
  rewrite Hc, He, Hv in Hconf. vm_compute in Hconf. discriminate Hconf.
Qed.

(** The scenarios of the specification for the aggregator, run on the
    analysis with the callback of the orchestrator. *)
Lemma four_calm_frames_safe :
  match snd (analyzeVideoSensitivity env_calm (Some video8) (Some (fun _ => false))) with
  | Returned v => status v = "safe" /\ v_confidence v = 85 # 100 /\
                  option_map fs_totalFrames (frameAnalysis v) = Some 4%nat
  | Raised _ => False
  end.
Proof. vm_compute. auto. Qed.

Lemma one_nude_frame_of_four_flagged :
  match snd (analyzeVideoSensitivity env_one_nude (Some video8) (Some (fun _ => false))) with
  | Returned v => status v = "flagged" /\ v_confidence v == 25 # 100 /\
                  v_reasons v = [ExplicitIn 1 4 (num 1 / num 4)]
  | Raised _ => False
  end.
Proof. vm_compute. repeat split; discriminate. Qed.

Lemma one_nude_frame_of_ten_flagged :
  match snd (analyzeVideoSensitivity env_one_nude (Some video50) (Some (fun _ => false))) with
  | Returned v => status v = "flagged" /\ v_confidence v = 7 # 10 /\
                  option_map fs_totalFrames (frameAnalysis v) = Some 10%nat
  | Raised _ => False
  end.
Proof. vm_compute. auto. Qed.

Lemma no_backend_flagged :
  analyzeVideoSensitivity env_no_backend (Some video8) None = (initial, Returned noApiVerdict).
Proof. reflexivity. Qed.

Lemma two_seconds_safe :
  analyzeVideoSensitivity env_calm (Some video2) None = (initial, Returned tooShortVerdict).
Proof. reflexivity. Qed.




(** C6, as the code has it.  With a backend available, a duration of at
    least 3 seconds, a callback that does not throw and every frame file
    deleted without error: the frame numbers are exactly 1 to n, where n,
    the number of usable frames, is at most [frameCount] and, when the
    extraction succeeds, is the number of requested frames whose file was
    written. *)
Theorem frame_numbers_contiguous (env : Env) (metadata : Metadata) (cb : Callback) :
  quiet cb ->
  hasSightengine env || hasGoogleVision env = true ->
  3 <= duration metadata ->
  Forall (fun f => cleanup_ok (frame_env f) = true) (sampled env metadata) ->
  exists st v,
    analyzeVideoSensitivity env (Some metadata) cb = (st, Returned v) /\
    map frameNumber (frameResults st) = seq 1 (List.length (sampled env metadata)) /\
    (List.length (sampled env metadata) <= frameCount (duration metadata) <= 20)%nat /\
    match planned env metadata with
    | Returned frames =>
        List.length frames
        = List.length (filter (written env) (seq 0 (frameCount (duration metadata))))
    | Raised _ => True
    end /\
    match frameAnalysis v with
    | Some s => fs_frameResults s = frameResults st /\
                fs_totalFrames s = List.length (sampled env metadata)
    | None => sampled env metadata = []
    end.
Proof.
  intros Hq Hb HD Hclean.
  destruct (analyzeVideoSensitivity_quiet env metadata cb Hq) as (st & Hrun & Hrecords).
  exists st, (quietVerdict env metadata). split; [exact Hrun |].
  unfold quietRecords in Hrecords. unfold quietVerdict.
  rewrite Hb, (long_enough _ HD) in *. simpl in *. rewrite Hrecords.
  split; [apply (frameRecords_numbers env _ 0%nat Hclean) |].
  split; [split; [apply sampled_length; exact HD | apply frameCount_bounds] |].
  split; [apply planned_length; exact HD |].
  destruct (sampled env metadata) as [| f rest]; [reflexivity |].
  unfold aggregate.
  destruct (Qltb threshold _ || Qltb threshold _); [split; reflexivity |].
  destruct ((0 <? _)%nat || (0 <? _)%nat); split; reflexivity.
Qed.

(** An instance of C6: an 8 second video, all four frames written. *)
Lemma frame_numbers_contiguous_witness :
  exists st v,
    analyzeVideoSensitivity env_calm (Some video8) (Some (fun _ => false))
    = (st, Returned v) /\
    map frameNumber (frameResults st) = [1; 2; 3; 4]%nat.
Proof.
  destruct (frame_numbers_contiguous env_calm video8 (Some (fun _ => false)))
    as (st & v & Hrun & Hnumbers & _).
  - simpl. intros k. reflexivity.
  - reflexivity.
  - unfold Qle. simpl. lia.
  - vm_compute. repeat constructor.
  - exists st, v. split; [exact Hrun | exact Hnumbers].
Defined.

(** C6 as stated fails: 8 seconds ask for 4 frames; ffmpeg writes 3, and
    the records are numbered 1 to 3. *)
Lemma fewer_frames_than_planned :
  ~ frame_numbers_complete env_three_of_four video8 None.
Proof. unfold frame_numbers_complete. vm_compute. discriminate. Qed.

(** When deleting a classified frame file fails, the frame gets a second
    record with the same number. *)
Lemma cleanup_failure_duplicates :
  let stuck := {| sightengine := inr calm; vision := inl "not configured";
                  stat_ok := true; timed_out := false; cleanup_ok := false |} in
  let env := {| hasSightengine := true; hasGoogleVision := false;
                extraction_timeout := false; ffmpeg_error := None;
                frame_file := fun _ => Some stuck |} in
  map frameNumber
      (frameResults (fst (analyzeVideoSensitivity env
                            (Some {| duration := 3; size := 1; hasAudio := true |}) None)))
  = [1; 1]%nat.
Proof. vm_compute. reflexivity. Qed.

(** ** Orchestrator *)

(** C1, as the code has it.  Every job goes through its non-terminal
    transitions in this way: it emits the event of the transition and
    then issues the write of the transition, next to each other ("processing"
    with progress 10 and "analyzing" with progress 30 write the stage
    and the progress; "compressing" and "finalizing" write the progress
    50 and 95 only); a transition is reached when the write before it
    was applied and, for "finalizing", the transcode did not fail.
    Wherever the status and progress of a transition are written, the
    event of that transition is the action just before the write
    (notify precedes write).  The first action of a job is the
    "processing" event, and its trace ends with the terminal write
    followed by the terminal event. *)
Theorem notify_precedes_write_always (w : World) (metadata : Metadata) :
  let tr := fst (processVideoAsync w metadata) in
  transitions_in_order w tr /\
  notify_precedes_write tr /\
  (exists rest, tr = Emit (stageEvent "processing" 10) :: rest) /\
  (exists tr0 u ok e, tr = tr0 ++ [Write u ok; Complete e] /\
                      u_status u = Some (ce_status e)).
Proof.
  simpl. split; [apply processVideoAsync_transitions |].
  split; [apply processVideoAsync_order |].
  split; [apply processVideoAsync_head |].
  destruct (processVideoAsync_shape w metadata) as (tr0 & u & ok & e & Hrun & _ & Hu & _).
  exists tr0, u, ok, e. rewrite Hrun. auto.
Qed.

(** An instance of C1: in a job where everything works, the four
    transitions follow each other, each event next to its write. *)
Lemma notify_precedes_write_always_witness :
  exists A T rest,
    interlude A /\ events_only T /\
    fst (processVideoAsync world_ok video8) =
      transitionActions "processing" (Some "processing") 10 true
      ++ transitionActions "analyzing" (Some "analyzing") 30 true
      ++ A ++ transitionActions "compressing" None 50 true
      ++ T ++ transitionActions "finalizing" None 95 true ++ rest.
Proof.
  destruct (notify_precedes_write_always world_ok video8)
    as ((rest1 & H1 & Hnext1) & _).
  destruct (Hnext1 eq_refl) as (rest2 & -> & Hnext2).
  destruct (Hnext2 eq_refl) as (A & rest3 & HA & -> & Hnext3).
  destruct (Hnext3 eq_refl eq_refl) as (T & rest4 & HT & ->).
  exists A, T, rest4. split; [exact HA |]. split; [exact HT |]. exact H1.
Defined.

(** C1 as stated fails: nothing is written before the "processing"
    event. *)
Lemma processing_event_before_any_write :
  ~ write_precedes_notify (fst (processVideoAsync world_ok video8)).
Proof.
  intros H.
  destruct (processVideoAsync_head world_ok video8) as [rest Hrest].
  destruct (H (stageEvent "processing" 10) (Some "processing") 10 [] rest)
    as (u & ok & Hin & _).
  - simpl. auto.
  - exact Hrest.
  - destruct Hin.
Qed.

(** C2, as the code has it.  When the percentages the transcoder reports
    are non-negative and never decrease, the progress values of the
    events emitted and the writes applied by the [try] block never
    decrease.  A job that does not fail does nothing else; a job that
    fails then writes status "failed" with progress 0 and emits the
    terminal event. *)
Theorem progress_nondecreasing_until_failure (w : World) (metadata : Metadata) :
  StronglySorted Qle (transcode_percent w) ->
  Forall (fun p => 0 <= p) (transcode_percent w) ->
  match processBody w metadata [] with
  | (tr, Returned _) =>
      fst (processVideoAsync w metadata) = tr /\
      StronglySorted Qle (progress_values tr)
  | (tr, Raised message) =>
      (exists ok, fst (processVideoAsync w metadata)
                  = tr ++ [Write failedUpdate ok; Complete (failedEvent message)]) /\
      StronglySorted Qle (progress_values tr)
  end.
Proof.
  intros Hs Hpos.
  pose proof (processBody_ramp w metadata Hs Hpos [] (ramp_nil 10 10)) as Hramp.
  destruct (processVideoAsync_shape w metadata) as (tr0 & u & ok & e & Hrun & _ & _ & Hbody).
  rewrite Hrun. simpl.
  destruct (processBody w metadata []) as [tr [[] | message]].
  - destruct Hbody as (-> & _). split; [reflexivity | apply Hramp].
  - destruct Hbody as (-> & -> & ->). split; [exists ok; reflexivity | apply Hramp].
Qed.

(** An instance of C2: a job where everything works. *)
Lemma progress_nondecreasing_until_failure_witness :
  match processBody world_ok video8 [] with
  | (tr, Returned _) =>
      fst (processVideoAsync world_ok video8) = tr /\
      StronglySorted Qle (progress_values tr)
  | (tr, Raised message) =>
      (exists ok, fst (processVideoAsync world_ok video8)
                  = tr ++ [Write failedUpdate ok; Complete (failedEvent message)]) /\
      StronglySorted Qle (progress_values tr)
  end.
Proof.
  apply (progress_nondecreasing_until_failure world_ok video8).
  - simpl. repeat constructor; unfold Qle; simpl; lia.
  - simpl. repeat constructor; unfold Qle; simpl; lia.
Defined.

Lemma StronglySorted_last (l : list Q) : forall a d,
  StronglySorted Qle (a :: l) -> a <= last (a :: l) d.
Proof.
  induction l as [| b rest IH]; intros a d H.
  - simpl. apply Qle_refl.
  - inversion H as [| ? ? Hs Hf]; subst. inversion Hf as [| ? ? Hab _]; subst.
    change (last (a :: b :: rest) d) with (last (b :: rest) d).
    eapply Qle_trans; [exact Hab | apply IH; exact Hs].
Qed.

(** C2 as stated fails: when the transcode fails, the failure handler
    writes progress 0 after the job had reached 70. *)
Lemma progress_reset_on_failure :
  ~ StronglySorted Qle (progress_values (fst (processVideoAsync world_transcode_fails video8))).
Proof.
  intros H.
  remember (progress_values (fst (processVideoAsync world_transcode_fails video8))) as l eqn:Hl.
  assert (Hshape : exists rest, l = 10 :: rest /\ last (10 :: rest) 0 = 0).
  { rewrite Hl. vm_compute. eexists. split; reflexivity. }
  destruct Hshape as (rest & -> & Hlast).
  apply (StronglySorted_last rest 10 0) in H. rewrite Hlast in H.
  unfold Qle in H. simpl in H. lia.
Qed.





(** * Further properties *)

(** ** Frame sampler: the timestamps *)

Lemma existing_Forall (P : Q -> Prop) env ts : forall k,
  Forall P ts -> Forall P (map timestamp (existing env k ts)).
Proof.
  induction ts as [| t rest IH]; intros k H; simpl.
  - constructor.
  - inversion H; subst. destruct (frame_file env k); simpl; [constructor |]; auto.
Qed.

Lemma existing_StronglySorted (R : Q -> Q -> Prop) env ts : forall k,
  StronglySorted R ts -> StronglySorted R (map timestamp (existing env k ts)).
Proof.
  induction ts as [| t rest IH]; intros k H; simpl.
  - constructor.
  - inversion H as [| ? ? Hs Hf]; subst.
    destruct (frame_file env k); simpl; [| apply IH; exact Hs].
    constructor; [apply IH; exact Hs | apply existing_Forall; exact Hf].
Qed.

Lemma frameInterval_cases D : frameInterval D = 2 \/ frameInterval D = 5.
Proof. unfold frameInterval. destruct (Qltb D 10); auto. Qed.

(** Below [frameCount] frames, frame [i] and the interval after it fit in
    the video. *)
Lemma frame_fits D i :
  3 <= D -> (i < frameCount D)%nat -> num i * frameInterval D + frameInterval D <= D.
Proof.
  intros HD Hi.
  assert (Hint : 0 < frameInterval D) by (destruct (frameInterval_cases D) as [-> | ->]; lra).
  assert (Hfloor : (1 <= Qfloor (D / frameInterval D))%Z).
  { change 1%Z with (Qfloor 1). apply Qfloor_resp_le.
    apply Qle_shift_div_l; [exact Hint |].
    unfold frameInterval. destruct (Qltb D 10) eqn:H10; [lra |].
    apply Qltb_ge in H10. lra. }
  assert (Hcount : (Z.of_nat (S i) <= Qfloor (D / frameInterval D))%Z).
  { rewrite frameCount_clampFrames in Hi. unfold clampFrames in Hi. lia. }
  assert (Hq : num (S i) <= D / frameInterval D).
  { eapply Qle_trans; [| apply Qfloor_le]. unfold num. rewrite <- Zle_Qle. exact Hcount. }
  assert (Hmul : num (S i) * frameInterval D <= D).
  { apply (Qmult_le_r _ _ (frameInterval D)) in Hq; [| exact Hint].
    eapply Qle_trans; [exact Hq |].
    unfold Qdiv. rewrite <- Qmult_assoc, (Qmult_comm (/ frameInterval D)), Qmult_inv_r.
    - rewrite Qmult_1_r. apply Qle_refl.
    - intros H0. rewrite H0 in Hint. apply (Qlt_irrefl 0 Hint). }
  assert (HS : num (S i) == num i + 1).
  { unfold num. rewrite Nat2Z.inj_succ, <- Z.add_1_r, inject_Z_plus. reflexivity. }
  rewrite HS in Hmul. lra.
Qed.

Lemma timestamps_unclamped D :
  3 <= D ->
  timestamps D (frameInterval D) (frameCount D)
  = map (fun i => num i * frameInterval D) (seq 0 (frameCount D)).
Proof.
  intros HD. unfold timestamps. apply map_ext_in. intros i Hi.
  apply in_seq in Hi. pose proof (frame_fits D i HD ltac:(lia)) as Hfit.
  unfold Math_min.
  destruct (Qle_bool (num i * frameInterval D) (D - 1)) eqn:Hle; [reflexivity |].
  exfalso. assert (H : num i * frameInterval D <= D - 1).
  { destruct (frameInterval_cases D) as [Hi2 | Hi5]; rewrite ?Hi2, ?Hi5 in *; lra. }
  apply Qle_bool_iff in H. congruence.
Qed.

Lemma progression_sorted (step : Q) n : forall k,
  0 < step ->
  StronglySorted Qlt (map (fun i => num i * step) (seq k n)).
Proof.
  induction n as [| n IH]; intros k Hstep; simpl.
  - constructor.
  - constructor; [apply IH; exact Hstep |].
    rewrite Forall_map. apply Forall_forall. intros j Hj. apply in_seq in Hj.
    assert (Hkj : num k < num j).
    { unfold num. rewrite <- Zlt_Qlt. lia. }
    apply Qmult_lt_r; assumption.
Qed.

(** X1.  For a video of at least 3 seconds, the frames the extraction
    returns have strictly increasing timestamps (so no two frames share a
    file name), each a multiple of the interval that [Math.min] did not
    clamp, and each leaving a whole interval before the end of the
    video. *)
Theorem sampled_timestamps_increasing (env : Env) (metadata : Metadata)
    (frames : list Frame) :
  3 <= duration metadata ->
  planned env metadata = Returned frames ->
  StronglySorted Qlt (map timestamp frames) /\
  Forall (fun t => 0 <= t /\
                   t + frameInterval (duration metadata) <= duration metadata /\
                   exists i, (i < frameCount (duration metadata))%nat /\
                             t = num i * frameInterval (duration metadata))
         (map timestamp frames).
Proof.
  intros HD Hplanned.
  assert (Hint : 0 < frameInterval (duration metadata))
    by (destruct (frameInterval_cases (duration metadata)) as [-> | ->]; lra).
  unfold planned, raceExtractFrames, extractFrames in Hplanned.
  destruct (extraction_timeout env); [discriminate |].
  assert (H0 : Qeq_bool (duration metadata) 0 = false).
  { destruct (Qeq_bool (duration metadata) 0) eqn:H; [| reflexivity].
    apply Qeq_bool_iff in H. lra. }
  rewrite H0, clampFrames_idem in Hplanned.
  pose proof (clampFrames_pos (duration metadata) (frameInterval (duration metadata)) 20) as Hpos.
  destruct (clampFrames _ _ 20 =? 0)%Z eqn:Hz; [apply Z.eqb_eq in Hz; lia |].
  destruct (ffmpeg_error env); [discriminate |].
  injection Hplanned as <-.
  rewrite <- frameCount_clampFrames, (timestamps_unclamped _ HD).
  split.
  - apply existing_StronglySorted. apply progression_sorted. exact Hint.
  - apply existing_Forall. rewrite Forall_map. apply Forall_forall.
    intros i Hi. apply in_seq in Hi.
    split; [| split].
    + apply Qmult_le_0_compat; [| lra].
      replace 0 with (num 0) by reflexivity. apply num_le. lia.
    + apply frame_fits; [exact HD | lia].
    + exists i. split; [lia | reflexivity].
Qed.

(** An instance of X1: the four frames of an 8 second video. *)
Lemma sampled_timestamps_increasing_witness :
  StronglySorted Qlt (map timestamp (sampled env_calm video8)).
Proof.
  apply (sampled_timestamps_increasing env_calm video8 (sampled env_calm video8)).
  - unfold Qle. simpl. lia.
  - reflexivity.
Defined.

(** ** Orchestrator: properties kept through a whole job *)

Section KeptJob.
(** [P] survives an appended event, an appended terminal event, and an
    appended write of a document satisfying [W]; the documents the
    orchestrator writes satisfy [W]. *)
Variable P : Trace -> Prop.
Variable W : Update -> Prop.
Hypothesis P_nil : P [].
Hypothesis P_emit : forall tr e, P tr -> P (tr ++ [Emit e]).
Hypothesis P_complete : forall tr e, P tr -> P (tr ++ [Complete e]).
Hypothesis P_write : forall tr u ok, P tr -> W u -> P (tr ++ [Write u ok]).
Hypothesis W_progress : forall s p, 0 <= p <= 100 -> W (progressUpdate s p).
Hypothesis W_final : forall v, W (finalUpdate v).

Lemma W_analysisWindow c :
  10 <= c <= 100 -> W (progressUpdate (Some "analyzing") (analysisWindow c)).
Proof. intros Hc. apply W_progress. unfold analysisWindow. lra. Qed.

Lemma processBody_kept w metadata :
  spec P (processBody w metadata) (fun _ => P) (fun _ => P).
Proof.
  unfold processBody.
  pose proof (emitVideoProgress_kept P P_emit) as Hemit.
  pose proof (findByIdAndUpdate_kept P W P_write) as Hwrite.
  eapply spec_bind; [apply Hemit |]. intros ?.
  eapply spec_bind; [apply Hwrite, W_progress; lra |]. intros ?.
  eapply spec_bind; [apply Hemit |]. intros ?.
  eapply spec_bind; [apply Hwrite, W_progress; lra |]. intros ?.
  eapply spec_bind; [apply (runAnalysis_kept P W P_emit P_write W_analysisWindow) |].
  intros sensitivityAnalysis.
  eapply spec_bind; [apply Hemit |]. intros ?.
  eapply spec_bind; [apply Hwrite, W_progress; lra |]. intros ?.
  eapply spec_bind; [apply (processVideoForStreaming_kept P P_emit) |]. intros ?.
  eapply spec_bind; [apply Hemit |]. intros ?.
  eapply spec_bind; [apply Hwrite, W_progress; lra |]. intros ?.
  eapply spec_bind; [apply Hwrite, (W_final sensitivityAnalysis) |]. intros ?.
  apply spec_modify. intros tr Htr. apply P_complete. exact Htr.
Qed.

Lemma processVideoAsync_kept w metadata : P (fst (processVideoAsync w metadata)).
Proof.
  unfold processVideoAsync.
  assert (H : spec P (try_catch (processBody w metadata) (processFailed w))
                (fun _ => P) (fun _ => P)).
  { eapply spec_try_catch; [apply processBody_kept |]. intros message.
    unfold processFailed.
    eapply spec_bind.
    - apply (findByIdAndUpdate_catch_kept P W P_write). apply W_progress. lra.
    - intros ?. apply spec_modify. intros tr Htr. apply P_complete. exact Htr. }
  specialize (H [] P_nil).
  destruct (try_catch (processBody w metadata) (processFailed w) []) as [tr [[] | msg]];
    exact H.
Qed.

End KeptJob.

(** X2.  Whatever the database answers and whatever percentages the
    transcoder reports (negative, above 100, in any order), every progress
    value the orchestrator writes to the job record lies within the
    bounds of the schema field, 0 to 100. *)
Theorem writes_within_schema (w : World) (metadata : Metadata) (u : Update) (ok : bool) :
  In (Write u ok) (fst (processVideoAsync w metadata)) -> within_schema u.
Proof.
  revert u ok.
  apply (processVideoAsync_kept
           (fun tr => forall u ok, In (Write u ok) tr -> within_schema u) within_schema).
  - intros u ok [].
  - intros tr e Htr u ok Hin. apply in_app_or in Hin.
    destruct Hin as [Hin | [Hin | []]]; [eapply Htr; exact Hin | discriminate].
  - intros tr e Htr u ok Hin. apply in_app_or in Hin.
    destruct Hin as [Hin | [Hin | []]]; [eapply Htr; exact Hin | discriminate].
  - intros tr u0 ok0 Htr Hu0 u ok Hin. apply in_app_or in Hin.
    destruct Hin as [Hin | [Hin | []]]; [eapply Htr; exact Hin |].
    injection Hin as <- _. exact Hu0.
  - intros s p Hp q Hq. simpl in Hq. injection Hq as <-. exact Hp.
  - intros v q Hq. simpl in Hq. injection Hq as <-. lra.
Qed.

(** An instance of X2: the write of the failure handler, with the
    transcoder failing. *)
Lemma writes_within_schema_witness : within_schema failedUpdate.
Proof.
  apply (writes_within_schema world_transcode_fails video8 failedUpdate true).
  vm_compute.
  repeat match goal with
         | |- _ \/ _ => first [left; reflexivity | right]
         end.
Defined.

(** ** Orchestrator: the outcome of a job *)

(** The analysis the orchestrator runs returns [quietVerdict]: its
    callback never throws. *)
Lemma runAnalysis_verdict (P : Trace -> Prop) w metadata :
  (forall tr e, P tr -> P (tr ++ [Emit e])) ->
  (forall tr u ok, P tr -> P (tr ++ [Write u ok])) ->
  spec P (runAnalysis w metadata)
       (fun v tr => v = quietVerdict (analysis w) metadata /\ P tr) (fun _ => P).
Proof.
  intros P_emit P_write. unfold runAnalysis.
  destruct (analyzeVideoSensitivity_quiet (analysis w) metadata (Some (fun _ => false)))
    as (st & Hrun & _); [intros k; reflexivity |].
  rewrite Hrun.
  pose proof (analysis_progress_ramp (analysis w) (Some metadata) (Some (fun _ => false)))
    as [_ Hr].
  rewrite Hrun in Hr. simpl in Hr. unfold callProgress in Hr. rewrite Forall_map in Hr.
  eapply spec_bind.
  - apply (replay_kept P (fun _ => True) P_emit (fun tr u ok H _ => P_write tr u ok H)
             (fun _ _ => I)). exact Hr.
  - intros ?. apply spec_ret. auto.
Qed.

(** The [try] block: when it returns, the trace ends with the applied
    write of the verdict and the terminal event made from it. *)
Lemma processBody_outcome w metadata :
  spec (fun tr => completions tr = 0%nat) (processBody w metadata)
    (fun _ tr => exists tr0,
        tr = tr0 ++ [Write (finalUpdate (quietVerdict (analysis w) metadata)) true;
                     Complete (successEvent (quietVerdict (analysis w) metadata))] /\
        completions tr0 = 0%nat)
    (fun _ tr => completions tr = 0%nat).
Proof.
  unfold processBody.
  pose proof (emitVideoProgress_kept _ silent_emit) as Hemit.
  pose proof (findByIdAndUpdate_kept _ (fun _ => True) silent_write) as Hwrite.
  eapply spec_bind; [apply Hemit |]. intros ?.
  eapply spec_bind; [apply Hwrite; exact I |]. intros ?.
  eapply spec_bind; [apply Hemit |]. intros ?.
  eapply spec_bind; [apply Hwrite; exact I |]. intros ?.
  eapply spec_bind.
  { apply (runAnalysis_verdict (fun tr => completions tr = 0%nat)).
    - exact silent_emit.
    - intros tr u ok H. apply silent_write; auto. }
  intros sensitivityAnalysis.
  eapply spec_conseq with
    (P := fun tr => sensitivityAnalysis = quietVerdict (analysis w) metadata /\
                    completions tr = 0%nat);
    [| auto | intros ? s H; exact H | intros msg s H; exact H].
  intros tr [-> Htr]. revert tr Htr.
  change (spec (fun tr => completions tr = 0%nat)
            (emitVideoProgress 50 "compressing" noDetails ;;
             findByIdAndUpdate w (progressUpdate None 50) ;;
             processVideoForStreaming w ;;
             emitVideoProgress 95 "finalizing" noDetails ;;
             findByIdAndUpdate w (progressUpdate None 95) ;;
             findByIdAndUpdate w (finalUpdate (quietVerdict (analysis w) metadata)) ;;
             emitVideoComplete (successEvent (quietVerdict (analysis w) metadata)))
            (fun _ tr => exists tr0,
                 tr = tr0 ++ [Write (finalUpdate (quietVerdict (analysis w) metadata)) true;
                              Complete (successEvent (quietVerdict (analysis w) metadata))] /\
                 completions tr0 = 0%nat)
            (fun _ tr => completions tr = 0%nat)).
  eapply spec_bind; [apply Hemit |]. intros ?.
  eapply spec_bind; [apply Hwrite; exact I |]. intros ?.
  eapply spec_bind; [apply (processVideoForStreaming_kept _ silent_emit) |]. intros ?.
  eapply spec_bind; [apply Hemit |]. intros ?.
  eapply spec_bind; [apply Hwrite; exact I |]. intros ?.
  eapply spec_bind with
    (Q := fun _ tr => exists tr0,
              tr = tr0 ++ [Write (finalUpdate (quietVerdict (analysis w) metadata)) true] /\
              completions tr0 = 0%nat).
  - intros tr Htr. unfold findByIdAndUpdate.
    destruct (db_rejects w (issued tr)).
    + apply silent_write; auto.
    + exists tr. split; [reflexivity | exact Htr].
  - intros ?. apply spec_modify. intros tr (tr0 & -> & Hsilent).
    exists tr0. rewrite <- app_assoc. split; [reflexivity | exact Hsilent].
Qed.

(** The whole job, with the terminal write and event spelled out. *)
Lemma processVideoAsync_outcome w metadata :
  exists tr0 u ok e,
    fst (processVideoAsync w metadata) = tr0 ++ [Write u ok; Complete e] /\
    completions tr0 = 0%nat /\
    match snd (processBody w metadata []) with
    | Returned _ => u = finalUpdate (quietVerdict (analysis w) metadata) /\ ok = true /\
                    e = successEvent (quietVerdict (analysis w) metadata)
    | Raised message => u = failedUpdate /\ e = failedEvent message /\
                        ok = match db_rejects w (issued tr0) with
                             | None => true
                             | Some _ => false
                             end
    end.
Proof.
  unfold processVideoAsync, try_catch.
  pose proof (processBody_outcome w metadata [] eq_refl) as H.
  destruct (processBody w metadata []) as [tr [[] | message]]; simpl.
  - destruct H as (tr0 & -> & Hsilent).
    exists tr0. do 3 eexists. split; [reflexivity |]. split; [exact Hsilent |]. auto.
  - unfold processFailed, bind, findByIdAndUpdate_catch, try_catch, findByIdAndUpdate,
      emitVideoComplete, modify, ret.
    exists tr, failedUpdate.
    destruct (db_rejects w (issued tr)); simpl; rewrite <- app_assoc; simpl;
      do 2 eexists; (split; [reflexivity |]); (split; [exact H |]); auto.
Qed.

Lemma persisted_snoc_write tr0 u e :
  persisted (tr0 ++ [Write u true; Complete e]) = apply_update (persisted tr0) u.
Proof. unfold persisted. rewrite fold_left_app. reflexivity. Qed.



Lemma silent_no_complete tr e : completions tr = 0%nat -> ~ In (Complete e) tr.
Proof.
  unfold completions. induction tr as [| a rest IH]; simpl; intros H Hin.
  - exact Hin.
  - destruct Hin as [-> | Hin]; [discriminate H |].
    destruct (is_complete a); [discriminate H | exact (IH H Hin)].
Qed.

(** X4.  With no detection backend configured, no job ever ends
    "completed": the terminal event of every job is "flagged" or
    "failed". *)
Theorem no_backend_never_completed (w : World) (metadata : Metadata) (e : CompleteEvent) :
  hasSightengine (analysis w) = false ->
  hasGoogleVision (analysis w) = false ->
  In (Complete e) (fst (processVideoAsync w metadata)) ->
  ce_status e = "flagged" \/ ce_status e = "failed".
Proof.
  intros Hse Hgv Hin.
  destruct (processVideoAsync_outcome w metadata) as (tr0 & u & ok & e0 & Hrun & Hsilent & Hbody).
  rewrite Hrun in Hin. apply in_app_or in Hin.
  destruct Hin as [Hin | [Hin | [Hin | []]]].
  - exfalso. exact (silent_no_complete tr0 e Hsilent Hin).
  - discriminate Hin.
  - injection Hin as <-.
    destruct (snd (processBody w metadata [])) as [[] | message].
    + destruct Hbody as (_ & _ & ->). left.
      unfold quietVerdict. rewrite Hse, Hgv. reflexivity.
    + destruct Hbody as (_ & -> & _). right. reflexivity.
Qed.

(** An instance of X4: a healthy job without backend ends "flagged". *)
Lemma no_backend_never_completed_witness :
  let w := {| analysis := env_no_backend; db_rejects := fun _ => None;
              transcode_percent := [100]; transcode_error := None |} in
  ce_status (successEvent noApiVerdict) = "flagged" \/
  ce_status (successEvent noApiVerdict) = "failed".
Proof.
  apply (no_backend_never_completed
           {| analysis := env_no_backend; db_rejects := fun _ => None;
              transcode_percent := [100]; transcode_error := None |}
           video8 (successEvent noApiVerdict)).
  - reflexivity.
  - reflexivity.
  - vm_compute.
    repeat match goal with
           | |- _ \/ _ => first [left; reflexivity | right]
           end.
Defined.

(** ** From the analysis to the consumer: the frame records *)

Lemma progressCallback_log raises p s d st :
  (forall k, raises k = false) ->
  progressCallback (Some raises) p s d st
  = ({| calls := calls st ++ [{| call_progress := p; call_status := s;
                                 call_details := d |}];
        explicitCount := explicitCount st; violentCount := violentCount st;
        frameResults := frameResults st |}, Returned tt).
Proof. intros Hq. simpl. rewrite Hq. reflexivity. Qed.

Lemma payloads_app cs1 cs2 : payloads (cs1 ++ cs2) = payloads cs1 ++ payloads cs2.
Proof. unfold payloads. apply flat_map_app. Qed.

(** One iteration logs the records of its frame, in order. *)
Lemma analyzeOneFrame_log env raises i n f st :
  (forall k, raises k = false) ->
  exists st', analyzeOneFrame env (Some raises) i n f st = (st', Returned tt) /\
              payloads (calls st') = payloads (calls st) ++ recordsOf env i f.
Proof.
  intros Hq. unfold analyzeOneFrame, try_catch, bind, progressCallback.
  rewrite Hq.
  unfold raceAnalyzeFrame, recordsOf, classify.
  destruct (timed_out (frame_env f)).
  - cbn. rewrite Hq.
    eexists. split; [reflexivity |]. cbn. rewrite !payloads_app, app_nil_r. reflexivity.
  - set (frameAnalysis := analyzeFrame (hasSightengine env) (hasGoogleVision env)
                            (frame_env f)).
    unfold when, push_frameResult, incr_explicitCount, incr_violentCount, modify, ret,
      cleanup, raise.
    destruct (isExplicit frameAnalysis), (isViolent frameAnalysis);
      cbn; rewrite Hq; destruct (cleanup_ok (frame_env f)); cbn; rewrite ?Hq;
      (eexists; split; [reflexivity |]); cbn;
      rewrite !payloads_app, ?app_nil_r, <- ?app_assoc; reflexivity.
Qed.

Lemma analyzeFrames_log env raises n frames :
  (forall k, raises k = false) ->
  forall (i : nat) (st : AState),
  exists st', analyzeFrames env (Some raises) i n frames st = (st', Returned tt) /\
              payloads (calls st') = payloads (calls st) ++ frameRecords env i frames.
Proof.
  intros Hq. induction frames as [| f rest IH]; intros i st; simpl.
  - exists st. split; [reflexivity |]. rewrite app_nil_r. reflexivity.
  - unfold bind.
    destruct (analyzeOneFrame_log env raises i n f st Hq) as (st1 & -> & H1).
    destruct (IH (S i) st1) as (st2 & -> & H2).
    exists st2. split; [reflexivity |]. rewrite H2, H1, app_assoc. reflexivity.
Qed.

(** The frame records the callback was invoked with are the records the
    analysis ends with. *)
Lemma analysis_payloads env metadata raises :
  (forall k, raises k = false) ->
  payloads (calls (fst (analyzeVideoSensitivity env (Some metadata) (Some raises))))
  = quietRecords env metadata.
Proof.
  intros Hq. unfold analyzeVideoSensitivity, try_catch, analysisBody, quietRecords,
    sampled, planned.
  destruct (negb (hasSightengine env || hasGoogleVision env)).
  { unfold bind. rewrite (progressCallback_log _ _ _ _ _ Hq). reflexivity. }
  unfold bind at 1. unfold deref, ret at 1.
  destruct (Qeq_bool (duration metadata) 0 || Qltb (duration metadata) 3).
  { unfold bind. rewrite (progressCallback_log _ _ _ _ _ Hq). reflexivity. }
  unfold bind at 1. rewrite (progressCallback_log _ _ _ _ _ Hq).
  destruct (raceExtractFrames env (duration metadata) (frameInterval (duration metadata))
              (clampFrames (duration metadata) (frameInterval (duration metadata)) 20))
    as [frames | msg]; [| reflexivity].
  destruct frames as [| f rest]; [reflexivity |].
  cbn [List.length Nat.eqb]. unfold bind at 1.
  rewrite (progressCallback_log _ _ _ _ _ Hq). unfold bind at 1.
  match goal with
  | |- context [analyzeFrames env (Some raises) 0 ?n (f :: rest) ?st0] =>
      destruct (analyzeFrames_log env raises n (f :: rest) Hq 0%nat st0)
        as (st1 & Hrun & Hlog)
  end.
  rewrite Hrun. unfold bind, get_state, ret. cbn [fst].
  rewrite Hlog. reflexivity.
Qed.

(** A list already in order is left as it is by the sort. *)
Lemma sortByFrameNumber_id l :
  StronglySorted byFrameNumber l -> sortByFrameNumber l = l.
Proof.
  induction 1 as [| x rest Hs IH Hf]; simpl; [reflexivity |].
  rewrite IH. destruct rest as [| y rest']; [reflexivity |].
  simpl. inversion Hf as [| ? ? Hxy _]; subst.
  unfold byFrameNumber in Hxy. apply Nat.leb_le in Hxy. rewrite Hxy. reflexivity.
Qed.

Lemma others_id r l :
  Forall (fun f => (frameNumber f < frameNumber r)%nat) l -> others r l = l.
Proof.
  unfold others. induction 1 as [| x rest Hx _ IH]; simpl; [reflexivity |].
  assert (H : (frameNumber x =? frameNumber r)%nat = false) by (apply Nat.eqb_neq; lia).
  rewrite H. simpl. rewrite IH. reflexivity.
Qed.

Lemma increasing_snoc l r :
  StronglySorted lt (map frameNumber (l ++ [r])) ->
  StronglySorted byFrameNumber (l ++ [r]) /\
  Forall (fun f => (frameNumber f < frameNumber r)%nat) l.
Proof.
  induction l as [| x rest IH]; simpl; intros H.
  - split; repeat constructor.
  - inversion H as [| ? ? Hs Hf]; subst. destruct (IH Hs) as [Hsorted Hlt].
    rewrite Forall_map in Hf. apply Forall_app in Hf. destruct Hf as [Hrest Hr].
    inversion Hr; subst. split.
    + constructor; [exact Hsorted |].
      apply Forall_app. split.
      * eapply Forall_impl; [| exact Hrest]. unfold byFrameNumber. simpl. intros; lia.
      * constructor; [unfold byFrameNumber; lia | constructor].
    + constructor; assumption.
Qed.

Lemma StronglySorted_app_l {A} (R : A -> A -> Prop) (l1 l2 : list A) :
  StronglySorted R (l1 ++ l2) -> StronglySorted R l1.
Proof.
  induction l1 as [| x rest IH]; simpl; intros H; [constructor |].
  inversion H as [| ? ? Hs Hf]; subst. constructor; [apply IH; exact Hs |].
  apply Forall_app in Hf. apply Hf.
Qed.

(** Events whose frame numbers keep increasing are accumulated as they
    come. *)
Lemma accumulate_increasing cs : forall st,
  StronglySorted lt (map frameNumber (existingFrameResults st ++ payloads cs)) ->
  Forall (fun r => (1 <= frameNumber r)%nat) (payloads cs) ->
  existingFrameResults (fold_left (fun st c => onVideoProgress st (dataOfCall c)) cs st)
  = existingFrameResults st ++ payloads cs.
Proof.
  induction cs as [| c rest IH]; intros st Hsorted Hpos; simpl.
  - rewrite app_nil_r. reflexivity.
  - change (payloads (c :: rest))
      with (match frameResult (call_details c) with Some r => [r] | None => [] end
            ++ payloads rest) in *.
    assert (Hstep : existingFrameResults (onVideoProgress st (dataOfCall c))
                    = existingFrameResults st
                      ++ match frameResult (call_details c) with
                         | Some r => [r]
                         | None => []
                         end).
    { unfold onVideoProgress. simpl.
      destruct (frameResult (call_details c)) as [r |] eqn:Hr.
      - assert (Hdata : hasFrameData (dataOfCall c) = true).
        { unfold hasFrameData, dataOfCall. simpl. rewrite Hr.
          destruct (currentFrame (call_details c)), (totalFrames (call_details c));
            reflexivity. }
        rewrite Hdata. simpl in Hpos. inversion Hpos as [| ? ? Hr1 _]; subst.
        destruct (frameNumber r =? 0)%nat eqn:H0; [apply Nat.eqb_eq in H0; lia |].
        rewrite existingFrameResults_synced by reflexivity.
        fold (others r (existingFrameResults st)).
        rewrite app_assoc, map_app in Hsorted.
        apply StronglySorted_app_l in Hsorted.
        destruct (increasing_snoc _ _ Hsorted) as [Hs Hlt].
        rewrite (others_id _ _ Hlt). apply sortByFrameNumber_id. exact Hs.
      - rewrite app_nil_r. destruct (hasFrameData (dataOfCall c)); [| reflexivity].
        apply existingFrameResults_synced. reflexivity. }
    rewrite IH.
    + rewrite Hstep, <- app_assoc. reflexivity.
    + rewrite Hstep, <- app_assoc. exact Hsorted.
    + apply Forall_app in Hpos. apply Hpos.
Qed.

Lemma deliver_app tr1 tr2 st : deliver (tr1 ++ tr2) st = deliver tr2 (deliver tr1 st).
Proof. unfold deliver. apply fold_left_app. Qed.

Lemma emit_plain_delivered st0 st p s E :
  spec (delivered st0 st) (emitVideoProgress p s noDetails) (fun _ => delivered st0 st) E.
Proof.
  apply spec_modify. intros tr Htr. unfold delivered in *.
  rewrite deliver_app, Htr. reflexivity.
Qed.

Lemma write_delivered st0 st w u :
  spec (delivered st0 st) (findByIdAndUpdate w u)
       (fun _ => delivered st0 st) (fun _ => delivered st0 st).
Proof.
  intros tr Htr. unfold findByIdAndUpdate, delivered in *.
  destruct (db_rejects w (issued tr)); rewrite deliver_app, Htr; reflexivity.
Qed.

Lemma replay_delivered st0 w E cs : forall st,
  spec (delivered st0 st) (replay w cs)
       (fun _ => delivered st0 (fold_left (fun st c => onVideoProgress st (dataOfCall c)) cs st))
       E.
Proof.
  induction cs as [| c rest IH]; intros st; simpl.
  - apply spec_ret. auto.
  - eapply spec_bind; [| intros ?; apply IH].
    unfold onAnalysisProgress.
    eapply spec_bind with
      (Q := fun _ => delivered st0 (onVideoProgress st (dataOfCall c))).
    + apply spec_modify. intros tr Htr. unfold delivered in *.
      rewrite deliver_app, Htr. reflexivity.
    + intros ?. unfold findByIdAndUpdate_catch.
      eapply spec_try_catch; [apply write_delivered |].
      intros msg. apply spec_ret. auto.
Qed.

Lemma transcodeEvents_delivered st0 st E ps :
  spec (delivered st0 st) (transcodeEvents ps) (fun _ => delivered st0 st) E.
Proof.
  induction ps as [| p rest IH]; simpl.
  - apply spec_ret. auto.
  - eapply spec_bind; [| intros ?; apply IH].
    unfold onTranscodeProgress. apply emit_plain_delivered.
Qed.

(** An awaited write that the database applies. *)
Lemma write_applied st0 st w u k E :
  db_rejects w k = None ->
  spec (fun tr => delivered st0 st tr /\ issued tr = k) (findByIdAndUpdate w u)
       (fun _ tr => delivered st0 st tr /\ issued tr = S k) E.
Proof.
  intros Hk tr [Htr Hi]. unfold findByIdAndUpdate, delivered in *.
  rewrite Hi, Hk. rewrite deliver_app, issued_app, Htr, Hi. split; [reflexivity |].
  change (issued [Write u true]) with 1%nat. lia.
Qed.

Lemma emit_plain_counted st0 st k p s E :
  spec (fun tr => delivered st0 st tr /\ issued tr = k) (emitVideoProgress p s noDetails)
       (fun _ tr => delivered st0 st tr /\ issued tr = k) E.
Proof.
  apply spec_modify. intros tr [Htr Hi]. unfold delivered in *.
  rewrite deliver_app, issued_app, Htr, Hi. split; [reflexivity |].
  match goal with |- (_ + issued [Emit ?e])%nat = _ => change (issued [Emit e]) with 0%nat end.
  lia.
Qed.

(** When the first two writes are applied, the consumer ends a job in
    the state the analysis events lead to. *)
Lemma processVideoAsync_delivered w metadata :
  db_rejects w 0%nat = None -> db_rejects w 1%nat = None ->
  deliver (fst (processVideoAsync w metadata)) fresh
  = fold_left (fun st c => onVideoProgress st (dataOfCall c))
      (calls (fst (analyzeVideoSensitivity (analysis w) (Some metadata)
                     (Some (fun _ => false)))))
      fresh.
Proof.
  intros H0 H1.
  set (final := fold_left (fun st c => onVideoProgress st (dataOfCall c))
                  (calls (fst (analyzeVideoSensitivity (analysis w) (Some metadata)
                                 (Some (fun _ => false))))) fresh).
  assert (Hbody : spec (fun tr => delivered fresh fresh tr /\ issued tr = 0%nat)
                    (processBody w metadata)
                    (fun _ => delivered fresh final) (fun _ => delivered fresh final)).
  { unfold processBody.
    eapply spec_bind; [apply emit_plain_counted |]. intros ?.
    eapply spec_bind; [apply write_applied; exact H0 |]. intros ?.
    eapply spec_bind; [apply emit_plain_counted |]. intros ?.
    eapply spec_bind; [apply write_applied; exact H1 |]. intros ?.
    eapply spec_bind with (Q := fun _ => delivered fresh final).
    { eapply spec_conseq with (P := delivered fresh fresh);
        [| intros tr [Htr _]; exact Htr | intros ? tr Htr; exact Htr
         | intros msg tr Htr; exact Htr].
      unfold runAnalysis. subst final.
      destruct (analyzeVideoSensitivity (analysis w) (Some metadata) (Some (fun _ => false)))
        as [st [v | msg]]; simpl.
      - eapply spec_bind; [apply replay_delivered |]. intros ?.
        apply spec_ret. intros tr Htr. exact Htr.
      - eapply spec_bind; [apply replay_delivered |]. intros ?.
        apply spec_raise. intros tr Htr. exact Htr. }
    intros sensitivityAnalysis.
    eapply spec_bind; [apply emit_plain_delivered |]. intros ?.
    eapply spec_bind; [apply write_delivered |]. intros ?.
    eapply spec_bind with (Q := fun _ => delivered fresh final).
    { unfold processVideoForStreaming.
      eapply spec_bind; [apply transcodeEvents_delivered |]. intros ?.
      destruct (transcode_error w); [apply spec_raise | apply spec_ret];
        intros tr Htr; exact Htr. }
    intros ?.
    eapply spec_bind; [apply emit_plain_delivered |]. intros ?.
    eapply spec_bind; [apply write_delivered |]. intros ?.
    eapply spec_bind; [apply write_delivered |]. intros ?.
    apply spec_modify. intros tr Htr. unfold delivered in *.
    rewrite deliver_app, Htr. reflexivity. }
  assert (H : spec (fun tr => delivered fresh fresh tr /\ issued tr = 0%nat)
                (try_catch (processBody w metadata) (processFailed w))
                (fun _ => delivered fresh final) (fun _ => delivered fresh final)).
  { eapply spec_try_catch; [exact Hbody |]. intros message. unfold processFailed.
    eapply spec_bind.
    - unfold findByIdAndUpdate_catch.
      eapply spec_try_catch; [apply write_delivered |].
      intros msg. apply spec_ret. auto.
    - intros ?. apply spec_modify. intros tr Htr. unfold delivered in *.
      rewrite deliver_app, Htr. reflexivity. }
  specialize (H [] (conj eq_refl eq_refl)). unfold processVideoAsync.
  destruct (try_catch (processBody w metadata) (processFailed w) []) as [tr [[] | msg]];
    exact H.
Qed.

Lemma seq_increasing n : forall a, StronglySorted lt (seq a n).
Proof.
  induction n as [| n IH]; intros a; simpl; constructor; [apply IH |].
  apply Forall_forall. intros x Hx. apply in_seq in Hx. lia.
Qed.

Lemma deliver_in_step tr : forall st, in_step st -> in_step (deliver tr st).
Proof.
  unfold deliver. induction tr as [| a rest IH]; intros st Hst; simpl; [exact Hst |].
  apply IH. destruct a; [apply onVideoProgress_in_step |..]; exact Hst.
Qed.

(** X5.  When the first two writes of a job are applied and every
    classified frame file is deleted without error, a consumer that
    starts from the reset state and receives every progress event of the
    job, in order, ends up rendering exactly the frame records the
    analysis produced, in the same order; they are also the records it
    holds for the next event. *)
Theorem consumer_receives_all_frames (w : World) (metadata : Metadata) :
  db_rejects w 0%nat = None -> db_rejects w 1%nat = None ->
  Forall (fun f => cleanup_ok (frame_env f) = true) (sampled (analysis w) metadata) ->
  let final := deliver (fst (processVideoAsync w metadata)) fresh in
  let produced := frameResults (fst (analyzeVideoSensitivity (analysis w) (Some metadata)
                                       (Some (fun _ => false)))) in
  shown final = produced /\ existingFrameResults final = produced.
Proof.
  intros H0 H1 Hclean final produced.
  assert (Hheld : existingFrameResults final = produced).
  { subst final produced.
    rewrite (processVideoAsync_delivered w metadata H0 H1).
    pose proof (analysis_payloads (analysis w) metadata (fun _ => false) (fun _ => eq_refl))
      as Hlog.
    destruct (analyzeVideoSensitivity_quiet (analysis w) metadata (Some (fun _ => false)))
      as (st & Hrun & Hrecords); [intros k; reflexivity |].
    rewrite Hrun in *. simpl in *. rewrite Hrecords.
    assert (Hnumbers : exists n, map frameNumber (quietRecords (analysis w) metadata) = seq 1 n).
    { unfold quietRecords.
      destruct (negb _); [exists 0%nat; reflexivity |].
      destruct (_ || _); [exists 0%nat; reflexivity |].
      eexists. apply (frameRecords_numbers _ _ 0%nat Hclean). }
    destruct Hnumbers as [n Hn].
    rewrite accumulate_increasing; rewrite Hlog.
    - reflexivity.
    - simpl. rewrite Hn. apply seq_increasing.
    - rewrite <- (Forall_map frameNumber (fun k => (1 <= k)%nat)), Hn.
      apply Forall_forall. intros x Hx. apply in_seq in Hx. lia. }
  assert (Hstep : in_step final).
  { subst final. apply deliver_in_step. left. reflexivity. }
  split; [rewrite <- (in_step_held final Hstep) |]; exact Hheld.
Qed.

(** An instance of X5: a job where everything works; the page renders
    the records of the four frames. *)
Lemma consumer_receives_all_frames_witness :
  map frameNumber (shown (deliver (fst (processVideoAsync world_ok video8)) fresh))
  = [1; 2; 3; 4]%nat.
Proof.
  destruct (consumer_receives_all_frames world_ok video8) as [Hshown _].
  - reflexivity.
  - reflexivity.
  - vm_compute. repeat constructor.
  - rewrite Hshown. reflexivity.
Defined.

(** ** The consumer's phase *)

Lemma listIncludes_In l s : Builtins.listIncludes l s = true -> In s l.
Proof.
  unfold Builtins.listIncludes. intros H. apply existsb_exists in H.
  destruct H as (x & Hin & Heq). apply String.eqb_eq in Heq. subst. exact Hin.
Qed.

(** X6.  Whatever status text a progress event carries, the handler
    leaves the [status] state a known phase when it was one: free text
    such as "Analyzing frame 3/20..." never becomes the phase. *)
Theorem status_stays_a_phase (prev : string) (data : ProgressData) :
  In prev ConsumerStatus.known ->
  In (ConsumerStatus.nextStatus prev data) ConsumerStatus.known.
Proof.
  intros Hprev. unfold ConsumerStatus.nextStatus.
  destruct (data_status data =? "").
  - destruct (_ || _); [simpl; auto 10 | exact Hprev].
  - destruct (Builtins.listIncludes ConsumerStatus.known _) eqn:Hknown;
      [apply listIncludes_In; exact Hknown |].
    destruct (_ || _ || _ || _); [simpl; auto 10 |].
    destruct (Builtins.includes _ "compress"); [simpl; auto 10 |].
    destruct (Builtins.includes _ "final"); [simpl; auto 10 | exact Hprev].
Qed.

(** An instance of X6: a free-text status during compression. *)
Lemma status_stays_a_phase_witness :
  In (ConsumerStatus.nextStatus "analyzing"
        {| data_status := "Compressing video (pass 1)"; data_currentFrame := None;
           data_totalFrames := None; data_frameResult := None |})
     ConsumerStatus.known.
Proof.
  apply status_stays_a_phase. simpl. auto 10.
Defined.

(** ** Where the events of a job come from *)

Section Events.
(** [G] holds of the events of the stage transitions, of the events made
    from the transcoder's percentages, and of the events made from the
    invocations of the analysis callback. *)
Variable w : World.
Variable metadata : Metadata.
Variable G : ProgressEvent -> Prop.
Hypothesis G_processing : G (stageEvent "processing" 10).
Hypothesis G_analyzing : G (stageEvent "analyzing" 30).
Hypothesis G_compressing : G (stageEvent "compressing" 50).
Hypothesis G_finalizing : G (stageEvent "finalizing" 95).
Hypothesis G_transcode : forall percent, In percent (transcode_percent w) ->
  G (stageEvent "compressing" (transcodeWindow percent)).
Hypothesis G_call : forall c,
  In c (calls (fst (analyzeVideoSensitivity (analysis w) (Some metadata)
                      (Some (fun _ => false))))) ->
  G (eventOfCall c).

Let allG (tr : Trace) : Prop := forall e, In (Emit e) tr -> G e.

Lemma allG_snoc tr a :
  allG tr -> (forall e, a = Emit e -> G e) -> allG (tr ++ [a]).
Proof.
  intros Htr Ha e Hin. apply in_app_or in Hin.
  destruct Hin as [Hin | [Hin | []]]; [apply Htr; exact Hin | apply Ha; exact Hin].
Qed.

Lemma emit_allG p s d E :
  G {| pe_progress := p; pe_status := s; pe_currentFrame := currentFrame d;
       pe_totalFrames := totalFrames d; pe_frameResult := frameResult d |} ->
  spec allG (emitVideoProgress p s d) (fun _ => allG) E.
Proof.
  intros Hg. apply spec_modify. intros tr Htr. apply allG_snoc; [exact Htr |].
  intros e He. injection He as <-. exact Hg.
Qed.

Lemma write_allG u :
  spec allG (findByIdAndUpdate w u) (fun _ => allG) (fun _ => allG).
Proof.
  intros tr Htr. unfold findByIdAndUpdate.
  destruct (db_rejects w (issued tr)); (apply allG_snoc; [exact Htr | discriminate]).
Qed.

Lemma write_catch_allG u E :
  spec allG (findByIdAndUpdate_catch w u) (fun _ => allG) E.
Proof.
  unfold findByIdAndUpdate_catch. eapply spec_try_catch; [apply write_allG |].
  intros msg. apply spec_ret. auto.
Qed.

Lemma complete_allG e E : spec allG (emitVideoComplete e) (fun _ => allG) E.
Proof.
  apply spec_modify. intros tr Htr. apply allG_snoc; [exact Htr | discriminate].
Qed.

Lemma replay_allG E cs :
  (forall c, In c cs -> G (eventOfCall c)) ->
  spec allG (replay w cs) (fun _ => allG) E.
Proof.
  induction cs as [| c rest IH]; intros Hcs; simpl.
  - apply spec_ret. auto.
  - eapply spec_bind; [| intros ?; apply IH; intros c' Hc'; apply Hcs; right; exact Hc'].
    unfold onAnalysisProgress.
    eapply spec_bind; [apply emit_allG; apply (Hcs c); left; reflexivity |].
    intros ?. apply write_catch_allG.
Qed.

Lemma transcodeEvents_allG E ps :
  (forall p, In p ps -> G (stageEvent "compressing" (transcodeWindow p))) ->
  spec allG (transcodeEvents ps) (fun _ => allG) E.
Proof.
  induction ps as [| p rest IH]; intros Hps; simpl.
  - apply spec_ret. auto.
  - eapply spec_bind; [| intros ?; apply IH; intros p' Hp'; apply Hps; right; exact Hp'].
    unfold onTranscodeProgress. apply emit_allG. apply (Hps p). left. reflexivity.
Qed.

(** Every progress event of the job satisfies [G]. *)
Lemma processVideoAsync_events :
  forall e, In (Emit e) (fst (processVideoAsync w metadata)) -> G e.
Proof.
  assert (Hbody : spec allG (processBody w metadata) (fun _ => allG) (fun _ => allG)).
  { unfold processBody.
    eapply spec_bind; [apply emit_allG; exact G_processing |]. intros ?.
    eapply spec_bind; [apply write_allG |]. intros ?.
    eapply spec_bind; [apply emit_allG; exact G_analyzing |]. intros ?.
    eapply spec_bind; [apply write_allG |]. intros ?.
    eapply spec_bind with (Q := fun _ => allG).
    { unfold runAnalysis.
      destruct (analyzeVideoSensitivity (analysis w) (Some metadata) (Some (fun _ => false)))
        as [st [v | msg]]; simpl in G_call.
      - eapply spec_bind; [apply replay_allG; exact G_call |]. intros ?.
        apply spec_ret. auto.
      - eapply spec_bind; [apply replay_allG; exact G_call |]. intros ?.
        apply spec_raise. auto. }
    intros sensitivityAnalysis.
    eapply spec_bind; [apply emit_allG; exact G_compressing |]. intros ?.
    eapply spec_bind; [apply write_allG |]. intros ?.
    eapply spec_bind with (Q := fun _ => allG).
    { unfold processVideoForStreaming.
      eapply spec_bind; [apply transcodeEvents_allG; exact G_transcode |]. intros ?.
      destruct (transcode_error w); [apply spec_raise | apply spec_ret]; auto. }
    intros ?.
    eapply spec_bind; [apply emit_allG; exact G_finalizing |]. intros ?.
    eapply spec_bind; [apply write_allG |]. intros ?.
    eapply spec_bind; [apply write_allG |]. intros ?.
    apply complete_allG. }
  assert (H : spec allG (try_catch (processBody w metadata) (processFailed w))
                (fun _ => allG) (fun _ => allG)).
  { eapply spec_try_catch; [exact Hbody |]. intros message. unfold processFailed.
    eapply spec_bind; [apply write_catch_allG |]. intros ?. apply complete_allG. }
  assert (Hnil : allG []) by (intros e []).
  specialize (H [] Hnil). unfold processVideoAsync.
  destruct (try_catch (processBody w metadata) (processFailed w) []) as [tr [[] | msg]];
    exact H.
Qed.

End Events.

(** ** The statuses of the analysis callback *)

Lemma progressCallback_log_kept (R : Call -> Prop) cb p s d :
  R {| call_progress := p; call_status := s; call_details := d |} ->
  spec (onLog (Forall R)) (progressCallback cb p s d)
       (fun _ => onLog (Forall R)) (fun _ => onLog (Forall R)).
Proof.
  intros Hc st Hst. unfold onLog in *. destruct cb as [raises |]; simpl.
  - assert (H : Forall R (calls st ++ [{| call_progress := p; call_status := s;
                                          call_details := d |}])).
    { apply Forall_app. split; [exact Hst | constructor; [exact Hc | constructor]]. }
    destruct (raises (List.length (calls st))); exact H.
  - exact Hst.
Qed.

Lemma modify_log_kept (R : list Call -> Prop) f E :
  (forall st, calls (f st) = calls st) ->
  spec (onLog R) (modify f) (fun _ => onLog R) E.
Proof. intros Hf. apply spec_modify. intros st Hst. unfold onLog. rewrite Hf. exact Hst. Qed.

Lemma analyzeOneFrame_statuses env cb i n f :
  spec (onLog (Forall frame_call)) (analyzeOneFrame env cb i n f)
       (fun _ => onLog (Forall frame_call)) (fun _ => onLog (Forall frame_call)).
Proof.
  assert (Hcall : forall d, frame_call {| call_progress := frameProgress i n;
                                          call_status := analyzingFrame i n;
                                          call_details := d |}).
  { intros d _. right. right. exists i, n. reflexivity. }
  unfold analyzeOneFrame.
  eapply spec_try_catch with (E' := fun _ : string => onLog (Forall frame_call)).
  - eapply spec_bind; [apply progressCallback_log_kept, Hcall |]. intros ?.
    eapply spec_bind with (Q := fun _ => onLog (Forall frame_call)).
    { unfold raceAnalyzeFrame. destruct (timed_out (frame_env f));
        [apply spec_raise | apply spec_ret]; auto. }
    intros frameAnalysis.
    eapply spec_bind; [apply modify_log_kept; reflexivity |]. intros ?.
    eapply spec_bind.
    { apply spec_when; [apply modify_log_kept; reflexivity | auto]. }
    intros ?.
    eapply spec_bind.
    { apply spec_when; [apply modify_log_kept; reflexivity | auto]. }
    intros ?.
    eapply spec_bind; [apply progressCallback_log_kept, Hcall |]. intros ?.
    unfold cleanup. destruct (cleanup_ok (frame_env f));
      [apply spec_ret | apply spec_raise]; auto.
  - intros msg.
    eapply spec_bind; [apply modify_log_kept; reflexivity |]. intros ?.
    apply progressCallback_log_kept, Hcall.
Qed.

Lemma analyzeFrames_statuses env cb n frames : forall i,
  spec (onLog (Forall frame_call)) (analyzeFrames env cb i n frames)
       (fun _ => onLog (Forall frame_call)) (fun _ => onLog (Forall frame_call)).
Proof.
  induction frames as [| f rest IH]; intros i; simpl.
  - apply spec_ret. auto.
  - eapply spec_bind; [apply analyzeOneFrame_statuses | intros ?; apply IH].
Qed.

(** Whatever the callback does, each invocation that carries
    [totalFrames] has a frame status. *)
Lemma analysis_statuses env metadata cb :
  Forall frame_call (calls (fst (analyzeVideoSensitivity env metadata cb))).
Proof.
  assert (Hplain : forall p s, frame_call {| call_progress := p; call_status := s;
                                             call_details := noDetails |}).
  { intros p s H. exfalso. apply H. reflexivity. }
  assert (Hbody : spec (onLog (Forall frame_call)) (analysisBody env metadata cb)
                    (fun _ => onLog (Forall frame_call))
                    (fun _ => onLog (Forall frame_call))).
  { unfold analysisBody.
    destruct (negb (hasSightengine env || hasGoogleVision env)).
    { eapply spec_bind; [apply progressCallback_log_kept, Hplain |]. intros ?.
      apply spec_ret. auto. }
    eapply spec_bind with (Q := fun _ => onLog (Forall frame_call)).
    { unfold deref. destruct metadata; [apply spec_ret | apply spec_raise]; auto. }
    intros m.
    destruct (Qeq_bool (duration m) 0 || Qltb (duration m) 3).
    { eapply spec_bind; [apply progressCallback_log_kept, Hplain |]. intros ?.
      apply spec_ret. auto. }
    eapply spec_bind.
    { apply progressCallback_log_kept. intros _. left. reflexivity. }
    intros ?.
    destruct (raceExtractFrames _ _ _ _) as [frames | msg]; [| apply spec_ret; auto].
    destruct (List.length frames =? 0)%nat; [apply spec_ret; auto |].
    eapply spec_bind.
    { apply progressCallback_log_kept. intros _. right. left. reflexivity. }
    intros ?.
    eapply spec_bind; [apply analyzeFrames_statuses |]. intros ?.
    eapply spec_bind with (Q := fun _ => onLog (Forall frame_call)).
    { intros st Hst. exact Hst. }
    intros st. apply spec_ret. auto. }
  assert (H : spec (onLog (Forall frame_call))
                (try_catch (analysisBody env metadata cb) (fun _ => ret analysisErrorVerdict))
                (fun _ => onLog (Forall frame_call))
                (fun _ => onLog (Forall frame_call))).
  { eapply spec_try_catch; [exact Hbody |]. intros msg. apply spec_ret. auto. }
  specialize (H initial (Forall_nil _)). unfold analyzeVideoSensitivity.
  destruct (try_catch (analysisBody env metadata cb) (fun _ => ret analysisErrorVerdict)
              initial) as [st [v | msg]]; exact H.
Qed.

(** A frame status is read as the phase "analyzing". *)
Lemma frame_status_analyzing prev s currentFrame totalFrames frameResult :
  frame_status s ->
  ConsumerStatus.nextStatus prev
    {| data_status := if s =? "" then "analyzing" else s;
       data_currentFrame := currentFrame; data_totalFrames := totalFrames;
       data_frameResult := frameResult |} = "analyzing".
Proof.
  intros [-> | [-> | (i & n & ->)]]; [reflexivity | reflexivity |].
  unfold analyzingFrame. generalize (show (i + 1)) (show n). intros a b.
  reflexivity.
Qed.

(** X7.  Every progress event of a job that carries [totalFrames] (the
    events of frame extraction and frame analysis) is read by the
    consumer as the phase "analyzing", whatever its phase was. *)
Theorem frame_events_set_analyzing (w : World) (metadata : Metadata)
    (e : ProgressEvent) (prev : string) :
  In (Emit e) (fst (processVideoAsync w metadata)) ->
  pe_totalFrames e <> None ->
  ConsumerStatus.nextStatus prev (toProgressData e) = "analyzing".
Proof.
  intros Hin. revert e Hin.
  apply (processVideoAsync_events w metadata
           (fun e => pe_totalFrames e <> None ->
                     ConsumerStatus.nextStatus prev (toProgressData e) = "analyzing")).
  - intros H. exfalso. apply H. reflexivity.
  - intros H. exfalso. apply H. reflexivity.
  - intros H. exfalso. apply H. reflexivity.
  - intros H. exfalso. apply H. reflexivity.
  - intros percent _ H. exfalso. apply H. reflexivity.
  - intros c Hc Htotal.
    pose proof (analysis_statuses (analysis w) (Some metadata) (Some (fun _ => false)))
      as Hcalls.
    rewrite Forall_forall in Hcalls. specialize (Hcalls c Hc Htotal).
    unfold toProgressData, eventOfCall. simpl.
    apply frame_status_analyzing. exact Hcalls.
Qed.

Ltac find_in_list :=
  repeat match goal with
         | |- _ \/ _ => first [left; reflexivity | right]
         end.

(** An instance of X7: the "Extracting frames..." event of a healthy
    job. *)
Lemma frame_events_set_analyzing_witness :
  ConsumerStatus.nextStatus "processing" (toProgressData extracting4) = "analyzing".
Proof.
  apply (frame_events_set_analyzing world_ok video8 extracting4 "processing").
  - vm_compute. find_in_list.
  - discriminate.
Defined.

(** X8.  Whatever the transcoder reports, no progress event of a job
    carries a value above 95: the 100 of a finished job is carried by the
    terminal event only. *)
Theorem progress_events_below_terminal (w : World) (metadata : Metadata)
    (e : ProgressEvent) :
  In (Emit e) (fst (processVideoAsync w metadata)) -> pe_progress e <= 95.
Proof.
  revert e. apply (processVideoAsync_events w metadata (fun e => pe_progress e <= 95)).
  - simpl. lra.
  - simpl. lra.
  - simpl. lra.
  - simpl. lra.
  - intros percent _. simpl. unfold transcodeWindow.
    pose proof (Math_min_le_r percent 100). lra.
  - intros c Hc. simpl.
    pose proof (analysis_progress_ramp (analysis w) (Some metadata) (Some (fun _ => false)))
      as [_ Hr].
    unfold callProgress in Hr. rewrite Forall_map, Forall_forall in Hr.
    specialize (Hr c Hc). unfold analysisWindow. lra.
Qed.

(** An instance of X8: the "Extracting frames..." event of a healthy
    job. *)
Lemma progress_events_below_terminal_witness : pe_progress extracting4 <= 95.
Proof.
  apply (progress_events_below_terminal world_ok video8 extracting4).
  vm_compute. find_in_list.
Defined.

(** ** The polling fallback *)

(** X9.  When the database applies every write, one poll after the job
    has ended reads a terminal status: the poll is stopped, the page
    shows the status and the progress of the job record, and a
    navigation to the video is requested exactly when the job did not
    fail. *)
Theorem poll_sees_terminal_status (w : World) (metadata : Metadata)
    (view : ConsumerStatus.View) :
  (forall k, db_rejects w k = None) ->
  let job := persisted (fst (processVideoAsync w metadata)) in
  let view' := ConsumerStatus.pollTick view (jobView job) in
  ConsumerStatus.polling view' = false /\
  ConsumerStatus.status view' = job_status job /\
  terminal (job_status job) = true /\
  ConsumerStatus.processingProgress view' = Orchestrator.processingProgress job /\
  ConsumerStatus.navigated view'
  = ConsumerStatus.navigated view || negb (job_status job =? "failed").
Proof.
  intros Hdb. simpl.
  destruct (processVideoAsync_outcome w metadata) as (tr0 & u & ok & e & Hrun & _ & Hbody).
  rewrite Hrun.
  assert (Hu : ok = true /\
               (u_status u = Some "completed" \/ u_status u = Some "flagged" \/
                u_status u = Some "failed")).
  { destruct (snd (processBody w metadata [])) as [[] | message].
    - destruct Hbody as (-> & -> & _). split; [reflexivity |].
      simpl. unfold finalStatus. destruct (Sensitivity.status _ =? "flagged"); auto.
    - destruct Hbody as (-> & _ & ->). rewrite Hdb. auto. }
  destruct Hu as [-> Hstatus]. rewrite persisted_snoc_write.
  unfold jobView, apply_update.
  destruct Hstatus as [-> | [-> | ->]]; simpl;
    destruct (ConsumerStatus.navigated view); repeat split.
Qed.

(** An instance of X9: a healthy job that was being watched. *)
Lemma poll_sees_terminal_status_witness :
  ConsumerStatus.polling
    (ConsumerStatus.pollTick watching
       (jobView (persisted (fst (processVideoAsync world_ok video8))))) = false.
Proof.
  apply (poll_sees_terminal_status world_ok video8 watching).
  intros k. reflexivity.
Defined.

(** ** Decimal numerals and [parseInt] *)

Lemma all_digits_uint d : all_digits (NilEmpty.string_of_uint d).
Proof.
  unfold all_digits.
  induction d; simpl; constructor; try reflexivity; assumption.
Qed.

Lemma all_digits_show n : all_digits (show n).
Proof.
  unfold show, NilZero.string_of_uint.
  destruct (Nat.to_uint n) eqn:E; try (rewrite <- E; apply all_digits_uint).
  unfold all_digits. simpl. constructor; [reflexivity | constructor].
Qed.

Lemma digit_not_dash c : Builtins.isDigit c = true -> c <> "-"%char.
Proof. intros H ->. discriminate H. Qed.

Lemma all_digits_free s : all_digits s -> free_of "-" s.
Proof.
  unfold all_digits, free_of. apply Forall_impl. intros c. apply digit_not_dash.
Qed.

Lemma parseDigits_digit c rest acc v :
  Builtins.isDigit c = true -> Builtins.digitValue c = v ->
  Builtins.parseDigits (String c rest) acc =
  Builtins.parseDigits rest (10 * acc + v)%Z.
Proof. intros Hc <-. simpl. rewrite Hc. reflexivity. Qed.

Lemma parseDigits_uint d : forall acc,
  Builtins.parseDigits (NilEmpty.string_of_uint d) (Z.of_nat acc) =
  Z.of_nat (Nat.of_uint_acc d acc).
Proof.
  induction d; intros acc; cbn [NilEmpty.string_of_uint Nat.of_uint_acc];
    try reflexivity;
    (erewrite parseDigits_digit; [| reflexivity | reflexivity]);
    rewrite Nat.tail_mul_spec, <- IHd; f_equal;
    match goal with |- context [Builtins.digitValue ?c] =>
      let v := eval vm_compute in (Builtins.digitValue c) in
      change (Builtins.digitValue c) with v
    end; lia.
Qed.

Lemma show_first n :
  exists c rest, show n = String c rest /\ Builtins.isDigit c = true.
Proof.
  unfold show, NilZero.string_of_uint.
  destruct (Nat.to_uint n); simpl; eexists; eexists; split; reflexivity.
Qed.

Lemma parseDigits_show n : Builtins.parseDigits (show n) 0 = Z.of_nat n.
Proof.
  unfold show, NilZero.string_of_uint.
  pose proof (DecimalNat.Unsigned.of_to n) as Hn. unfold Nat.of_uint in Hn.
  destruct (Nat.to_uint n) eqn:E.
  - simpl in Hn. subst n. reflexivity.
  - rewrite <- E in *. rewrite <- Hn at 2. apply (parseDigits_uint _ 0%nat).
  - rewrite <- E in *. rewrite <- Hn at 2. apply (parseDigits_uint _ 0%nat).
  - rewrite <- E in *. rewrite <- Hn at 2. apply (parseDigits_uint _ 0%nat).
  - rewrite <- E in *. rewrite <- Hn at 2. apply (parseDigits_uint _ 0%nat).
  - rewrite <- E in *. rewrite <- Hn at 2. apply (parseDigits_uint _ 0%nat).
  - rewrite <- E in *. rewrite <- Hn at 2. apply (parseDigits_uint _ 0%nat).
  - rewrite <- E in *. rewrite <- Hn at 2. apply (parseDigits_uint _ 0%nat).
  - rewrite <- E in *. rewrite <- Hn at 2. apply (parseDigits_uint _ 0%nat).
  - rewrite <- E in *. rewrite <- Hn at 2. apply (parseDigits_uint _ 0%nat).
  - rewrite <- E in *. rewrite <- Hn at 2. apply (parseDigits_uint _ 0%nat).
Qed.

(** [parseInt] reads back the decimal numeral of a number. *)
Lemma parseInt_show n : Builtins.parseInt (show n) = Some (Z.of_nat n).
Proof.
  pose proof (parseDigits_show n) as Hd.
  destruct (show_first n) as (c & rest & E & Hc). rewrite E in *.
  unfold Builtins.parseInt.
  assert (Hs : Builtins.skipSpaces (String c rest) = String c rest).
  { simpl. destruct (Builtins.isSpace c) eqn:Hsp; [| reflexivity].
    exfalso. unfold Builtins.isDigit, Builtins.isSpace in *.
    destruct (nat_of_ascii c) as [| k]; [discriminate |].
    apply andb_prop in Hc as [H1 H2].
    apply Nat.leb_le in H1. apply Nat.leb_le in H2.
    apply orb_prop in Hsp as [Hsp | Hsp].
    - apply andb_prop in Hsp as [_ H3]. apply Nat.leb_le in H3. lia.
    - apply Nat.eqb_eq in Hsp. lia. }
  rewrite Hs.
  assert (Hm : c <> "-"%char) by (apply digit_not_dash; exact Hc).
  assert (Hp : c <> "+"%char) by (intros ->; discriminate Hc).
  destruct c as [b0 b1 b2 b3 b4 b5 b6 b7].
  destruct b0, b1, b2, b3, b4, b5, b6, b7; try discriminate Hc;
    try (exfalso; apply Hm; reflexivity); try (exfalso; apply Hp; reflexivity);
    cbv beta iota; rewrite Hc, Hd, Z.mul_1_l; reflexivity.
Qed.

(** ** Splitting at a separator *)

Lemma split_nonempty sep s : Builtins.split sep s <> [].
Proof.
  destruct s as [| c rest]; simpl; [discriminate |].
  destruct (Ascii.eqb c sep); [discriminate |].
  destruct (Builtins.split sep rest); discriminate.
Qed.

Lemma split_free sep u : free_of sep u -> Builtins.split sep u = [u].
Proof.
  unfold free_of. induction u as [| c rest IH]; simpl; intros H; [reflexivity |].
  inversion H as [| ? ? Hc Hr]; subst.
  destruct (Ascii.eqb_spec c sep) as [-> | _]; [contradiction |].
  rewrite (IH Hr). reflexivity.
Qed.

Lemma split_at sep u s :
  free_of sep u ->
  Builtins.split sep (u ++ String sep s)%string = u :: Builtins.split sep s.
Proof.
  unfold free_of. induction u as [| c rest IH]; simpl; intros H.
  - rewrite Ascii.eqb_refl. reflexivity.
  - inversion H as [| ? ? Hc Hr]; subst.
    destruct (Ascii.eqb_spec c sep) as [-> | _]; [contradiction |].
    rewrite (IH Hr). reflexivity.
Qed.

Lemma prefix_append pat s : String.prefix pat (pat ++ s)%string = true.
Proof.
  induction pat as [| c rest IH]; simpl.
  - destruct s; reflexivity.
  - destruct (ascii_dec c c) as [_ | Hc]; [exact IH | contradiction].
Qed.

Lemma drop_append pat s : Builtins.drop (String.length pat) (pat ++ s)%string = s.
Proof. induction pat as [| c rest IH]; simpl; [reflexivity | exact IH]. Qed.

(** Removing a pattern from a text that starts with it leaves the rest. *)
Lemma removeFirst_prefix pat s : Builtins.removeFirst pat (pat ++ s)%string = s.
Proof.
  assert (E : forall t, Builtins.removeFirst pat t =
                        if String.prefix pat t
                        then Builtins.drop (String.length pat) t
                        else match t with
                             | EmptyString => EmptyString
                             | String c rest => String c (Builtins.removeFirst pat rest)
                             end)
    by (intros t; destruct t; reflexivity).
  rewrite E, prefix_append. apply drop_append.
Qed.

Lemma maxSafe_below_overflow : (Stream.maxSafe < Stream.overflow)%Z.
Proof. unfold Z.lt. vm_compute. reflexivity. Qed.

(** The number read from the numeral of a safe integer is that
    integer. *)
Lemma number_show n :
  safeInteger (Z.of_nat n) ->
  Stream.number (Builtins.parseInt (show n)) = Stream.Finite (Z.of_nat n) /\
  Stream.position (Stream.Finite (Z.of_nat n)) = true.
Proof.
  unfold safeInteger. intros Hn. rewrite parseInt_show. unfold Stream.number, Stream.position.
  pose proof maxSafe_below_overflow as Hmax.
  assert (Hsafe : (Z.of_nat n <= Stream.maxSafe)%Z)
    by (change Stream.maxSafe with 9007199254740991%Z; lia).
  destruct (Z.leb_spec Stream.overflow (Z.of_nat n)); [lia |].
  destruct (Z.leb_spec (Z.of_nat n) (- Stream.overflow)); [lia |].
  split; [reflexivity |]. apply andb_true_intro. split; apply Z.leb_le; lia.
Qed.

(** X10.  Range requests of the stream route, for safe integers: a
    header [bytes=a-b] with [a <= b] is answered with status 206, start
    [a], end [b] and [Content-Length] [b - a + 1], whatever the size of
    the file, and with 500 when [b < a]; a header [bytes=a-] is answered
    with 206, end [fileSize - 1] and [Content-Length] [fileSize - a]
    when [a] lies in the file, and with 500 when it does not. *)
Theorem range_header_round_trip (a b : nat) (fileSize : Z) :
  safeInteger (Z.of_nat a) -> safeInteger (Z.of_nat b) -> safeInteger fileSize ->
  Stream.head (Some (closedRange a b)) fileSize =
    (if (a <=? b)%nat
     then Stream.Partial (Stream.Finite (Z.of_nat a)) (Stream.Finite (Z.of_nat b))
                         (Stream.Finite (Z.of_nat b - Z.of_nat a + 1))
     else Stream.Failed) /\
  Stream.head (Some (openRange a)) fileSize =
    (if (Z.of_nat a <? fileSize)%Z
     then Stream.Partial (Stream.Finite (Z.of_nat a)) (Stream.Finite (fileSize - 1))
                         (Stream.Finite (fileSize - 1 - Z.of_nat a + 1))
     else Stream.Failed).
Proof.
  intros Ha Hb Hsize.
  assert (Hfree : forall n, free_of "-" (show n))
    by (intros n; apply all_digits_free, all_digits_show).
  assert (Hne : forall n, (show n =? "") = false).
  { intros n. destruct (show_first n) as (c & rest & -> & _). reflexivity. }
  destruct (number_show a Ha) as [Hna Hpa]. destruct (number_show b Hb) as [Hnb Hpb].
  split.
  - unfold Stream.head, closedRange.
    change (Builtins.given (Some ("bytes=" ++ show a ++ "-" ++ show b)%string))
      with (Some ("bytes=" ++ show a ++ "-" ++ show b)%string).
    cbv iota zeta. rewrite removeFirst_prefix.
    change (show a ++ "-" ++ show b)%string with (show a ++ String "-" (show b))%string.
    rewrite (split_at "-" (show a) (show b) (Hfree a)).
    rewrite (split_free "-" (show b) (Hfree b)).
    cbn [Stream.nth List.nth]. rewrite Hne, Hna, Hnb.
    unfold Stream.createReadStream. rewrite Hpa, Hpb. cbn [andb].
    destruct (Nat.leb_spec a b) as [Hab | Hab].
    + destruct (Z.leb_spec (Z.of_nat a) (Z.of_nat b)); [reflexivity | lia].
    + destruct (Z.leb_spec (Z.of_nat a) (Z.of_nat b)); [lia | reflexivity].
  - unfold Stream.head, openRange.
    change (Builtins.given (Some ("bytes=" ++ show a ++ "-")%string))
      with (Some ("bytes=" ++ show a ++ "-")%string).
    cbv iota zeta. rewrite removeFirst_prefix.
    rewrite (split_at "-" (show a) "" (Hfree a)).
    cbn [Stream.nth List.nth Builtins.split String.eqb]. rewrite Hna.
    unfold Stream.createReadStream. rewrite Hpa. cbn [andb].
    unfold Stream.position. unfold safeInteger in Hsize.
    change Stream.maxSafe with 9007199254740991%Z.
    destruct (Z.ltb_spec (Z.of_nat a) fileSize) as [Hin | Hout].
    + destruct (Z.leb_spec 0 (fileSize - 1)); [| lia].
      destruct (Z.leb_spec (fileSize - 1) 9007199254740991); [| lia].
      destruct (Z.leb_spec (Z.of_nat a) (fileSize - 1)); [reflexivity | lia].
    + destruct (Z.leb_spec 0 (fileSize - 1)); [| reflexivity].
      destruct (Z.leb_spec (fileSize - 1) 9007199254740991); [| reflexivity].
      destruct (Z.leb_spec (Z.of_nat a) (fileSize - 1)); [lia | reflexivity].
Qed.

(** An instance of X10: the second kilobyte of a file of four, and the
    file from its second kilobyte on. *)
Lemma range_header_round_trip_witness :
  Stream.head (Some (closedRange 1024 2047)) 4096 =
    Stream.Partial (Stream.Finite 1024) (Stream.Finite 2047) (Stream.Finite 1024) /\
  Stream.head (Some (openRange 1024)) 4096 =
    Stream.Partial (Stream.Finite 1024) (Stream.Finite 4095) (Stream.Finite 3072).
Proof.
  apply (range_header_round_trip 1024 2047 4096); unfold safeInteger; simpl; lia.
Defined.

(** A range that ends before it starts, and a range that starts behind
    the end of the file, are answered with 500. *)
Lemma range_outside_is_an_error :
  Stream.head (Some (closedRange 10 5)) 4096 = Stream.Failed /\
  Stream.head (Some (openRange 4096)) 4096 = Stream.Failed.
Proof. split; vm_compute; reflexivity. Qed.

(** ** Subscriptions: the provider's pending set and the server's rooms *)

Lemma In_listIncludes l s : In s l -> Builtins.listIncludes l s = true.
Proof.
  unfold Builtins.listIncludes. intros H. apply existsb_exists.
  exists s. split; [exact H | apply String.eqb_refl].
Qed.

Lemma setAdd_In id x s :
  In x (SocketClient.setAdd id s) <-> x = id \/ In x s.
Proof.
  unfold SocketClient.setAdd.
  destruct (Builtins.listIncludes s id) eqn:E.
  - apply listIncludes_In in E. split; [auto | intros [-> | H]; assumption].
  - rewrite in_app_iff. simpl. split.
    + intros [H | [H | []]]; auto.
    + intros [-> | H]; auto.
Qed.

Lemma setAdd_NoDup id s : NoDup s -> NoDup (SocketClient.setAdd id s).
Proof.
  unfold SocketClient.setAdd. intros H.
  destruct (Builtins.listIncludes s id) eqn:E; [exact H |].
  apply NoDup_app; [exact H | repeat constructor; intros [] |].
  intros x Hx [<- | []]. apply In_listIncludes in Hx. congruence.
Qed.

Lemma pending_fold ops : forall pending,
  NoDup pending ->
  let pending' := fold_left (fun p op => fst (SocketClient.step p op)) ops pending in
  NoDup pending' /\
  forall id, In id pending' <-> In id pending \/ In id (requested ops).
Proof.
  induction ops as [| op rest IH]; intros pending Hnd; simpl.
  - split; [exact Hnd | intros id; tauto].
  - destruct op as [videoId live |]; simpl.
    + unfold SocketClient.subscribeToVideo.
      destruct (videoId =? "") eqn:E; simpl.
      * apply IH. exact Hnd.
      * destruct (IH (SocketClient.setAdd videoId pending)
                     (setAdd_NoDup videoId pending Hnd)) as [Hnd' Hin].
        split; [exact Hnd' |]. intros id. rewrite (Hin id), setAdd_In. simpl.
        intuition (subst; auto).
    + apply IH. exact Hnd.
Qed.

(** X11.  Whatever the provider was asked while connected or not, the
    next connect re-sends one ['subscribe:video'] for each video id it
    was ever asked to subscribe to, and none twice; empty ids are never
    sent. *)
Theorem connect_resends_every_subscription (ops : list SocketClient.Op) :
  NoDup (resent ops) /\
  (forall id, In id (resent ops) <-> In id (requested ops)) /\
  ~ In "" (resent ops).
Proof.
  unfold resent, SocketClient.onConnect, SocketClient.pendingAfter. simpl.
  destruct (pending_fold ops [] (NoDup_nil _)) as [Hnd Hin].
  split; [exact Hnd |].
  assert (H : forall id,
    In id (fold_left (fun p op => fst (SocketClient.step p op)) ops []) <->
    In id (requested ops)).
  { intros id. rewrite (Hin id). simpl. tauto. }
  split; [exact H |].
  intros Hempty. apply H in Hempty. unfold requested in Hempty.
  apply in_flat_map in Hempty. destruct Hempty as (op & _ & Hop).
  destruct op as [videoId live |]; [| exact Hop]. cbv beta iota in Hop.
  revert Hop. destruct (videoId =? "") eqn:E; intros Hop; [exact Hop |].
  destruct Hop as [Hv | []]. rewrite Hv in E. discriminate E.
Qed.

Lemma join_rooms room s x :
  In x (SocketServer.rooms (SocketServer.join room s)) <->
  x = room \/ In x (SocketServer.rooms s).
Proof.
  unfold SocketServer.join.
  destruct (Builtins.listIncludes (SocketServer.rooms s) room) eqn:E; simpl.
  - apply listIncludes_In in E. split; [auto | intros [-> | H]; assumption].
  - rewrite in_app_iff. simpl. split.
    + intros [H | [H | []]]; auto.
    + intros [-> | H]; auto.
Qed.

Lemma subscribed_rooms videoIds : forall s x,
  In x (SocketServer.rooms (SocketServer.subscribed s videoIds)) <->
  In x (SocketServer.rooms s) \/ In x (map SocketServer.videoRoom videoIds).
Proof.
  unfold SocketServer.subscribed.
  induction videoIds as [| v rest IH]; intros s x; simpl.
  - tauto.
  - rewrite IH. unfold SocketServer.onSubscribeVideo. rewrite join_rooms.
    split; intros H; repeat destruct H as [H | H]; subst; auto.
Qed.

(** X12.  A socket gets the events of a video exactly when it sent
    ['subscribe:video'] for it, or when its organization (or its own id)
    is literally the name of the video's room: neither the user nor the
    organization of the subscriber is compared with the video's. *)
Theorem video_events_reach_any_subscriber
    (sid uid org : string) (videoIds : list string) (videoId : string) :
  receives (SocketServer.subscribed (SocketServer.onConnection sid uid org) videoIds)
           videoId <->
  In videoId videoIds \/ org = SocketServer.videoRoom videoId
                      \/ sid = SocketServer.videoRoom videoId.
Proof.
  unfold receives, SocketServer.receivers, SocketServer.to.
  set (s := SocketServer.subscribed _ _).
  assert (Hrooms : In (SocketServer.videoRoom videoId) (SocketServer.rooms s) <->
                   In videoId videoIds \/ org = SocketServer.videoRoom videoId
                                       \/ sid = SocketServer.videoRoom videoId).
  { subst s. rewrite subscribed_rooms. unfold SocketServer.onConnection.
    rewrite !join_rooms. simpl. rewrite in_map_iff. split.
    - intros [[H | [H | [H | []]]] | (v & Hv & Hin)]; auto.
      + discriminate H.
      + injection Hv as ->. auto.
    - intros [H | [H | H]]; [right; exists videoId; auto | subst; auto | subst; auto]. }
  simpl. destruct (Builtins.listIncludes (SocketServer.rooms s)
                     (SocketServer.videoRoom videoId)) eqn:E.
  - apply listIncludes_In in E. split; [intros _; apply Hrooms; exact E | simpl; auto].
  - split; [intros [] |]. intros H. apply Hrooms, In_listIncludes in H. congruence.
Qed.

(** ** Uploads *)

(** X13.  A file the upload form accepts passes the file filter of the
    server whatever its name, and is within the default size limit of
    the server. *)
Theorem form_accepted_file_passes_server
    (form : Upload.Form) (selected : Upload.SelectedFile) (extname : string) :
  Upload.error (Upload.handleFileChange form (Some selected)) = "" ->
  Upload.file (Upload.handleFileChange form (Some selected)) = Some selected /\
  Upload.fileFilter (Upload.file_type selected) extname = Returned tt /\
  (Upload.file_size selected <= Upload.fileSizeLimit None)%Z.
Proof.
  unfold Upload.handleFileChange.
  destruct (Builtins.listIncludes Upload.validTypes (Upload.file_type selected)) eqn:Ht;
    cbn [negb]; [| discriminate].
  destruct (500 * 1024 * 1024 <? Upload.file_size selected)%Z eqn:Hs;
    [discriminate |].
  intros _. split; [reflexivity |]. split.
  - apply listIncludes_In in Ht. unfold Upload.fileFilter.
    assert (Hm : Builtins.listIncludes Upload.allowedMimes (Upload.file_type selected)
                 = true).
    { apply In_listIncludes. unfold Upload.validTypes in Ht. unfold Upload.allowedMimes.
      simpl in *. intuition. }
    rewrite Hm. reflexivity.
  - apply Z.ltb_ge in Hs. exact Hs.
Qed.

Lemma form_accepted_file_passes_server_witness :
  Upload.file (Upload.handleFileChange emptyForm (Some clip)) = Some clip /\
  Upload.fileFilter (Upload.file_type clip) ".mp4" = Returned tt /\
  (Upload.file_size clip <= Upload.fileSizeLimit None)%Z.
Proof.
  apply (form_accepted_file_passes_server emptyForm clip ".mp4"). reflexivity.
Defined.

(** X14.  When files can be removed, the upload handler answers exactly
    once and never throws; it answers 201 exactly when the file was
    probed and the record created, and then it has started the
    processing and kept the file; otherwise it answers 400 or 500, has
    created and started nothing, and the uploaded file is gone. *)
Theorem upload_answers_once (path : string) (env : Upload.UploadEnv) (p : bool) :
  Upload.unlink_ok env = true ->
  let run := Upload.uploadHandler true path env (stored p) in
  snd run = Returned tt /\
  ((Upload.effects (fst run) =
      [Upload.Create; Upload.Start;
       Upload.Respond 201 "Video uploaded successfully. Processing started."] /\
    Upload.present (fst run) = p /\
    (exists metadata, Probe.getVideoMetadata path (Upload.probe env) = inr metadata) /\
    Upload.create_error env = None)
   \/
   (exists code message,
      (code = 400 \/ code = 500)%Z /\
      Upload.effects (fst run) =
        (if p then [Upload.Unlink] else []) ++ [Upload.Respond code message] /\
      Upload.present (fst run) = false /\
      ((exists msg, Probe.getVideoMetadata path (Upload.probe env) = inl msg) \/
       Upload.create_error env <> None))).
Proof.
  intros Hu run. subst run.
  unfold Upload.uploadHandler, try_catch, bind, Upload.unlinkIfExists, Upload.create,
    Upload.respond, Upload.perform, when, modify, ret, raise, stored.
  cbn [negb].
  destruct (Probe.getVideoMetadata path (Upload.probe env)) as [msg | metadata] eqn:Eprobe.
  - cbn. rewrite Hu. destruct p; cbn; (split; [reflexivity | right]);
      exists 400%Z; eexists; (split; [left; reflexivity |]);
      (split; [reflexivity |]); (split; [reflexivity | left; eexists; reflexivity]).
  - cbn. destruct (Upload.create_error env) as [msg |] eqn:Ecreate; cbn.
    + rewrite Hu. destruct p; cbn; (split; [reflexivity | right]);
        exists 500%Z; eexists; (split; [right; reflexivity |]);
        (split; [reflexivity |]); (split; [reflexivity | right; discriminate]).
    + split; [reflexivity | left]. repeat split; eauto.
Qed.

Lemma upload_answers_once_witness :
  let run := Upload.uploadHandler true "uploads/videos/a.mp4" upload_ok (stored true) in
  snd run = Returned tt /\
  ((Upload.effects (fst run) =
      [Upload.Create; Upload.Start;
       Upload.Respond 201 "Video uploaded successfully. Processing started."] /\
    Upload.present (fst run) = true /\
    (exists metadata,
       Probe.getVideoMetadata "uploads/videos/a.mp4" (Upload.probe upload_ok)
       = inr metadata) /\
    Upload.create_error upload_ok = None)
   \/
   (exists code message,
      (code = 400 \/ code = 500)%Z /\
      Upload.effects (fst run) =
        (if true then [Upload.Unlink] else []) ++ [Upload.Respond code message] /\
      Upload.present (fst run) = false /\
      ((exists msg,
          Probe.getVideoMetadata "uploads/videos/a.mp4" (Upload.probe upload_ok)
          = inl msg) \/
       Upload.create_error upload_ok <> None))).
Proof.
  apply (upload_answers_once "uploads/videos/a.mp4" upload_ok true). reflexivity.
Defined.

(** X15.  When the uploaded file is on disk and cannot be removed, an
    upload that fails to be probed or recorded gets no response: the
    handler throws out of its own catch block. *)
Theorem upload_unanswered_when_unlink_fails (path : string) (env : Upload.UploadEnv) :
  Upload.unlink_ok env = false ->
  (exists msg, Probe.getVideoMetadata path (Upload.probe env) = inl msg) \/
    Upload.create_error env <> None ->
  let run := Upload.uploadHandler true path env (stored true) in
  (exists msg, snd run = Raised msg) /\
  responses (Upload.effects (fst run)) = [] /\
  Upload.present (fst run) = true.
Proof.
  intros Hu Hfail run. subst run.
  unfold Upload.uploadHandler, try_catch, bind, Upload.unlinkIfExists, Upload.create,
    Upload.respond, Upload.perform, when, modify, ret, raise, stored.
  cbn [negb].
  destruct (Probe.getVideoMetadata path (Upload.probe env)) as [msg | metadata] eqn:Eprobe.
  - cbn. rewrite Hu. cbn. repeat split. eexists. reflexivity.
  - destruct Hfail as [(msg & Hmsg) | Hcreate]; [discriminate |].
    cbn. destruct (Upload.create_error env) as [msg |] eqn:Ecreate; [| contradiction].
    cbn. rewrite Hu. cbn. repeat split. eexists. reflexivity.
Qed.

Lemma upload_unanswered_when_unlink_fails_witness :
  let run := Upload.uploadHandler true "uploads/videos/a.mp4" upload_locked (stored true) in
  (exists msg, snd run = Raised msg) /\
  responses (Upload.effects (fst run)) = [] /\
  Upload.present (fst run) = true.
Proof.
  apply (upload_unanswered_when_unlink_fails "uploads/videos/a.mp4" upload_locked).
  - reflexivity.
  - left. eexists. reflexivity.
Defined.

Lemma includes_prefix s sub : String.prefix sub s = true -> Builtins.includes s sub = true.
Proof. intros H. destruct s; simpl in *; rewrite H; reflexivity. Qed.

(** X16.  A failure of [ffprobe] whose message names [ffprobe] (as the
    message of a non-zero exit does), [not found] or [ENOENT], and any
    failure to initialize FFmpeg, is answered with the message that
    FFmpeg is not installed, also when the message reports invalid
    data. *)
Theorem probe_exit_blamed_on_installation
    (path : string) (env : Probe.ProbeEnv) (err : string) :
  (exists init, Probe.initializeFFmpeg env = inl init) \/
  Probe.initializeFFmpeg env = inr false \/
  (ffprobe_failed env err /\
   (Builtins.includes err "ffprobe" || Builtins.includes err "not found"
    || Builtins.includes err "ENOENT") = true) ->
  exists msg, Probe.getVideoMetadata path env = inl msg /\
              Upload.errorMessage msg = notInstalled.
Proof.
  unfold Probe.getVideoMetadata.
  intros [(init & Hinit) | [Hinit | ((Hinit & Hex & Herr) & Hwords)]]; rewrite Hinit.
  - eexists. split; [reflexivity |]. unfold Upload.errorMessage.
    rewrite (includes_prefix ("FFmpeg initialization error: " ++ init) "FFmpeg");
      reflexivity.
  - eexists. split; reflexivity.
  - rewrite Hex, Herr. cbn [negb]. rewrite Hwords.
    eexists. split; reflexivity.
Qed.

Lemma probe_exit_blamed_on_installation_witness :
  exists msg, Probe.getVideoMetadata "uploads/videos/a.mp4" probe_damaged = inl msg /\
              Upload.errorMessage msg = notInstalled.
Proof.
  apply (probe_exit_blamed_on_installation "uploads/videos/a.mp4" probe_damaged
           "ffprobe exited with code 1: Invalid data found when processing input").
  right. right. split; [| reflexivity]. repeat split.
Defined.

(** ** Video routes *)

Lemma find_In {A} (f : A -> bool) l a : find f l = Some a -> In a l /\ f a = true.
Proof. apply find_some. Qed.

Lemma unique_ids_eq l v v0 :
  unique_ids l -> In v l -> In v0 l -> Videos._id v = Videos._id v0 -> v = v0.
Proof.
  unfold unique_ids. induction l as [| x rest IH]; simpl; intros Hnd Hv Hv0 Hid.
  - contradiction.
  - inversion Hnd as [| ? ? Hx Hrest]; subst.
    destruct Hv as [-> | Hv], Hv0 as [-> | Hv0].
    + reflexivity.
    + exfalso. apply Hx. rewrite Hid. apply in_map. exact Hv0.
    + exfalso. apply Hx. rewrite <- Hid. apply in_map. exact Hv.
    + apply IH; assumption.
Qed.

Lemma updateById_other id u l v :
  In v l -> Videos._id v <> id -> In v (Videos.updateById id u l).
Proof.
  induction l as [| x rest IH]; simpl; intros Hv Hid; [contradiction |].
  destruct (String.eqb_spec (Videos._id x) id) as [Hx | Hx].
  - destruct Hv as [-> | Hv]; [contradiction | right; exact Hv].
  - destruct Hv as [-> | Hv]; [left; reflexivity | right; apply IH; assumption].
Qed.

Lemma deleteById_other id l v :
  In v l -> Videos._id v <> id -> In v (Videos.deleteById id l).
Proof.
  induction l as [| x rest IH]; simpl; intros Hv Hid; [contradiction |].
  destruct (String.eqb_spec (Videos._id x) id) as [Hx | Hx].
  - destruct Hv as [-> | Hv]; [contradiction | exact Hv].
  - destruct Hv as [-> | Hv]; [left; reflexivity | right; apply IH; assumption].
Qed.

Lemma deleteById_incl id l v : In v (Videos.deleteById id l) -> In v l.
Proof.
  induction l as [| x rest IH]; simpl; [auto |].
  destruct (Videos._id x =? id); simpl; [auto |]. intros [-> | H]; auto.
Qed.

Lemma deleteById_gone id l v :
  unique_ids l -> In v (Videos.deleteById id l) -> Videos._id v <> id.
Proof.
  unfold unique_ids. induction l as [| x rest IH]; simpl; intros Hnd Hv; [contradiction |].
  inversion Hnd as [| ? ? Hx Hrest]; subst.
  destruct (String.eqb_spec (Videos._id x) id) as [Hid | Hid].
  - intros Heq. apply Hx. rewrite Hid, <- Heq. apply in_map. exact Hv.
  - destruct Hv as [<- | Hv]; [exact Hid | apply IH; assumption].
Qed.

Lemma updateById_from id u l v' :
  In v' (Videos.updateById id u l) ->
  In v' l \/ exists v, In v l /\ v' = Videos.applyUpdate u v.
Proof.
  induction l as [| x rest IH]; simpl; [auto |].
  destruct (Videos._id x =? id); simpl.
  - intros [<- | H]; [right; exists x; auto | auto].
  - intros [<- | H]; [auto |]. destruct (IH H) as [H' | (v & Hv & E)]; [auto |].
    right. exists v. auto.
Qed.

(** What [PUT /:id] does: nothing, or the update of the video found. *)
Lemma putVideo_cases env id b u org w :
  let run := Videos.putVideo env id b u org w in
  (after run = w /\
   (answer run = Some 404%Z \/ answer run = Some 403%Z \/ answer run = Some 500%Z))
  \/
  (exists v0,
     find (fun v => (Videos._id v =? id) && (Videos.organization v =? org))
          (Videos.store w) = Some v0 /\
     Videos.permitted u v0 = true /\
     Videos.validationError (Videos.castUpdate (Videos.updateDataOf b)) = None /\
     after run = {| Videos.store :=
                      Videos.updateById id (Videos.castUpdate (Videos.updateDataOf b))
                        (Videos.store w);
                    Videos.files := Videos.files w |} /\
     answer run = Some 200%Z).
Proof.
  unfold Videos.putVideo, try_catch, bind, Videos.findOne, Videos.findByIdAndUpdate,
    ret, after, answer.
  destruct (Videos.find_error env); [left; simpl; auto |].
  destruct (find _ (Videos.store w)) as [v0 |] eqn:Efind; [| left; simpl; auto].
  destruct (Videos.permitted u v0) eqn:Eperm; cbn [negb]; [| left; simpl; auto].
  destruct (Videos.validationError _) eqn:Evalid; [left; simpl; auto |].
  destruct (Videos.write_error env); [left; simpl; auto |].
  right. exists v0. simpl. auto.
Qed.

Lemma filter_absent path l :
  ~ In path l -> filter (fun p => negb (p =? path)) l = l.
Proof.
  induction l as [| x rest IH]; simpl; intros H; [reflexivity |].
  destruct (String.eqb_spec x path) as [-> | _]; simpl.
  - exfalso. apply H. left. reflexivity.
  - rewrite IH; [reflexivity | intros Hin; apply H; right; exact Hin].
Qed.

Lemma filter_removes path l : ~ In path (filter (fun p => negb (p =? path)) l).
Proof.
  intros H. apply filter_In in H. destruct H as [_ H].
  rewrite String.eqb_refl in H. discriminate H.
Qed.

(** What removing a file does: the path is gone and the collection is
    kept, or it throws and nothing changed. *)
Lemma unlinkIfExists_cases env path w :
  (exists w', Videos.unlinkIfExists env path w = (w', Returned tt) /\
              Videos.store w' = Videos.store w /\
              Videos.files w' = filter (fun p => negb (p =? path)) (Videos.files w))
  \/ (exists msg, Videos.unlinkIfExists env path w = (w, Raised msg)).
Proof.
  unfold Videos.unlinkIfExists, bind, Videos.existsSync, when, Videos.unlinkSync, ret.
  destruct (Builtins.listIncludes (Videos.files w) path) eqn:Ein.
  - destruct (Videos.unlink_fails env path).
    + right. eexists. reflexivity.
    + left. eexists. split; [reflexivity |]. split; reflexivity.
  - left. exists w. split; [reflexivity |]. split; [reflexivity |].
    symmetry. apply filter_absent. intros Hin. apply In_listIncludes in Hin. congruence.
Qed.

(** What [DELETE /:id] does: it keeps the collection, or it removes the
    video found and its files. *)
Lemma deleteVideo_run env id u org w :
  exists w' r,
    Videos.deleteVideo env id u org w = (w', Returned r) /\
    ((Videos.store w' = Videos.store w /\
      (Videos.code r = 404 \/ Videos.code r = 403 \/ Videos.code r = 500)%Z)
     \/
     (exists v0,
        find (fun v => (Videos._id v =? id) && (Videos.organization v =? org))
             (Videos.store w) = Some v0 /\
        Videos.permitted u v0 = true /\
        Videos.store w' = Videos.deleteById id (Videos.store w) /\
        gone (Videos.filePath v0) w' /\
        (forall path, Builtins.given (Videos.processedPath v0) = Some path ->
                      gone path w') /\
        Videos.code r = 200%Z)).
Proof.
  unfold Videos.deleteVideo, try_catch, bind at 1, Videos.findOne, ret, gone.
  destruct (Videos.find_error env);
    [eexists; eexists; split; [reflexivity | left; simpl; auto] |].
  destruct (find _ (Videos.store w)) as [v0 |] eqn:Efind;
    [| eexists; eexists; split; [reflexivity | left; simpl; auto]].
  destruct (Videos.permitted u v0) eqn:Eperm; cbn [negb];
    [| eexists; eexists; split; [reflexivity | left; simpl; auto]].
  unfold bind at 1.
  destruct (unlinkIfExists_cases env (Videos.filePath v0) w)
    as [(w1 & -> & Hs1 & Hf1) | (msg & ->)];
    [| eexists; eexists; split; [reflexivity | left; simpl; auto]].
  unfold bind at 1.
  assert (Hsecond :
    exists w2 out,
      (match Builtins.given (Videos.processedPath v0) with
       | Some path => Videos.unlinkIfExists env path
       | None => fun s => (s, Returned tt)
       end) w1 = (w2, out) /\
      Videos.store w2 = Videos.store w /\
      (out = Returned tt ->
       ~ In (Videos.filePath v0) (Videos.files w2) /\
       forall path, Builtins.given (Videos.processedPath v0) = Some path ->
                    ~ In path (Videos.files w2))).
  { destruct (Builtins.given (Videos.processedPath v0)) as [path |].
    - destruct (unlinkIfExists_cases env path w1)
        as [(w2 & -> & Hs2 & Hf2) | (msg & ->)].
      + exists w2, (Returned tt). split; [reflexivity |]. split; [congruence |].
        intros _. rewrite Hf2. split.
        * intros Hin. apply filter_In in Hin. destruct Hin as [Hin _].
          rewrite Hf1 in Hin. exact (filter_removes _ _ Hin).
        * intros path' E. injection E as <-. apply filter_removes.
      + exists w1, (Raised msg). split; [reflexivity |]. split; [exact Hs1 |].
        discriminate.
    - exists w1, (Returned tt). split; [reflexivity |]. split; [exact Hs1 |].
      intros _. split; [rewrite Hf1; apply filter_removes | discriminate]. }
  destruct Hsecond as (w2 & out & -> & Hs2 & Hgone).
  destruct out as [[] | msg];
    [| eexists; eexists; split; [reflexivity | left; simpl; auto]].
  destruct (Hgone eq_refl) as [Hg1 Hg2].
  unfold bind, Videos.findByIdAndDelete.
  destruct (Videos.write_error env);
    [eexists; eexists; split; [reflexivity | left; simpl; auto] |].
  eexists. eexists. split; [reflexivity |].
  right. exists v0. simpl. rewrite Hs2. auto 7.
Qed.

Lemma deleteVideo_cases env id u org w :
  let run := Videos.deleteVideo env id u org w in
  (Videos.store (after run) = Videos.store w /\
   (answer run = Some 404%Z \/ answer run = Some 403%Z \/ answer run = Some 500%Z))
  \/
  (exists v0,
     find (fun v => (Videos._id v =? id) && (Videos.organization v =? org))
          (Videos.store w) = Some v0 /\
     Videos.permitted u v0 = true /\
     Videos.store (after run) = Videos.deleteById id (Videos.store w) /\
     gone (Videos.filePath v0) (after run) /\
     (forall path, Builtins.given (Videos.processedPath v0) = Some path ->
                   gone path (after run)) /\
     answer run = Some 200%Z).
Proof.
  destruct (deleteVideo_run env id u org w) as (w' & r & E & H).
  cbv zeta. rewrite E. unfold after, answer. simpl.
  destruct H as [[Hs Hc] | (v0 & Hf & Hp & Hs & Hg1 & Hg2 & Hc)].
  - left. split; [exact Hs |]. destruct Hc as [-> | [-> | ->]]; auto.
  - right. exists v0. rewrite Hc. auto 7.
Qed.

(** What a route does to a request by a user who is no administrator. *)
Lemma route_plain roles handler req u w :
  Videos.user req = Some u -> Videos.role u <> "admin" ->
  Videos.route (Some roles) handler req w =
    (if Builtins.listIncludes roles (Videos.role u)
     then handler u (Videos.user_organization u) w
     else (w, Returned (Videos.json 403
                          ("Access denied. Required role: "
                           ++ Builtins.join " or " roles)))).
Proof.
  intros Hu Hrole. unfold Videos.route, Videos.checkOrganization, Videos.authorize.
  rewrite Hu. apply String.eqb_neq in Hrole. rewrite Hrole.
  destruct (Builtins.listIncludes roles (Videos.role u)); reflexivity.
Qed.

Lemma editor_or_admin u :
  Builtins.listIncludes ["editor"; "admin"] (Videos.role u) = true ->
  Videos.role u <> "admin" -> Videos.role u = "editor".
Proof.
  intros H Hrole. apply listIncludes_In in H.
  destruct H as [H | [H | []]]; [auto | congruence].
Qed.

(** A video found for a user who is no administrator, and which the user
    may change, is an upload of the user in the user's organization. *)
Lemma found_is_own u id l v0 :
  Builtins.listIncludes ["editor"; "admin"] (Videos.role u) = true ->
  Videos.role u <> "admin" ->
  find (fun v => (Videos._id v =? id)
                 && (Videos.organization v =? Videos.user_organization u)) l = Some v0 ->
  Videos.permitted u v0 = true ->
  In v0 l /\ Videos._id v0 = id /\ ownUpload u v0 = true.
Proof.
  intros Hroles Hrole Hfind Hperm.
  apply find_In in Hfind. destruct Hfind as [Hin Hmatch].
  apply andb_prop in Hmatch. destruct Hmatch as [Hid Horg].
  apply String.eqb_eq in Hid. split; [exact Hin |]. split; [exact Hid |].
  unfold ownUpload. rewrite Horg, (editor_or_admin u Hroles Hrole).
  unfold Videos.permitted in Hperm. apply String.eqb_neq in Hrole.
  rewrite Hrole in Hperm. simpl in Hperm. rewrite Hperm. reflexivity.
Qed.

(** X17.  A user who is no administrator changes and deletes nothing but
    own uploads in the own organization, and that only as an editor:
    every other video of the collection is still there, unchanged, after
    [PUT /:id] and after [DELETE /:id], whatever the request says. *)
Theorem others_videos_untouched
    (env : Videos.Env) (req : Videos.Request) (u : Videos.User)
    (w : Videos.World) (v : Videos.Video) :
  Videos.user req = Some u -> Videos.role u <> "admin" ->
  unique_ids (Videos.store w) ->
  In v (Videos.store w) -> ownUpload u v = false ->
  In v (Videos.store (after (Videos.PUT_id env req w))) /\
  In v (Videos.store (after (Videos.DELETE_id env req w))).
Proof.
  intros Hu Hrole Hnd Hv Hown.
  unfold Videos.PUT_id, Videos.DELETE_id. rewrite !(route_plain _ _ req u w Hu Hrole).
  destruct (Builtins.listIncludes ["editor"; "admin"] (Videos.role u)) eqn:Hroles;
    [| split; exact Hv].
  assert (Hother : forall v0 id, In v0 (Videos.store w) -> Videos._id v0 = id ->
                                 ownUpload u v0 = true -> Videos._id v <> id).
  { intros v0 id Hin <- Hv0 Heq.
    rewrite (unique_ids_eq _ v v0 Hnd Hv Hin Heq) in Hown. congruence. }
  split.
  - destruct (putVideo_cases env (Videos.params_id req) (Videos.body req) u
                (Videos.user_organization u) w)
      as [[-> _] | (v0 & Hfind & Hperm & _ & -> & _)]; [exact Hv |].
    destruct (found_is_own u _ _ v0 Hroles Hrole Hfind Hperm) as (Hin & Hid & Hv0).
    simpl. apply updateById_other; [exact Hv | exact (Hother v0 _ Hin Hid Hv0)].
  - destruct (deleteVideo_cases env (Videos.params_id req) u
                (Videos.user_organization u) w)
      as [[-> _] | (v0 & Hfind & Hperm & -> & _)]; [exact Hv |].
    destruct (found_is_own u _ _ v0 Hroles Hrole Hfind Hperm) as (Hin & Hid & Hv0).
    apply deleteById_other; [exact Hv | exact (Hother v0 _ Hin Hid Hv0)].
Qed.

Lemma others_videos_untouched_witness :
  In video_b
     (Videos.store (after (Videos.PUT_id env_fine (request_by editor_u1 (Some "globex") "b1")
                             world_ab))) /\
  In video_b
     (Videos.store (after (Videos.DELETE_id env_fine
                             (request_by editor_u1 (Some "globex") "b1") world_ab))).
Proof.
  apply (others_videos_untouched env_fine (request_by editor_u1 (Some "globex") "b1")
           editor_u1 world_ab video_b).
  - reflexivity.
  - discriminate.
  - unfold unique_ids. simpl. repeat constructor; simpl; intuition discriminate.
  - simpl. auto.
  - reflexivity.
Defined.

(** A route answers 401 or 403 and changes nothing, or runs its handler
    for the user of the request. *)
Lemma route_cases roles handler req w :
  (exists r, Videos.route roles handler req w = (w, Returned r) /\
             (Videos.code r = 401 \/ Videos.code r = 403)%Z)
  \/ (exists u org, Videos.user req = Some u /\
                    Videos.route roles handler req w = handler u org w).
Proof.
  unfold Videos.route, Videos.checkOrganization, Videos.authorize.
  destruct (Videos.user req) as [u |]; [| left; eexists; split; [reflexivity | auto]].
  destruct (if Videos.role u =? "admin" then Builtins.given (Videos.query_organization req)
            else None) as [org |];
    (destruct roles as [roles |];
     [destruct (Builtins.listIncludes roles (Videos.role u)); cbn [negb];
      [right; eexists; eexists; split; reflexivity
      | left; eexists; split; [reflexivity | auto]]
     | right; eexists; eexists; split; reflexivity]).
Qed.

(** X18.  When [DELETE /:id] answers 200, a video with that id was in
    the collection, no video with that id remains, every other video is
    kept, and neither the uploaded nor the processed file of the deleted
    video is left on disk. *)
Theorem deleted_video_leaves_nothing
    (env : Videos.Env) (req : Videos.Request) (w : Videos.World) :
  unique_ids (Videos.store w) ->
  answer (Videos.DELETE_id env req w) = Some 200%Z ->
  let w' := after (Videos.DELETE_id env req w) in
  exists v0,
    In v0 (Videos.store w) /\ Videos._id v0 = Videos.params_id req /\
    (forall v, In v (Videos.store w') ->
               In v (Videos.store w) /\ Videos._id v <> Videos.params_id req) /\
    (forall v, In v (Videos.store w) -> Videos._id v <> Videos.params_id req ->
               In v (Videos.store w')) /\
    gone (Videos.filePath v0) w' /\
    (forall path, Builtins.given (Videos.processedPath v0) = Some path -> gone path w').
Proof.
  intros Hnd. unfold Videos.DELETE_id.
  destruct (route_cases (Some ["editor"; "admin"])
              (Videos.deleteVideo env (Videos.params_id req)) req w)
    as [(r & -> & Hc) | (u & org & _ & ->)].
  { unfold answer. simpl. intros E. injection E as E. lia. }
  destruct (deleteVideo_cases env (Videos.params_id req) u org w)
    as [[_ Hc] | (v0 & Hfind & _ & Hs & Hg1 & Hg2 & _)].
  { intros E. rewrite E in Hc. destruct Hc as [Hc | [Hc | Hc]]; discriminate Hc. }
  intros _. cbv zeta. exists v0.
  apply find_In in Hfind. destruct Hfind as [Hin Hmatch].
  apply andb_prop in Hmatch. destruct Hmatch as [Hid _]. apply String.eqb_eq in Hid.
  split; [exact Hin |]. split; [exact Hid |]. rewrite Hs.
  split; [| split; [| split; assumption]].
  - intros v Hv. split; [exact (deleteById_incl _ _ _ Hv) |].
    exact (deleteById_gone _ _ _ Hnd Hv).
  - intros v Hv Hne. apply deleteById_other; assumption.
Qed.

Lemma deleted_video_leaves_nothing_witness :
  let w' := after (Videos.DELETE_id env_fine (request_by editor_u1 None "a1") world_ab) in
  exists v0,
    In v0 (Videos.store world_ab) /\ Videos._id v0 = "a1" /\
    (forall v, In v (Videos.store w') ->
               In v (Videos.store world_ab) /\ Videos._id v <> "a1") /\
    (forall v, In v (Videos.store world_ab) -> Videos._id v <> "a1" ->
               In v (Videos.store w')) /\
    gone (Videos.filePath v0) w' /\
    (forall path, Builtins.given (Videos.processedPath v0) = Some path -> gone path w').
Proof.
  apply (deleted_video_leaves_nothing env_fine (request_by editor_u1 None "a1") world_ab).
  - unfold unique_ids. simpl. repeat constructor; simpl; intuition discriminate.
  - reflexivity.
Defined.

Lemma find_unique id org l v :
  unique_ids l -> In v l -> Videos._id v = id -> Videos.organization v = org ->
  find (fun x => (Videos._id x =? id) && (Videos.organization x =? org)) l = Some v.
Proof.
  intros Hnd Hv Hid Horg.
  destruct (find _ l) as [v0 |] eqn:Efind.
  - apply find_In in Efind. destruct Efind as [Hin Hmatch].
    apply andb_prop in Hmatch. destruct Hmatch as [Hid0 _]. apply String.eqb_eq in Hid0.
    f_equal. apply (unique_ids_eq l v0 v Hnd Hin Hv). congruence.
  - exfalso. pose proof (find_none _ _ Efind v Hv) as H. cbv beta in H.
    rewrite Hid, Horg, !String.eqb_refl in H. discriminate H.
Qed.

Lemma unlinkIfExists_ok env path w :
  (forall p, Videos.unlink_fails env p = false) ->
  exists w', Videos.unlinkIfExists env path w = (w', Returned tt) /\
             Videos.store w' = Videos.store w.
Proof.
  intros Hok.
  destruct (unlinkIfExists_cases env path w) as [(w' & E & Hs & _) | (msg & E)].
  - exists w'. auto.
  - exfalso. revert E.
    unfold Videos.unlinkIfExists, bind, Videos.existsSync, when, Videos.unlinkSync, ret.
    destruct (Builtins.listIncludes (Videos.files w) path); [rewrite Hok |]; discriminate.
Qed.

(** X19.  The organization of an administrator does not bound what the
    administrator reaches: naming any organization in the query, an
    administrator is given a video of that organization by [GET /:id],
    and when nothing fails [DELETE /:id] removes it. *)
Theorem admin_reaches_any_organization
    (env : Videos.Env) (req : Videos.Request) (u : Videos.User) (org : string)
    (w : Videos.World) (v : Videos.Video) :
  Videos.user req = Some u -> Videos.role u = "admin" ->
  Builtins.given (Videos.query_organization req) = Some org ->
  unique_ids (Videos.store w) -> In v (Videos.store w) ->
  Videos._id v = Videos.params_id req -> Videos.organization v = org ->
  Videos.find_error env = None -> Videos.write_error env = None ->
  (forall p, Videos.unlink_fails env p = false) ->
  Videos.GET_id env req w =
    (w, Returned {| Videos.code := 200; Videos.message := ""; Videos.data := Some v |}) /\
  answer (Videos.DELETE_id env req w) = Some 200%Z /\
  ~ In v (Videos.store (after (Videos.DELETE_id env req w))).
Proof.
  intros Hu Hrole Hq Hnd Hv Hid Horg Hfind Hwrite Hunlink.
  pose proof (find_unique _ _ _ v Hnd Hv Hid Horg) as Hfound.
  assert (Hperm : Videos.permitted u v = true)
    by (unfold Videos.permitted; rewrite Hrole; reflexivity).
  split.
  - unfold Videos.GET_id, Videos.route, Videos.checkOrganization.
    rewrite Hu, Hrole, Hq. cbn [String.eqb Ascii.eqb Bool.eqb].
    unfold Videos.getVideo, try_catch, bind, Videos.findOne, ret.
    rewrite Hfind, Hfound. reflexivity.
  - assert (Hrun : exists w',
      Videos.DELETE_id env req w = (w', Returned (Videos.json 200 "Video deleted successfully"))
      /\ Videos.store w' = Videos.deleteById (Videos.params_id req) (Videos.store w)).
    { unfold Videos.DELETE_id, Videos.route, Videos.checkOrganization, Videos.authorize.
      rewrite Hu, Hrole, Hq. cbn [String.eqb Ascii.eqb Bool.eqb].
      change (Builtins.listIncludes ["editor"; "admin"] "admin") with true. cbn [negb].
      unfold Videos.deleteVideo, try_catch, bind at 1, Videos.findOne, ret.
      rewrite Hfind, Hfound, Hperm. cbn [negb]. unfold bind at 1.
      destruct (unlinkIfExists_ok env (Videos.filePath v) w Hunlink) as (w1 & -> & Hs1).
      unfold bind at 1.
      assert (Hsecond : exists w2,
        (match Builtins.given (Videos.processedPath v) with
         | Some path => Videos.unlinkIfExists env path
         | None => fun s => (s, Returned tt)
         end) w1 = (w2, Returned tt) /\ Videos.store w2 = Videos.store w).
      { destruct (Builtins.given (Videos.processedPath v)) as [path |].
        - destruct (unlinkIfExists_ok env path w1 Hunlink) as (w2 & -> & Hs2).
          exists w2. split; [reflexivity | congruence].
        - exists w1. split; [reflexivity | exact Hs1]. }
      destruct Hsecond as (w2 & -> & Hs2).
      unfold bind, Videos.findByIdAndDelete. rewrite Hwrite.
      eexists. split; [reflexivity |]. simpl. rewrite Hs2. reflexivity. }
    destruct Hrun as (w' & -> & Hs). unfold answer, after. simpl.
    split; [reflexivity |]. rewrite Hs. intros Hin.
    exact (deleteById_gone _ _ _ Hnd Hin Hid).
Qed.

Lemma admin_reaches_any_organization_witness :
  Videos.GET_id env_fine (request_by admin_u9 (Some "globex") "b1") world_ab =
    (world_ab,
     Returned {| Videos.code := 200; Videos.message := "";
                 Videos.data := Some video_b |}) /\
  answer (Videos.DELETE_id env_fine (request_by admin_u9 (Some "globex") "b1") world_ab)
    = Some 200%Z /\
  ~ In video_b
      (Videos.store (after (Videos.DELETE_id env_fine
                              (request_by admin_u9 (Some "globex") "b1") world_ab))).
Proof.
  apply (admin_reaches_any_organization env_fine
           (request_by admin_u9 (Some "globex") "b1") admin_u9 "globex" world_ab video_b);
    try reflexivity.
  - unfold unique_ids. simpl. repeat constructor; simpl; intuition discriminate.
  - simpl. auto.
Defined.

(** X20.  When the query names a status, the listing does not depend on
    the user: the restriction of viewers to completed, flagged and safe
    videos is replaced by the status asked for. *)
Theorem status_parameter_replaces_role_filter
    (u u' : Videos.User) (org : string) (q : Videos.ListQuery) (s : string)
    (l : list Videos.Video) :
  Builtins.given (Videos.q_status q) = Some s ->
  Videos.matching u org q l = Videos.matching u' org q l /\
  Forall (fun v => Videos.status v = s) (Videos.matching u org q l).
Proof.
  intros Hs. unfold Videos.matching, Videos.statusCondition. rewrite Hs. split.
  - reflexivity.
  - apply Forall_forall. intros v Hv. apply filter_In in Hv. destruct Hv as [_ Hv].
    do 3 (apply andb_prop in Hv; destruct Hv as [Hv _]).
    apply andb_prop in Hv. destruct Hv as [_ Hv]. apply String.eqb_eq. exact Hv.
Qed.

Lemma status_parameter_replaces_role_filter_witness :
  Videos.matching viewer_u3 "acme" query_processing [video_a; video_b] =
  Videos.matching editor_u1 "acme" query_processing [video_a; video_b] /\
  Forall (fun v => Videos.status v = "processing")
         (Videos.matching viewer_u3 "acme" query_processing [video_a; video_b]).
Proof.
  apply (status_parameter_replaces_role_filter viewer_u3 editor_u1 "acme"
           query_processing "processing" [video_a; video_b]).
  reflexivity.
Defined.

Lemma ceiling_bounds (T l : Z) :
  (1 <= l)%Z ->
  let p := Qceiling (inject_Z T / inject_Z l) in
  ((p - 1) * l < T <= p * l)%Z.
Proof.
  intros Hl p.
  assert (HL : inject_Z 0 < inject_Z l) by (rewrite <- Zlt_Qlt; lia).
  change (inject_Z 0) with 0 in HL.
  assert (Hx : inject_Z T / inject_Z l * inject_Z l == inject_Z T).
  { field. intros E. rewrite E in HL. exact (Qlt_irrefl 0 HL). }
  pose proof (Qle_ceiling (inject_Z T / inject_Z l)) as Hup.
  pose proof (Qceiling_lt (inject_Z T / inject_Z l)) as Hlow.
  fold p in Hup, Hlow. split.
  - apply (Qmult_lt_compat_r _ _ (inject_Z l) HL) in Hlow.
    rewrite Hx, <- inject_Z_mult, <- Zlt_Qlt in Hlow. exact Hlow.
  - apply (Qmult_le_compat_r _ _ (inject_Z l)) in Hup; [| apply Qlt_le_weak; exact HL].
    rewrite Hx, <- inject_Z_mult, <- Zle_Qle in Hup. exact Hup.
Qed.

(** X21.  For a limit of at least one, the number of pages the listing
    announces is the number needed: it is zero for an empty result, and
    otherwise the offset of the last page lies below the total, and the
    total within one limit of it. *)
Theorem last_page_holds_the_rest (total : nat) (l : Z) :
  (1 <= l)%Z ->
  exists pages,
    Videos.pagesOf total (Some l) = Some pages /\
    (0 <= pages)%Z /\
    (total = 0%nat -> pages = 0%Z) /\
    (total <> 0%nat ->
     exists offset,
       Videos.skipOf (Some pages) (Some l) = Some offset /\
       (0 <= offset < Z.of_nat total)%Z /\ (Z.of_nat total <= offset + l)%Z).
Proof.
  intros Hl. unfold Videos.pagesOf, Videos.skipOf.
  destruct (Z.eqb_spec l 0) as [E | _]; [lia |].
  pose proof (ceiling_bounds (Z.of_nat total) l Hl) as H. cbv zeta in H.
  set (p := Qceiling (inject_Z (Z.of_nat total) / inject_Z l)) in *.
  exists p. split; [reflexivity |]. clearbody p.
  assert (Hp : (0 <= p)%Z) by nia.
  split; [exact Hp |]. split.
  - intros Ht. rewrite Ht in H. change (Z.of_nat 0) with 0%Z in H.
    destruct H as [Hlow _]. assert (p - 1 < 0)%Z by nia. lia.
  - intros Hne. eexists. split; [reflexivity |].
    assert (HT : (0 < Z.of_nat total)%Z) by lia.
    assert (Hp1 : (1 <= p)%Z) by nia.
    destruct H as [Hlow Hup]. repeat split; [nia | exact Hlow | lia].
Qed.

Lemma last_page_holds_the_rest_witness :
  exists pages,
    Videos.pagesOf 23 (Some 10%Z) = Some pages /\
    (0 <= pages)%Z /\
    (23%nat = 0%nat -> pages = 0%Z) /\
    (23%nat <> 0%nat ->
     exists offset,
       Videos.skipOf (Some pages) (Some 10%Z) = Some offset /\
       (0 <= offset < Z.of_nat 23)%Z /\ (Z.of_nat 23 <= offset + 10)%Z).
Proof.
  apply (last_page_holds_the_rest 23 10). lia.
Defined.

Lemma same_but_texts_refl v : same_but_texts v v.
Proof. unfold same_but_texts. repeat split; auto. Qed.

Lemma applyUpdate_keeps b v :
  Videos.validationError (Videos.castUpdate (Videos.updateDataOf b)) = None ->
  same_but_texts v (Videos.applyUpdate (Videos.castUpdate (Videos.updateDataOf b)) v).
Proof.
  unfold same_but_texts, Videos.applyUpdate, Videos.castUpdate, Videos.updateDataOf,
    Videos.validationError, Videos.titleError, Videos.orKeep, Builtins.given.
  simpl. intros Hvalid.
  repeat (split; [reflexivity |]).
  split; [| split].
  - destruct (Videos.body_title b) as [t |]; [| auto].
    destruct (t =? ""); simpl in *; [auto |]. intros _.
    destruct (Builtins.trim t =? "") eqn:E; [discriminate Hvalid |].
    apply String.eqb_neq. exact E.
  - destruct (Videos.body_category b) as [c |]; [| auto].
    destruct (c =? "") eqn:E; [auto |]. intros _. apply String.eqb_neq. exact E.
  - destruct (Videos.body_tags b) as [t |]; [| auto].
    destruct (t =? "") eqn:E; simpl; [auto |]. intros _.
    unfold Videos.splitTags. intros Hnil.
    apply map_eq_nil in Hnil. apply map_eq_nil in Hnil.
    exact (split_nonempty _ _ Hnil).
Qed.

(** X22.  Whatever the request, [PUT /:id] leaves in the collection only
    videos that were there, each with its id, organization, uploader,
    files and statuses, and it never empties a title, a category or a
    list of tags. *)
Theorem put_keeps_identity
    (env : Videos.Env) (req : Videos.Request) (w : Videos.World) (v' : Videos.Video) :
  In v' (Videos.store (after (Videos.PUT_id env req w))) ->
  exists v, In v (Videos.store w) /\ same_but_texts v v'.
Proof.
  unfold Videos.PUT_id.
  destruct (route_cases (Some ["editor"; "admin"])
              (Videos.putVideo env (Videos.params_id req) (Videos.body req)) req w)
    as [(r & -> & _) | (u & org & _ & ->)].
  { simpl. intros H. exists v'. split; [exact H | apply same_but_texts_refl]. }
  destruct (putVideo_cases env (Videos.params_id req) (Videos.body req) u org w)
    as [[-> _] | (v0 & _ & _ & Hvalid & -> & _)].
  { intros H. exists v'. split; [exact H | apply same_but_texts_refl]. }
  simpl. intros H. apply updateById_from in H.
  destruct H as [H | (v & Hv & ->)].
  - exists v'. split; [exact H | apply same_but_texts_refl].
  - exists v. split; [exact Hv | apply applyUpdate_keeps; exact Hvalid].
Qed.

(** An instance of X22: the editor renames the own upload and gives it
    two tags; the video in the collection afterwards is the one that
    was there, with the new title and tags. *)
Lemma put_keeps_identity_witness :
  In video_a_renamed
     (Videos.store (after (Videos.PUT_id env_fine request_rename world_ab))) /\
  exists v, In v (Videos.store world_ab) /\ same_but_texts v video_a_renamed.
Proof.
  assert (H : In video_a_renamed
                 (Videos.store (after (Videos.PUT_id env_fine request_rename world_ab))))
    by (vm_compute; auto).
  split; [exact H |].
  apply (put_keeps_identity env_fine request_rename world_ab video_a_renamed). exact H.
Defined.

(** ** Origins *)

Lemma split_cons sep c s :
  c <> sep ->
  Builtins.split sep (String c s) =
  match Builtins.split sep s with
  | first :: others => String c first :: others
  | [] => [String c EmptyString]
  end.
Proof.
  intros Hc. simpl. destruct (Ascii.eqb_spec c sep); [contradiction | reflexivity].
Qed.

(** Splitting a list written with [", "] between its entries gives the
    entries back, each after the first behind a space. *)
Lemma split_join a rest :
  Forall (free_of ",") (a :: rest) ->
  Builtins.split "," (Builtins.join ", " (a :: rest)) =
  a :: map (fun s => String " " s) rest.
Proof.
  revert a. induction rest as [| b rest IH]; intros a H.
  - simpl. apply split_free. inversion H; assumption.
  - inversion H as [| ? ? Ha Hrest]; subst.
    change (Builtins.join ", " (a :: b :: rest))
      with (a ++ String "," (String " " (Builtins.join ", " (b :: rest))))%string.
    rewrite (split_at "," a _ Ha), split_cons by discriminate.
    rewrite (IH b Hrest). reflexivity.
Qed.

Lemma trim_after_space s : Builtins.trim (String " " s) = Builtins.trim s.
Proof. reflexivity. Qed.

(** X23.  Every origin listed in [CORS_ORIGIN], with a comma and a space
    between the entries, is allowed; and so is every origin on
    [http://localhost:], whatever [CORS_ORIGIN] lists. *)
Theorem listed_origins_allowed (origins : list string) (o : string) :
  Forall listable origins -> In o origins ->
  Cors.origin (Cors.allowedOrigins (Some (Builtins.join ", " origins))) (Some o)
    = Returned tt /\
  forall CORS_ORIGIN port,
    Cors.origin (Cors.allowedOrigins CORS_ORIGIN) (Some ("http://localhost:" ++ port)%string)
      = Returned tt.
Proof.
  intros Hl Ho. split.
  - unfold Cors.origin. destruct (Builtins.given (Some o)) as [o' |] eqn:Eo; [| reflexivity].
    assert (o' = o) as ->.
    { simpl in Eo. destruct (o =? ""); [discriminate | congruence]. }
    unfold Cors.allowedOrigins.
    destruct (Builtins.given (Some (Builtins.join ", " origins))) as [text |] eqn:Et.
    + assert (text = Builtins.join ", " origins) as ->.
      { simpl in Et. destruct (Builtins.join ", " origins =? ""); [discriminate | congruence]. }
      assert (Hin : In o (map Builtins.trim (Builtins.split "," (Builtins.join ", " origins)))).
      { destruct origins as [| a rest]; [contradiction |].
        rewrite split_join
          by (apply (Forall_impl _ (fun x (H : listable x) => proj2 H) Hl)).
        simpl. rewrite Forall_forall in Hl.
        destruct Ho as [<- | Ho].
        - left. apply (Hl a). left. reflexivity.
        - right. rewrite map_map. apply in_map_iff. exists o. split; [| exact Ho].
          rewrite trim_after_space. apply (Hl o). right. exact Ho. }
      rewrite (In_listIncludes _ _ Hin). reflexivity.
    + exfalso. simpl in Et. simpl in Eo.
      destruct (Builtins.join ", " origins =? "") eqn:Ej; [| discriminate].
      apply String.eqb_eq in Ej.
      destruct origins as [| a [| b rest]]; [contradiction | |].
      * simpl in Ej. destruct Ho as [<- | []]. subst a. discriminate Eo.
      * simpl in Ej. destruct a; discriminate Ej.
  - intros cfg port. unfold Cors.origin.
    change (Builtins.given (Some ("http://localhost:" ++ port)%string))
      with (Some ("http://localhost:" ++ port)%string).
    unfold Builtins.startsWith. rewrite (prefix_append "http://localhost:" port).
    destruct (Builtins.listIncludes _ _); reflexivity.
Qed.

Lemma listed_origins_allowed_witness :
  Cors.origin (Cors.allowedOrigins (Some (Builtins.join ", " two_origins)))
              (Some "https://admin.example.com") = Returned tt /\
  forall CORS_ORIGIN port,
    Cors.origin (Cors.allowedOrigins CORS_ORIGIN) (Some ("http://localhost:" ++ port)%string)
      = Returned tt.
Proof.
  apply (listed_origins_allowed two_origins "https://admin.example.com").
  - unfold two_origins, listable, free_of.
    repeat constructor; simpl; intuition discriminate.
  - simpl. auto.
Defined.

(** ** The probabilistic backend *)

(** X24.  With the probabilistic backend, the confidence of a frame
    tells whether it is flagged: the frame is explicit or violent
    exactly when its confidence exceeds one half. *)
Theorem sightengine_flag_is_confidence (fe : FrameEnv) (r : FrameAnalysis) :
  analyzeFrameSightengine fe = inr r ->
  isExplicit r || isViolent r = Qltb (1#2) (confidence r).
Proof.
  unfold analyzeFrameSightengine. destruct (sightengine fe) as [err | data]; [discriminate |].
  intros E. injection E as <-. simpl.
  rewrite !Qltb_Math_max. reflexivity.
Qed.

Lemma sightengine_flag_is_confidence_witness :
  exists r, analyzeFrameSightengine frame_nude = inr r /\
            isExplicit r || isViolent r = Qltb (1#2) (confidence r).
Proof.
  eexists. split; [reflexivity |].
  apply (sightengine_flag_is_confidence frame_nude). reflexivity.
Defined.

(** ** Roles *)

Lemma saveRole_from id org newRole l a' :
  In a' (Users.saveRole id org newRole l) ->
  In a' l \/
  exists a, In a l /\ Users._id a = id /\ Users.organization a = org /\
            a' = {| Users._id := Users._id a; Users.role := newRole;
                    Users.organization := Users.organization a |}.
Proof.
  induction l as [| x rest IH]; simpl; [auto |].
  destruct ((Users._id x =? id) && (Users.organization x =? org)) eqn:E; simpl.
  - apply andb_prop in E. destruct E as [Hid Horg].
    apply String.eqb_eq in Hid. apply String.eqb_eq in Horg.
    intros [<- | H]; [right; exists x; auto | auto].
  - intros [<- | H]; [auto |]. destruct (IH H) as [H' | (a & Ha & Hrest)]; [auto |].
    right. exists a. auto.
Qed.

(** X25.  Whoever asks and whatever the request, after
    [PUT /api/users/:id/role] every user is as before, or is the user of
    that id with one of the three roles, set by an administrator of that
    user's own organization. *)
Theorem role_set_only_by_own_admin
    (env : Users.Env) (requester : option Users.Account) (id newRole : string)
    (store : list Users.Account) (a' : Users.Account) :
  In a' (fst (Users.putRole env requester id newRole store)) ->
  In a' store \/ exists a, In a store /\ role_set_by requester id newRole a a'.
Proof.
  unfold Users.putRole, Users.authorize.
  destruct requester as [u |]; [| simpl; auto].
  destruct (Builtins.listIncludes ["admin"] (Users.role u)) eqn:Hadmin;
    cbn [negb]; [| simpl; auto].
  assert (Hrole : Users.role u = "admin").
  { apply listIncludes_In in Hadmin. destruct Hadmin as [H | []]. auto. }
  unfold try_catch, ret.
  destruct (Builtins.listIncludes ["viewer"; "editor"; "admin"] newRole) eqn:Hnew;
    cbn [negb]; [| simpl; auto].
  destruct (Users.find_error env); [simpl; auto |].
  destruct (find _ store) as [found |]; [| simpl; auto].
  destruct (Users.save_error env); [simpl; auto |].
  simpl. intros H. apply saveRole_from in H.
  destruct H as [H | (a & Ha & Hid & Horg & ->)]; [auto |].
  right. exists a. split; [exact Ha |]. unfold role_set_by. simpl.
  repeat split; auto.
  - apply listIncludes_In in Hnew. exact Hnew.
  - exists u. auto.
Qed.

Lemma role_set_only_by_own_admin_witness :
  In account_editor [account_admin; account_viewer] \/
  exists a, In a [account_admin; account_viewer] /\
            role_set_by (Some account_admin) "u3" "editor" a account_editor.
Proof.
  apply (role_set_only_by_own_admin env_users_fine (Some account_admin) "u3" "editor"
           [account_admin; account_viewer] account_editor).
  simpl. auto.
Defined.

(** X26.  [GET /:id] changes nothing, and a user who is no administrator
    is given by it only a video of the own organization, whatever the
    query names. *)
Theorem reads_stay_in_organization
    (env : Videos.Env) (req : Videos.Request) (u : Videos.User)
    (w : Videos.World) (r : Videos.Response) (v : Videos.Video) :
  Videos.user req = Some u -> Videos.role u <> "admin" ->
  snd (Videos.GET_id env req w) = Returned r -> Videos.data r = Some v ->
  fst (Videos.GET_id env req w) = w /\
  In v (Videos.store w) /\
  Videos._id v = Videos.params_id req /\
  Videos.organization v = Videos.user_organization u.
Proof.
  intros Hu Hrole. unfold Videos.GET_id, Videos.route, Videos.checkOrganization.
  rewrite Hu. apply String.eqb_neq in Hrole. rewrite Hrole.
  unfold Videos.getVideo, try_catch, bind, Videos.findOne, ret.
  destruct (Videos.find_error env).
  { simpl. intros E. injection E as <-. discriminate. }
  destruct (find _ (Videos.store w)) as [v0 |] eqn:Efind; simpl.
  - intros E. injection E as <-. simpl. intros E. injection E as <-.
    apply find_In in Efind. destruct Efind as [Hin Hmatch].
    apply andb_prop in Hmatch. destruct Hmatch as [Hid Horg].
    apply String.eqb_eq in Hid. apply String.eqb_eq in Horg. auto.
  - intros E. injection E as <-. discriminate.
Qed.

Lemma reads_stay_in_organization_witness :
  fst (Videos.GET_id env_fine (request_by editor_u1 (Some "globex") "a1") world_ab)
    = world_ab /\
  In video_a (Videos.store world_ab) /\
  Videos._id video_a = "a1" /\
  Videos.organization video_a = Videos.user_organization editor_u1.
Proof.
  apply (reads_stay_in_organization env_fine (request_by editor_u1 (Some "globex") "a1")
           editor_u1 world_ab
           {| Videos.code := 200; Videos.message := ""; Videos.data := Some video_a |}
           video_a).
  - reflexivity.
  - discriminate.
  - reflexivity.
  - reflexivity.
Defined.
